(** * LinguaMaster: text segmentation, selection resolution and lookup
      coordination

    A shallow embedding of [App.tsx], [types.ts], [constants.ts] and
    [services/geminiService.ts].  JavaScript strings are sequences of
    UTF-16 code units; React state is an explicit record threaded through
    the event handlers; promises are values that have settled one way or
    the other. *)

From Stdlib Require Import String Ascii.
From Stdlib Require Import ZArith List Bool Lia Arith.
From Stdlib Require Import DecimalString DecimalNat.
From Equations Require Import Equations.
Import ListNotations.

Set Warnings "-register-all,-notation-for-abbreviation".
Local Open Scope Z_scope.

(* ===================================================================== *)
(** ** JavaScript strings *)
(* ===================================================================== *)

Module JsString.

(** A JavaScript string: its UTF-16 code units, each in [0, 65535]. *)
Definition jsString : Type := list Z.

(** An ASCII literal of the source as code units. *)
Definition lit (s : string) : jsString :=
  map (fun a => Z.of_N (N_of_ascii a)) (list_ascii_of_string s).

(** The double quote, which the templates of the source contain. *)
Definition dquote : jsString := [34].

Fixpoint eqb (a b : jsString) : bool :=
  match a, b with
  | [], [] => true
  | x :: a', y :: b' => (x =? y) && eqb a' b'
  | _, _ => false
  end.

(** Truthiness of a string: only the empty string is falsy. *)
Definition truthy (s : jsString) : bool :=
  match s with [] => false | _ :: _ => true end.

(** Truthiness of [string | null | undefined]. *)
Definition truthyOpt (s : option jsString) : bool :=
  match s with Some t => truthy t | None => false end.

(** [String(n)] for a non-negative integer. *)
Definition ofNat (n : nat) : jsString :=
  lit (NilEmpty.string_of_uint (Nat.to_uint n)).

(** [Array.prototype.join]. *)
Fixpoint join (sep : jsString) (l : list jsString) : jsString :=
  match l with
  | [] => []
  | [s] => s
  | s :: rest => s ++ sep ++ join sep rest
  end.

(** The class [\s] of ECMAScript regular expressions, which is also what
    [String.prototype.trim] strips: WhiteSpace and LineTerminator. *)
Definition isWhiteSpace (c : Z) : bool :=
  ((9 <=? c) && (c <=? 13))
  || (c =? 32) || (c =? 160) || (c =? 5760)
  || ((8192 <=? c) && (c <=? 8202))
  || (c =? 8232) || (c =? 8233) || (c =? 8239) || (c =? 8287)
  || (c =? 12288) || (c =? 65279).

Fixpoint trimStart (s : jsString) : jsString :=
  match s with
  | [] => []
  | c :: rest => if isWhiteSpace c then trimStart rest else s
  end.

Definition trimEnd (s : jsString) : jsString := rev (trimStart (rev s)).

Definition trim (s : jsString) : jsString := trimEnd (trimStart s).

Fixpoint startsWith (s prefix : jsString) : bool :=
  match prefix, s with
  | [], _ => true
  | p :: prefix', c :: s' => (c =? p) && startsWith s' prefix'
  | _ :: _, [] => false
  end.

Definition endsWith (s suffix : jsString) : bool :=
  startsWith (rev s) (rev suffix).

(** [String.prototype.substring]: both arguments are clamped to
    [0, length] and swapped when out of order. *)
Definition substring (s : jsString) (a b : Z) : jsString :=
  let len := Z.of_nat (length s) in
  let a' := Z.min (Z.max a 0) len in
  let b' := Z.min (Z.max b 0) len in
  let from := Z.min a' b' in
  let to := Z.max a' b' in
  firstn (Z.to_nat (to - from)) (skipn (Z.to_nat from) s).

(** *** Code points

    A regular expression with the [u] flag reads its input by code
    point: a high surrogate followed by a low surrogate is one code
    point, any other code unit (a lone surrogate too) is one by itself. *)

Definition isHighSurrogate (u : Z) : bool := (55296 <=? u) && (u <=? 56319).
Definition isLowSurrogate (u : Z) : bool := (56320 <=? u) && (u <=? 57343).

Record CodePoint : Type := mkCodePoint
  { cpValue : Z;             (* the scalar the character classes test *)
    cpUnits : jsString }.    (* the one or two code units it occupies *)

Definition single (u : Z) : CodePoint :=
  {| cpValue := u; cpUnits := [u] |}.

Definition surrogatePair (hi lo : Z) : CodePoint :=
  {| cpValue := 65536 + (hi - 55296) * 1024 + (lo - 56320);
     cpUnits := [hi; lo] |}.

Fixpoint codePoints (s : jsString) : list CodePoint :=
  match s with
  | [] => []
  | u :: rest =>
      match rest with
      | [] => [single u]
      | v :: rest' =>
          if isHighSurrogate u && isLowSurrogate v
          then surrogatePair u v :: codePoints rest'
          else single u :: codePoints rest
      end
  end.

(** The substring a run of code points occupies. *)
Definition unitsOf (cs : list CodePoint) : jsString :=
  concat (map cpUnits cs).

End JsString.

Import JsString.

(* ===================================================================== *)
(** ** types.ts *)
(* ===================================================================== *)

Inductive Language : Type :=
| ENGLISH | SPANISH | FRENCH | GERMAN | ITALIAN | PORTUGUESE | HEBREW
| ARABIC | CHINESE | JAPANESE | KOREAN | RUSSIAN | HINDI.

(** The string value of each member of the enum. *)
Definition languageValue (l : Language) : jsString :=
  match l with
  | ENGLISH => lit "English" | SPANISH => lit "Spanish"
  | FRENCH => lit "French" | GERMAN => lit "German"
  | ITALIAN => lit "Italian" | PORTUGUESE => lit "Portuguese"
  | HEBREW => lit "Hebrew" | ARABIC => lit "Arabic"
  | CHINESE => lit "Chinese" | JAPANESE => lit "Japanese"
  | KOREAN => lit "Korean" | RUSSIAN => lit "Russian"
  | HINDI => lit "Hindi"
  end.

Definition Language_eqb (a b : Language) : bool :=
  match a, b with
  | ENGLISH, ENGLISH | SPANISH, SPANISH | FRENCH, FRENCH | GERMAN, GERMAN
  | ITALIAN, ITALIAN | PORTUGUESE, PORTUGUESE | HEBREW, HEBREW
  | ARABIC, ARABIC | CHINESE, CHINESE | JAPANESE, JAPANESE
  | KOREAN, KOREAN | RUSSIAN, RUSSIAN | HINDI, HINDI => true
  | _, _ => false
  end.

(** [ProcessedTextPart.type]. *)
Inductive PartType : Type := word | whitespace | punctuation.

Definition PartType_eqb (a b : PartType) : bool :=
  match a, b with
  | word, word | whitespace, whitespace | punctuation, punctuation => true
  | _, _ => false
  end.

Record ProcessedTextPart : Type := mkPart
  { type : PartType;
    value : jsString;
    originalWord : option jsString;   (* the cleaned word, on words only *)
    id : jsString }.

(** A JavaScript value, as [JSON.parse] and object literals produce them.
    Objects keep their properties in insertion order.  Numbers play no part
    in the code and are kept as integers. *)
Inductive JsValue : Type :=
| VUndefined
| VNull
| VBool (b : bool)
| VNumber (n : Z)
| VString (s : jsString)
| VArray (items : list JsValue)
| VObject (props : list (jsString * JsValue)).

(** [WordDetail] is an interface: at run time a value of that type is
    whatever object the cast [as WordDetail] was applied to. *)
Definition WordDetail : Type := list (jsString * JsValue).

Record SavedWord : Type := mkSavedWord
  { term : jsString;
    sourceLanguage : Language;
    targetLanguage : Language;
    details : WordDetail;
    savedAt : Z }.

(** constants.ts *)
Definition DEFAULT_TARGET_LANGUAGE : Language := ENGLISH.
Definition GEMINI_MODEL_TEXT_TASK : jsString := lit "gemini-2.5-flash".

(* ===================================================================== *)
(** ** The tokenization effect of [App] *)
(* ===================================================================== *)

Module Tokenizer.

(** Which of the three capture groups of [wordSplitRegex] took part. *)
Inductive Group : Type := G1 | G2 | G3.

(** The array [exec] returns: the whole match and the three groups,
    [None] for a group that did not take part ([undefined]). *)
Record RegExpMatch : Type := mkMatch
  { m0 : jsString; m1 : option jsString;
    m2 : option jsString; m3 : option jsString }.

Definition inspect {A} (a : A) : { b : A | a = b } := exist _ a eq_refl.

Section WithUnicodeTables.

(** The Unicode property escapes [\p{L}] and [\p{N}]: membership of a
    code point in a Letter or Number general category.  The table
    belongs to the JavaScript engine. *)
Variable isLetterOrNumber : Z -> bool.

(** [String.prototype.toLowerCase], defined by the Unicode case
    mapping tables of the engine. *)
Variable toLowerCase : jsString -> jsString.

(** The character class of each alternative:
    [[\p{L}\p{N}]], [\s] and [[^\p{L}\p{N}\s]]. *)
Definition inClass (g : Group) (c : CodePoint) : bool :=
  match g with
  | G1 => isLetterOrNumber (cpValue c)
  | G2 => isWhiteSpace (cpValue c)
  | G3 => negb (isLetterOrNumber (cpValue c) || isWhiteSpace (cpValue c))
  end.

(** A greedy [+] over a character class: the longest run of the
    class at the front of the input, and what follows it. *)
Fixpoint plus (g : Group) (input : list CodePoint)
  : list CodePoint * list CodePoint :=
  match input with
  | [] => ([], [])
  | c :: rest =>
      if inClass g c
      then let (run, after) := plus g rest in (c :: run, after)
      else ([], input)
  end.

(** One alternative [(class+)] at the current position. *)
Definition alternative (g : Group) (input : list CodePoint)
  : option (list CodePoint * list CodePoint) :=
  match plus g input with
  | ([], _) => None
  | (c :: run, after) => Some (c :: run, after)
  end.

(** [wordSplitRegex.exec] from [lastIndex], the input given as the code
    points from [lastIndex] on.  The alternatives are tried left to
    right.  The result carries the groups and the input after the
    match (the new [lastIndex]); [None] is [null]. *)
Definition exec (input : list CodePoint)
  : option (Group * list CodePoint * list CodePoint) :=
  match alternative G1 input with
  | Some (run, after) => Some (G1, run, after)
  | None =>
      match alternative G2 input with
      | Some (run, after) => Some (G2, run, after)
      | None =>
          match alternative G3 input with
          | Some (run, after) => Some (G3, run, after)
          | None => None
          end
      end
  end.

Definition matchArray (g : Group) (run : list CodePoint) : RegExpMatch :=
  let v := unitsOf run in
  {| m0 := v;
     m1 := match g with G1 => Some v | _ => None end;
     m2 := match g with G2 => Some v | _ => None end;
     m3 := match g with G3 => Some v | _ => None end |}.

(** The body of the [while] loop: what one match pushes on [parts]. *)
Definition pushMatch (parts : list ProcessedTextPart) (m : RegExpMatch)
  : list ProcessedTextPart :=
  let value := m0 m in
  if truthy value then
    if truthyOpt (m1 m) then
      let cleanedWord := toLowerCase value in
      parts ++ [ {| type := word; value := value;
                    originalWord := Some cleanedWord;
                    id := lit "word-" ++ ofNat (length parts)
                          ++ lit "-" ++ cleanedWord |} ]
    else if truthyOpt (m2 m) then
      parts ++ [ {| type := whitespace; value := value;
                    originalWord := None;
                    id := lit "ws-" ++ ofNat (length parts) |} ]
    else if truthyOpt (m3 m) then
      parts ++ [ {| type := punctuation; value := value;
                    originalWord := None;
                    id := lit "punct-" ++ ofNat (length parts) |} ]
    else parts
  else parts.

Lemma plus_shorter (g : Group) (input run after : list CodePoint) :
  plus g input = (run, after) ->
  (length after + length run = length input)%nat.
Proof.
  revert run after.
  induction input as [|c rest IH]; intros run after H; simpl in H.
  - inversion H. reflexivity.
  - destruct (inClass g c).
    + destruct (plus g rest) as [r a] eqn:E.
      inversion H; subst. simpl. specialize (IH _ _ eq_refl). lia.
    + inversion H; subst. simpl. lia.
Qed.

Lemma alternative_shorter (g : Group) (input run after : list CodePoint) :
  alternative g input = Some (run, after) ->
  (length after < length input)%nat.
Proof.
  unfold alternative. intros H.
  destruct (plus g input) as [r a] eqn:E.
  destruct r as [|c r]; [discriminate|].
  inversion H; subst.
  apply plus_shorter in E. simpl in E. lia.
Qed.

Lemma exec_shorter (input : list CodePoint) g run after :
  exec input = Some (g, run, after) ->
  (length after < length input)%nat.
Proof.
  unfold exec. intros H.
  destruct (alternative G1 input) as [[r a]|] eqn:E1.
  { inversion H; subst. eapply alternative_shorter; eauto. }
  destruct (alternative G2 input) as [[r a]|] eqn:E2.
  { inversion H; subst. eapply alternative_shorter; eauto. }
  destruct (alternative G3 input) as [[r a]|] eqn:E3.
  { inversion H; subst. eapply alternative_shorter; eauto. }
  discriminate.
Qed.

(** [while ((match = currentRegex.exec(inputText)) !== null) { ... }] *)
Equations execLoop (input : list CodePoint) (parts : list ProcessedTextPart)
  : list ProcessedTextPart by wf (length input) lt :=
  execLoop input parts with inspect (exec input) => {
    | exist _ None _ => parts
    | exist _ (Some (g, run, after)) Hexec =>
        execLoop after (pushMatch parts (matchArray g run)) }.
Next Obligation.
  eapply exec_shorter; eauto.
Qed.

(** The effect body: the value it passes to [setProcessedTextParts]. *)
Definition tokenize (inputText : jsString) : list ProcessedTextPart :=
  if negb (truthy inputText) then []
  else execLoop (codePoints inputText) [].

End WithUnicodeTables.

End Tokenizer.

(* ===================================================================== *)
(** ** services/geminiService.ts *)
(* ===================================================================== *)

Module GeminiService.

(** An [Error] object; the handlers only ever read its [message].  What
    is thrown or rejected is taken to be an [Error], as the cast
    [(error as Error)] of the source takes it to be. *)
Record JsError : Type := mkError { message : jsString }.

(** A promise that has settled, or the outcome of a [try] block. *)
Inductive Settled (A : Type) : Type :=
| Fulfilled (a : A)
| Rejected (e : JsError).
Arguments Fulfilled {A} a.
Arguments Rejected {A} e.

Definition bind {A B} (m : Settled A) (k : A -> Settled B) : Settled B :=
  match m with
  | Fulfilled a => k a
  | Rejected e => Rejected e
  end.

Notation "x <- m ;; k" := (bind m (fun x => k))
  (at level 61, m at next level, right associativity).
Notation "' pat <- m ;; k" := (bind m (fun x => match x with pat => k end))
  (at level 61, pat pattern, m at next level, right associativity).

(** [Promise.all] of two promises: the pair once both are fulfilled, a
    rejection as soon as one rejects.  When both reject, the reason kept
    here is the first argument's; no handler tells the two apart. *)
Definition Promise_all {A B} (p : Settled A) (q : Settled B)
  : Settled (A * B) :=
  match p, q with
  | Fulfilled a, Fulfilled b => Fulfilled (a, b)
  | Rejected e, _ => Rejected e
  | _, Rejected e => Rejected e
  end.

(** *** Objects *)

Fixpoint getProperty (o : list (jsString * JsValue)) (k : jsString)
  : JsValue :=
  match o with
  | [] => VUndefined
  | (k', v) :: rest => if eqb k' k then v else getProperty rest k
  end.

(** [k in o], for own properties. *)
Fixpoint hasProperty (o : list (jsString * JsValue)) (k : jsString) : bool :=
  match o with
  | [] => false
  | (k', _) :: rest => eqb k' k || hasProperty rest k
  end.

(** Defining a property: an existing key keeps its place and takes the
    new value, a new key goes last. *)
Fixpoint setProperty (o : list (jsString * JsValue)) (k : jsString)
  (v : JsValue) : list (jsString * JsValue) :=
  match o with
  | [] => [(k, v)]
  | (k', v') :: rest =>
      if eqb k' k then (k, v) :: rest else (k', v') :: setProperty rest k v
  end.

Fixpoint indexed {A} (i : nat) (l : list A) : list (jsString * A) :=
  match l with
  | [] => []
  | x :: rest => (ofNat i, x) :: indexed (S i) rest
  end.

(** What the spread [...v] copies: the own enumerable properties of an
    object, the elements of an array, the code units of a string, and
    nothing for the other values. *)
Definition ownEnumerableProperties (v : JsValue)
  : list (jsString * JsValue) :=
  match v with
  | VObject props => props
  | VArray items => indexed 0 items
  | VString s => indexed 0 (map (fun u => VString [u]) s)
  | _ => []
  end.

(** An object literal evaluates its entries from left to right. *)
Definition objectLiteral (entries : list (jsString * JsValue))
  : list (jsString * JsValue) :=
  fold_left (fun o kv => setProperty o (fst kv) (snd kv)) entries [].

(** *** The provider *)

Inductive SchemaType : Type := STRING | ARRAY_OF_STRING.

Record SchemaProperty : Type := mkProperty
  { propertyName : jsString;
    propertyType : SchemaType;
    description : jsString }.

Record Schema : Type := mkSchema
  { properties : list SchemaProperty;
    required : list jsString }.

Inductive Config : Type :=
| JsonConfig (responseMimeType : jsString) (responseSchema : Schema)
| SpeechConfig (voiceName : jsString).

Record GenerateContentParameters : Type := mkParameters
  { model : jsString;
    contents : jsString;     (* the text of the single part *)
    config : Config }.

Record GenerateContentResponse : Type := mkResponse
  { text : option jsString;
    (* candidates?.[0]?.content?.parts?.[0]?.inlineData?.data *)
    firstInlineData : option jsString }.

(** What the module reaches outside the repository: the environment
    variable, [ai.models.generateContent] of the client library and
    [JSON.parse] ([None] when it throws a [SyntaxError]). *)
Record Runtime : Type := mkRuntime
  { API_KEY : option jsString;
    generateContent :
      GenerateContentParameters -> Settled GenerateContentResponse;
    JSON_parse : jsString -> option JsValue }.

Definition getGeminiClient (rt : Runtime)
  : Settled (GenerateContentParameters -> Settled GenerateContentResponse) :=
  if negb (truthyOpt (API_KEY rt))
  then Rejected
         (mkError (lit "API_KEY is not defined in the environment variables."))
  else Fulfilled (generateContent rt).

Definition nl : jsString := [10].
Definition indent : jsString := lit "    ".

Definition textPrompt (term : jsString) (sourceLanguage targetLanguage : Language)
  : jsString :=
  lit "Provide the following details for the term " ++ dquote ++ term
    ++ dquote ++ lit " in " ++ languageValue sourceLanguage ++ lit ":" ++ nl
  ++ indent ++ lit "1. A concise definition." ++ nl
  ++ indent ++ lit "2. Phonetic pronunciation (if applicable)." ++ nl
  ++ indent ++ lit "3. Three example sentences using the term in "
    ++ languageValue sourceLanguage ++ lit "." ++ nl
  ++ indent ++ lit "4. Its part of speech (if applicable to a phrase, provide the primary type, otherwise for a single word)." ++ nl
  ++ indent ++ lit "5. Two related words or phrases (synonyms or antonyms) in "
    ++ languageValue sourceLanguage ++ lit "." ++ nl
  ++ indent
    ++ (if negb (Language_eqb sourceLanguage targetLanguage)
        then lit "6. A translation of the term to "
               ++ languageValue targetLanguage ++ lit "."
        else [])
    ++ nl
  ++ nl
  ++ indent ++ lit "Format the response as a JSON object strictly adhering to the schema provided.".

Definition quoted (term : jsString) : jsString := dquote ++ term ++ dquote.

Definition textResponseSchema (term : jsString)
  (sourceLanguage targetLanguage : Language) : Schema :=
  {| properties :=
       [ mkProperty (lit "definition") STRING
           (lit "Definition of the term " ++ quoted term ++ lit " in "
              ++ languageValue sourceLanguage ++ lit ".");
         mkProperty (lit "pronunciation") STRING
           (lit "Phonetic pronunciation of " ++ quoted term ++ lit ".");
         mkProperty (lit "exampleSentences") ARRAY_OF_STRING
           (lit "Three example sentences using " ++ quoted term ++ lit " in "
              ++ languageValue sourceLanguage ++ lit ".");
         mkProperty (lit "partOfSpeech") STRING
           (lit "Part of speech for " ++ quoted term ++ lit ".");
         mkProperty (lit "relatedWords") ARRAY_OF_STRING
           (lit "Two related words (synonyms/antonyms) for " ++ quoted term
              ++ lit " in " ++ languageValue sourceLanguage ++ lit ".") ]
       ++ (if negb (Language_eqb sourceLanguage targetLanguage)
           then [ mkProperty (lit "translation") STRING
                    (lit "Translation of " ++ quoted term ++ lit " to "
                       ++ languageValue targetLanguage ++ lit ".") ]
           else []);
     required := [lit "definition"; lit "exampleSentences"] |}.

Definition textRequest (term : jsString)
  (sourceLanguage targetLanguage : Language) : GenerateContentParameters :=
  {| model := GEMINI_MODEL_TEXT_TASK;
     contents := textPrompt term sourceLanguage targetLanguage;
     config := JsonConfig (lit "application/json")
                 (textResponseSchema term sourceLanguage targetLanguage) |}.

Definition audioPrompt (term : jsString) : jsString :=
  lit "Say the term " ++ quoted term ++ lit " clearly.".

Definition audioRequest (term : jsString) : GenerateContentParameters :=
  {| model := lit "gemini-2.5-flash-preview-tts";
     contents := audioPrompt term;
     config := SpeechConfig (lit "Kore") |}.

Definition fenceOpen : jsString := lit "```json" ++ nl.
Definition fenceClose : jsString := nl ++ lit "```".

(** Gemini sometimes wraps JSON in a markdown code block. *)
Definition cleanJson (jsonStr : jsString) : jsString :=
  if startsWith jsonStr fenceOpen && endsWith jsonStr fenceClose
  then substring jsonStr 8 (Z.of_nat (length jsonStr) - 4)
  else jsonStr.

(** [audioBase64 || undefined] *)
Definition orUndefined (audioBase64 : option jsString) : JsValue :=
  match audioBase64 with
  | Some s => if truthy s then VString s else VUndefined
  | None => VUndefined
  end.

(** The [try] block of [getTermDetails]. *)
Definition getTermDetails_try (rt : Runtime) (term : jsString)
  (sourceLanguage targetLanguage : Language) : Settled WordDetail :=
  ai <- getGeminiClient rt ;;
  let textDetailsPromise :=
    ai (textRequest term sourceLanguage targetLanguage) in
  let audioDetailsPromise := ai (audioRequest term) in
  '(textResponse, audioResponse) <-
     Promise_all textDetailsPromise audioDetailsPromise ;;
  rawText <- match text textResponse with
             | Some t => Fulfilled t
             | None => Rejected (mkError (lit "Cannot read properties of undefined (reading 'trim')"))
             end ;;
  let jsonStr := trim rawText in
  let cleanJsonStr := cleanJson jsonStr in
  textWordDetail <- match JSON_parse rt cleanJsonStr with
                    | Some v => Fulfilled v
                    | None => Rejected (mkError (lit "JSON_PARSE_ERROR"))
                    end ;;
  let audioBase64 := firstInlineData audioResponse in
  Fulfilled
    (objectLiteral
       (ownEnumerableProperties textWordDetail
          ++ [(lit "audioBase64", orUndefined audioBase64)])).

(** [getTermDetails]: the [try] block under its [catch]. *)
Definition getTermDetails (rt : Runtime) (term : jsString)
  (sourceLanguage targetLanguage : Language) : Settled (option WordDetail) :=
  match getTermDetails_try rt term sourceLanguage targetLanguage with
  | Fulfilled d => Fulfilled (Some d)
  | Rejected error =>
      if eqb (message error) (lit "JSON_PARSE_ERROR")
      then Fulfilled None
      else Fulfilled None
  end.

End GeminiService.

(* ===================================================================== *)
(** ** App.tsx: the component state and its handlers *)
(* ===================================================================== *)

Module App.

Import GeminiService.

(** A call of [getTermDetails] that has been issued and not yet settled. *)
Record LookupCall : Type := mkCall
  { callTerm : jsString;
    callSourceLang : Language;
    callTargetLang : Language }.

(** The [useState] cells of [App], and what the event loop holds for it:
    the debounce timer (with the [inputText] its closure captured) and the
    asynchronous calls in flight. *)
Record AppState : Type := mkState
  { inputText : jsString;
    detectedSourceLanguage : option Language;
    isDetectingLanguage : bool;
    targetLanguage : Language;
    processedTextParts : list ProcessedTextPart;
    selectedTerm : option jsString;
    wordDetails : option WordDetail;
    isModalOpen : bool;
    isLoading : bool;
    error : option jsString;
    savedWords : list SavedWord;
    debounceTimer : option jsString;
    detectionsInFlight : nat;
    lookupsInFlight : list LookupCall }.

Definition setInputText_ (v : jsString) (s : AppState) : AppState :=
  mkState v (detectedSourceLanguage s) (isDetectingLanguage s)
    (targetLanguage s) (processedTextParts s) (selectedTerm s)
    (wordDetails s) (isModalOpen s) (isLoading s) (error s) (savedWords s)
    (debounceTimer s) (detectionsInFlight s) (lookupsInFlight s).

Definition setDetectedSourceLanguage (v : option Language) (s : AppState)
  : AppState :=
  mkState (inputText s) v (isDetectingLanguage s)
    (targetLanguage s) (processedTextParts s) (selectedTerm s)
    (wordDetails s) (isModalOpen s) (isLoading s) (error s) (savedWords s)
    (debounceTimer s) (detectionsInFlight s) (lookupsInFlight s).

Definition setIsDetectingLanguage (v : bool) (s : AppState) : AppState :=
  mkState (inputText s) (detectedSourceLanguage s) v
    (targetLanguage s) (processedTextParts s) (selectedTerm s)
    (wordDetails s) (isModalOpen s) (isLoading s) (error s) (savedWords s)
    (debounceTimer s) (detectionsInFlight s) (lookupsInFlight s).

Definition setTargetLanguage (v : Language) (s : AppState) : AppState :=
  mkState (inputText s) (detectedSourceLanguage s) (isDetectingLanguage s)
    v (processedTextParts s) (selectedTerm s)
    (wordDetails s) (isModalOpen s) (isLoading s) (error s) (savedWords s)
    (debounceTimer s) (detectionsInFlight s) (lookupsInFlight s).

Definition setProcessedTextParts (v : list ProcessedTextPart) (s : AppState)
  : AppState :=
  mkState (inputText s) (detectedSourceLanguage s) (isDetectingLanguage s)
    (targetLanguage s) v (selectedTerm s)
    (wordDetails s) (isModalOpen s) (isLoading s) (error s) (savedWords s)
    (debounceTimer s) (detectionsInFlight s) (lookupsInFlight s).

Definition setSelectedTerm (v : option jsString) (s : AppState) : AppState :=
  mkState (inputText s) (detectedSourceLanguage s) (isDetectingLanguage s)
    (targetLanguage s) (processedTextParts s) v
    (wordDetails s) (isModalOpen s) (isLoading s) (error s) (savedWords s)
    (debounceTimer s) (detectionsInFlight s) (lookupsInFlight s).

Definition setWordDetails (v : option WordDetail) (s : AppState) : AppState :=
  mkState (inputText s) (detectedSourceLanguage s) (isDetectingLanguage s)
    (targetLanguage s) (processedTextParts s) (selectedTerm s)
    v (isModalOpen s) (isLoading s) (error s) (savedWords s)
    (debounceTimer s) (detectionsInFlight s) (lookupsInFlight s).

Definition setIsModalOpen (v : bool) (s : AppState) : AppState :=
  mkState (inputText s) (detectedSourceLanguage s) (isDetectingLanguage s)
    (targetLanguage s) (processedTextParts s) (selectedTerm s)
    (wordDetails s) v (isLoading s) (error s) (savedWords s)
    (debounceTimer s) (detectionsInFlight s) (lookupsInFlight s).

Definition setIsLoading (v : bool) (s : AppState) : AppState :=
  mkState (inputText s) (detectedSourceLanguage s) (isDetectingLanguage s)
    (targetLanguage s) (processedTextParts s) (selectedTerm s)
    (wordDetails s) (isModalOpen s) v (error s) (savedWords s)
    (debounceTimer s) (detectionsInFlight s) (lookupsInFlight s).

Definition setError (v : option jsString) (s : AppState) : AppState :=
  mkState (inputText s) (detectedSourceLanguage s) (isDetectingLanguage s)
    (targetLanguage s) (processedTextParts s) (selectedTerm s)
    (wordDetails s) (isModalOpen s) (isLoading s) v (savedWords s)
    (debounceTimer s) (detectionsInFlight s) (lookupsInFlight s).

Definition setSavedWords (f : list SavedWord -> list SavedWord) (s : AppState)
  : AppState :=
  mkState (inputText s) (detectedSourceLanguage s) (isDetectingLanguage s)
    (targetLanguage s) (processedTextParts s) (selectedTerm s)
    (wordDetails s) (isModalOpen s) (isLoading s) (error s)
    (f (savedWords s))
    (debounceTimer s) (detectionsInFlight s) (lookupsInFlight s).

Definition setDebounceTimer (v : option jsString) (s : AppState) : AppState :=
  mkState (inputText s) (detectedSourceLanguage s) (isDetectingLanguage s)
    (targetLanguage s) (processedTextParts s) (selectedTerm s)
    (wordDetails s) (isModalOpen s) (isLoading s) (error s) (savedWords s)
    v (detectionsInFlight s) (lookupsInFlight s).

Definition setDetectionsInFlight (v : nat) (s : AppState) : AppState :=
  mkState (inputText s) (detectedSourceLanguage s) (isDetectingLanguage s)
    (targetLanguage s) (processedTextParts s) (selectedTerm s)
    (wordDetails s) (isModalOpen s) (isLoading s) (error s) (savedWords s)
    (debounceTimer s) v (lookupsInFlight s).

Definition setLookupsInFlight (v : list LookupCall) (s : AppState) : AppState :=
  mkState (inputText s) (detectedSourceLanguage s) (isDetectingLanguage s)
    (targetLanguage s) (processedTextParts s) (selectedTerm s)
    (wordDetails s) (isModalOpen s) (isLoading s) (error s) (savedWords s)
    (debounceTimer s) (detectionsInFlight s) v.

(** What [handleMouseUp] reads from the browser: the selection, whether
    its range lies inside the clickable text, and for each end of the range
    the [data-part-index] of the closest enclosing element, if any.  The
    rendered indices are the positions in [processedTextParts]. *)
Record MouseUpContext : Type := mkMouseUp
  { selectionPresent : bool;
    rangeCount : nat;
    isCollapsed : bool;
    rangeInsideClickableText : bool;
    startElement : option nat;
    endElement : option nat }.

(** What [handleMouseUp] does, apart from clearing the browser's
    highlight: nothing, or a lookup of the phrase. *)
Inductive MouseUpAction : Type :=
| RemoveAllRangesOnly
| LookupPhrase (phraseText : jsString).

(** [parseInt(element?.dataset.partIndex || '-1', 10)] *)
Definition partIndexOf (element : option nat) : Z :=
  match element with
  | Some i => Z.of_nat i
  | None => -1
  end.

(** [Array.prototype.slice(start, end)]: a negative argument counts from
    the end, and both are clamped to the array. *)
Definition slice {A} (l : list A) (start final : Z) : list A :=
  let len := Z.of_nat (length l) in
  let k := if start <? 0 then Z.max (len + start) 0 else Z.min start len in
  let e := if final <? 0 then Z.max (len + final) 0 else Z.min final len in
  firstn (Z.to_nat (e - k)) (skipn (Z.to_nat k) l).

Definition isWordPart (p : ProcessedTextPart) : bool :=
  PartType_eqb (type p) word.

(** The decision of [handleMouseUp]. *)
Definition mouseUpAction (processedTextParts : list ProcessedTextPart)
  (ctx : MouseUpContext) : MouseUpAction :=
  if negb (selectionPresent ctx) || (rangeCount ctx =? 0)%nat
     || isCollapsed ctx
  then RemoveAllRangesOnly
  else if negb (rangeInsideClickableText ctx) then RemoveAllRangesOnly
  else
    let startIdx := partIndexOf (startElement ctx) in
    let endIdx := partIndexOf (endElement ctx) in
    if (startIdx =? -1) || (endIdx =? -1) then RemoveAllRangesOnly
    else
      let actualStartIdx := Z.min startIdx endIdx in
      let actualEndIdx := Z.max startIdx endIdx in
      let relevantParts :=
        slice processedTextParts actualStartIdx (actualEndIdx + 1) in
      let selectedWordParts := filter isWordPart relevantParts in
      if (2 <=? length selectedWordParts)%nat
      then LookupPhrase (join (lit " ") (map value selectedWordParts))
      else RemoveAllRangesOnly.

Definition malformedMessage : jsString :=
  lit "The AI could not process this phrase into the requested format. This might happen with very complex or unusual phrases. Please try a simpler phrase or individual words.".

Definition unexpectedMessage : jsString :=
  lit "An unexpected error occurred while fetching term details. Please try again.".

(** [detectedSourceLanguage || Language.ENGLISH] *)
Definition effectiveSourceLanguage (s : AppState) : Language :=
  match detectedSourceLanguage s with
  | Some l => l
  | None => ENGLISH
  end.

Definition sameKey (t : jsString) (l : Language) (sw : SavedWord) : bool :=
  eqb (term sw) t && Language_eqb (sourceLanguage sw) l.

(** [handleTermClick] up to its [await]: the state it sets and the call
    it leaves in flight. *)
Definition handleTermClick (t : jsString) (sourceLang targetLang : Language)
  (s : AppState) : AppState :=
  let s := setSelectedTerm (Some t) s in
  let s := setWordDetails None s in
  let s := setIsModalOpen true s in
  let s := setIsLoading true s in
  let s := setError None s in
  setLookupsInFlight (lookupsInFlight s ++ [mkCall t sourceLang targetLang]) s.

(** [handleTermClick] from its [await] on: the [try], [catch] and
    [finally] blocks, given how [getTermDetails] settled. *)
Definition handleTermClick_resume (r : Settled (option WordDetail))
  (s : AppState) : AppState :=
  let s :=
    match r with
    | Fulfilled (Some details) => setWordDetails (Some details) s
    | Fulfilled None => setError (Some malformedMessage) s
    | Rejected _ => setError (Some unexpectedMessage) s
    end in
  setIsLoading false s.

Definition handleCloseModal (s : AppState) : AppState :=
  let s := setIsModalOpen false s in
  let s := setSelectedTerm None s in
  let s := setWordDetails None s in
  setError None s.

Definition handleSaveWord (now : Z) (s : AppState) : AppState :=
  match selectedTerm s, wordDetails s with
  | Some t, Some d =>
      if truthy t && negb (isLoading s) then
        let isAlreadySaved :=
          existsb (sameKey t (effectiveSourceLanguage s)) (savedWords s) in
        if negb isAlreadySaved then
          let newSavedWord :=
            mkSavedWord t (effectiveSourceLanguage s) (targetLanguage s)
              d now in
          setSavedWords (fun prev => prev ++ [newSavedWord]) s
        else s
      else s
  | _, _ => s
  end.

Definition handleRemoveWord (termToRemove : jsString) (lang : Language)
  (s : AppState) : AppState :=
  setSavedWords (filter (fun sw => negb (sameKey termToRemove lang sw))) s.

Definition isCurrentTermSaved (s : AppState) : bool :=
  match selectedTerm s with
  | Some t =>
      if truthy t
      then existsb (sameKey t (effectiveSourceLanguage s)) (savedWords s)
      else false
  | None => false
  end.

Definition handleMouseUp (ctx : MouseUpContext) (s : AppState) : AppState :=
  match mouseUpAction (processedTextParts s) ctx with
  | LookupPhrase phraseText =>
      handleTermClick phraseText (effectiveSourceLanguage s)
        (targetLanguage s) s
  | RemoveAllRangesOnly => s
  end.

(** The language detection effect: the previous timer is cleared by the
    cleanup, and a new one is set whose callback closes over the
    [inputText] of this render. *)
Definition detectionEffect (s : AppState) : AppState :=
  setDebounceTimer (Some (inputText s)) s.

(** [autoDetect] up to its [await], run by the timer. *)
Definition autoDetect (captured : jsString) (s : AppState) : AppState :=
  if truthy (trim captured)
  then setDetectionsInFlight (S (detectionsInFlight s))
         (setIsDetectingLanguage true s)
  else setDetectedSourceLanguage None s.

(** [autoDetect] from its [await] on. *)
Definition autoDetect_resume (lang : option Language) (s : AppState)
  : AppState :=
  setIsDetectingLanguage false (setDetectedSourceLanguage lang s).

(** The rendered conditions under which the handlers can be reached. *)
Definition clickableTextShown (s : AppState) : bool :=
  truthy (inputText s)
  && (0 <? length (processedTextParts s))%nat.

Definition detailCardShown (s : AppState) : bool :=
  isModalOpen s
  && match wordDetails s with Some _ => true | None => false end
  && negb (isLoading s)
  && negb (truthyOpt (error s)).

Fixpoint removeNth {A} (k : nat) (l : list A) : list A :=
  match l, k with
  | [], _ => []
  | _ :: rest, O => rest
  | x :: rest, S k' => x :: removeNth k' rest
  end.

(** What the event loop delivers to the component. *)
Inductive Event : Type :=
| TextAreaChange (newValue : jsString)
| ClearTextClick
| TargetLanguageChange (l : Language)
| WordClick (index : nat)
| MouseUp (ctx : MouseUpContext)
| SavedTermClick (k : nat)
| RemoveClick (k : nat)
| SaveClick (now : Z)
| ModalClose
| DebounceTimeout
| DetectLanguageSettled (lang : option Language)
| GetTermDetailsSettled (k : nat).

Section WithRuntime.

Variable isLetterOrNumber : Z -> bool.
Variable toLowerCase : jsString -> jsString.
Variable rt : Runtime.

(** The tokenization effect. *)
Definition tokenizationEffect (s : AppState) : AppState :=
  if negb (truthy (inputText s))
  then setDetectedSourceLanguage None (setProcessedTextParts [] s)
  else setProcessedTextParts
         (Tokenizer.tokenize isLetterOrNumber toLowerCase (inputText s)) s.

(** [setInputText] followed by the render it causes: both effects depend
    on [inputText] and run again when, and only when, it has changed. *)
Definition setInputText (v : jsString) (s : AppState) : AppState :=
  if eqb v (inputText s) then s
  else detectionEffect (tokenizationEffect (setInputText_ v s)).

Definition clearInput (s : AppState) : AppState :=
  let s := setInputText [] s in
  let s := setProcessedTextParts [] s in
  let s := setSelectedTerm None s in
  let s := setWordDetails None s in
  let s := setIsModalOpen false s in
  let s := setIsLoading false s in
  let s := setError None s in
  let s := setDetectedSourceLanguage None s in
  setIsDetectingLanguage false s.

(** The state after the first render and its effects. *)
Definition initialState : AppState :=
  detectionEffect
    (tokenizationEffect
       {| inputText := [];
          detectedSourceLanguage := None;
          isDetectingLanguage := false;
          targetLanguage := DEFAULT_TARGET_LANGUAGE;
          processedTextParts := [];
          selectedTerm := None;
          wordDetails := None;
          isModalOpen := false;
          isLoading := false;
          error := None;
          savedWords := [];
          debounceTimer := None;
          detectionsInFlight := 0%nat;
          lookupsInFlight := [] |}).

(** One turn of the event loop.  An event that cannot occur in the state
    (a click on something not rendered, a settlement with nothing in
    flight) leaves it as it is.  Each handler runs on the state the
    previous event committed: React renders again between two events.  A
    call of [getTermDetails] settles as [rt] makes it settle. *)
Definition step (s : AppState) (ev : Event) : AppState :=
  match ev with
  | TextAreaChange v => setInputText v s
  | ClearTextClick => clearInput s
  | TargetLanguageChange l => setTargetLanguage l s
  | WordClick index =>
      if clickableTextShown s then
        match nth_error (processedTextParts s) index with
        | Some part =>
            match type part, originalWord part with
            | word, Some w =>
                handleTermClick w (effectiveSourceLanguage s)
                  (targetLanguage s) s
            | _, _ => s
            end
        | None => s
        end
      else s
  | MouseUp ctx => if clickableTextShown s then handleMouseUp ctx s else s
  | SavedTermClick k =>
      match nth_error (savedWords s) k with
      | Some (mkSavedWord t sl tl _ _) => handleTermClick t sl tl s
      | None => s
      end
  | RemoveClick k =>
      match nth_error (savedWords s) k with
      | Some sw => handleRemoveWord (term sw) (sourceLanguage sw) s
      | None => s
      end
  | SaveClick now =>
      if detailCardShown s && negb (isCurrentTermSaved s)
      then handleSaveWord now s
      else s
  | ModalClose => if isModalOpen s then handleCloseModal s else s
  | DebounceTimeout =>
      match debounceTimer s with
      | Some captured => autoDetect captured (setDebounceTimer None s)
      | None => s
      end
  | DetectLanguageSettled lang =>
      match detectionsInFlight s with
      | S n => autoDetect_resume lang (setDetectionsInFlight n s)
      | O => s
      end
  | GetTermDetailsSettled k =>
      match nth_error (lookupsInFlight s) k with
      | Some call =>
          handleTermClick_resume
            (getTermDetails rt (callTerm call) (callSourceLang call)
               (callTargetLang call))
            (setLookupsInFlight (removeNth k (lookupsInFlight s)) s)
      | None => s
      end
  end.

Definition run (evs : list Event) (s : AppState) : AppState :=
  fold_left step evs s.

Definition reachable (s : AppState) : Prop :=
  exists evs, run evs initialState = s.

End WithRuntime.

End App.

(* ===================================================================== *)
(** ** components/SavedWordsList.tsx *)
(* ===================================================================== *)

Module SavedWordsList.


End SavedWordsList.

(* ===================================================================== *)
(** ** services/geminiService.ts: detectLanguage *)
(* ===================================================================== *)

Module Detection.

Import GeminiService.

Definition prompt (text : jsString) : jsString :=
  lit "Detect the language of the following text: `" ++ text
  ++ lit "`. Respond with only the name of the language (e.g., 'English', 'Spanish', 'French', 'German', 'Italian', 'Portuguese', 'Hebrew', 'Arabic', 'Chinese', 'Japanese', 'Korean', 'Russian', 'Hindi').".

Definition responseSchema : Schema :=
  {| properties :=
       [ mkProperty (lit "language") STRING
           (lit "The detected language name.") ];
     required := [lit "language"] |}.

Definition request (text : jsString) : GenerateContentParameters :=
  {| model := GEMINI_MODEL_TEXT_TASK;
     contents := prompt text;
     config := JsonConfig (lit "application/json") responseSchema |}.

(** The own properties of the object literal [languageMap]. *)
Definition languageMap : list (jsString * Language) :=
  [ (lit "english", ENGLISH); (lit "spanish", SPANISH);
    (lit "french", FRENCH); (lit "german", GERMAN);
    (lit "italian", ITALIAN); (lit "portuguese", PORTUGUESE);
    (lit "hebrew", HEBREW); (lit "arabic", ARABIC);
    (lit "chinese", CHINESE); (lit "japanese", JAPANESE);
    (lit "korean", KOREAN); (lit "russian", RUSSIAN);
    (lit "hindi", HINDI) ].

(** What an object literal inherits from [Object.prototype]: a lookup
    by one of these names finds a function (or, for [__proto__], the
    prototype object), all of them truthy. *)
Definition objectPrototypeMembers : list jsString :=
  [ lit "constructor"; lit "__defineGetter__"; lit "__defineSetter__";
    lit "hasOwnProperty"; lit "__lookupGetter__"; lit "__lookupSetter__";
    lit "isPrototypeOf"; lit "propertyIsEnumerable"; lit "toString";
    lit "valueOf"; lit "__proto__"; lit "toLocaleString" ].

(** What [detectLanguage] resolves to when not to [null]: a member of
    the enum, or, the return type notwithstanding, what the map
    inherits under the name. *)
Inductive Detected : Type :=
| OfEnum (l : Language)
| Inherited (name : jsString).

Fixpoint ownLanguage (map : list (jsString * Language)) (name : jsString)
  : option Language :=
  match map with
  | [] => None
  | (k, l) :: rest => if eqb k name then Some l else ownLanguage rest name
  end.

(** [languageMap[detectedLangName] || null] *)
Definition lookupLanguage (detectedLangName : jsString) : option Detected :=
  match ownLanguage languageMap detectedLangName with
  | Some l => Some (OfEnum l)
  | None =>
      if existsb (eqb detectedLangName) objectPrototypeMembers
      then Some (Inherited detectedLangName)
      else None
  end.

Definition typeError (msg : string) : JsError := mkError (lit msg).

(** [parsedResponse.language]: reading a property of [null] throws, and
    only an object can have the property. *)
Definition languageOf (parsedResponse : JsValue) : Settled JsValue :=
  match parsedResponse with
  | VNull | VUndefined =>
      Rejected (typeError "Cannot read properties of null (reading 'language')")
  | VObject props => Fulfilled (getProperty props (lit "language"))
  | _ => Fulfilled VUndefined
  end.

Section WithToLowerCase.

Variable toLowerCase : jsString -> jsString.

(** [v.toLowerCase()]: only a string has the method. *)
Definition callToLowerCase (v : JsValue) : Settled jsString :=
  match v with
  | VString s => Fulfilled (toLowerCase s)
  | _ => Rejected (typeError "toLowerCase is not a function")
  end.

(** The [try] block of [detectLanguage]. *)
Definition detectLanguage_try (rt : Runtime) (text : jsString)
  : Settled (option Detected) :=
  ai <- getGeminiClient rt ;;
  response <- ai (request text) ;;
  rawText <- match GeminiService.text response with
             | Some t => Fulfilled t
             | None => Rejected (typeError "Cannot read properties of undefined (reading 'trim')")
             end ;;
  let jsonStr := trim rawText in
  let cleanJsonStr := cleanJson jsonStr in
  parsedResponse <- match JSON_parse rt cleanJsonStr with
                    | Some v => Fulfilled v
                    | None => Rejected (mkError (lit "Unexpected token"))
                    end ;;
  language <- languageOf parsedResponse ;;
  detectedLangName <- callToLowerCase language ;;
  Fulfilled (lookupLanguage detectedLangName).

(** [detectLanguage]: the [try] block under its [catch]. *)
Definition detectLanguage (rt : Runtime) (text : jsString)
  : Settled (option Detected) :=
  match detectLanguage_try rt text with
  | Fulfilled r => Fulfilled r
  | Rejected _ => Fulfilled None
  end.

End WithToLowerCase.

End Detection.

(* ===================================================================== *)
(** ** services/geminiService.ts: decode and decodeAudioData *)
(* ===================================================================== *)

Module AudioUtils.

Import GeminiService.

(** An element of a [Float32Array].  The only numbers the code stores
    are sixteen-bit integers divided by 32768, which single precision
    holds exactly; such a number is kept by its numerator. *)
Inductive Float : Type :=
| Finite (numerator : Z)      (* the number [numerator / 32768] *)
| NaN.

(** What the functions reach in the browser: [atob] (which throws on
    text that is not base64), and whether [createBuffer] accepts a number
    of channels, a length in frames and a sample rate (it throws a
    [NotSupportedError] otherwise; no implementation accepts more than a
    few dozen channels). *)
Record Host : Type := mkHost
  { atob : jsString -> Settled jsString;
    createBufferAccepts : nat -> nat -> Z -> bool }.

(** A [Uint8Array] is a view: [byteLength] bytes from [byteOffset] on of
    an [ArrayBuffer], [buffer], which it may share with other views. *)
Record Uint8Array : Type := mkUint8Array
  { buffer : list Z;
    byteOffset : nat;
    byteLength : nat }.

(** The bytes the view shows. *)
Definition elements (a : Uint8Array) : list Z :=
  firstn (byteLength a) (skipn (byteOffset a) (buffer a)).

(** The view shows the whole of its buffer. *)
Definition spansBuffer (a : Uint8Array) : bool :=
  (byteOffset a =? 0)%nat && (byteLength a =? length (buffer a))%nat.

(** Storing a number in a [Uint8Array] keeps it modulo 256. *)
Definition toUint8 (n : Z) : Z := n mod 256.

(** [decode]: a new array of [len] bytes on a buffer of its own, one byte
    per character of the binary string. *)
Definition decode (host : Host) (base64 : jsString) : Settled Uint8Array :=
  binaryString <- atob host base64 ;;
  let len := length binaryString in
  Fulfilled (mkUint8Array (map toUint8 binaryString) 0 len).

(** Two bytes read as a signed sixteen-bit integer, low byte first. *)
Definition int16Of (lo hi : Z) : Z :=
  let u := lo + 256 * hi in
  if u <? 32768 then u else u - 65536.

Fixpoint int16Elements (bytes : list Z) : list Z :=
  match bytes with
  | lo :: hi :: rest => int16Of lo hi :: int16Elements rest
  | _ => []
  end.

(** [new Int16Array(arrayBuffer)]: a view of the whole buffer, and a
    [RangeError] unless its number of bytes is even. *)
Definition newInt16Array (arrayBuffer : list Z) : Settled (list Z) :=
  if Nat.even (length arrayBuffer) then Fulfilled (int16Elements arrayBuffer)
  else Rejected
         (mkError (lit "byte length of Int16Array should be a multiple of 2")).

(** [array[i] = x] on a typed array: nothing happens out of range. *)
Fixpoint setAt {A} (l : list A) (i : nat) (x : A) : list A :=
  match l, i with
  | [], _ => []
  | _ :: rest, O => x :: rest
  | y :: rest, S i' => y :: setAt rest i' x
  end.

(** [dataInt16[index] / 32768.0]: reading out of range gives [undefined],
    and the quotient is then [NaN]. *)
Definition sampleAt (dataInt16 : list Z) (index : nat) : Float :=
  match nth_error dataInt16 index with
  | Some n => Finite n
  | None => NaN
  end.

(** The values [i] takes in [for (let i = 0; i < frameCount; i++)],
    where [frameCount] is the quotient [length / numChannels] as a number,
    whole or not: those with [i * numChannels < length]. *)
Definition frameIndices (length numChannels : nat) : list nat :=
  filter (fun i => i * numChannels <? length)%nat (seq 0 length).

(** The length [createBuffer] is given: [frameCount] converted to an
    unsigned long, that is truncated and taken modulo [2^32]; the quotient
    by zero is infinite or not a number, and converts to zero. *)
Definition bufferLength (length numChannels : nat) : nat :=
  match numChannels with
  | O => O
  | S _ => N.to_nat (N.of_nat (length / numChannels) mod 2 ^ 32)%N
  end.

(** The inner loop, on the data of one channel. *)
Definition fillChannel (dataInt16 : list Z) (numChannels channel : nat)
  (channelData : list Float) : list Float :=
  fold_left
    (fun channelData i =>
       setAt channelData i (sampleAt dataInt16 (i * numChannels + channel)))
    (frameIndices (length dataInt16) numChannels)
    channelData.

(** [decodeAudioData], the audio buffer given as the data of its
    channels.  The samples are read from [data.buffer], the buffer under
    [data], whatever part of it [data] shows. *)
Definition decodeAudioData (host : Host) (data : Uint8Array) (sampleRate : Z)
  (numChannels : nat) : Settled (list (list Float)) :=
  dataInt16 <- newInt16Array (buffer data) ;;
  let frames := bufferLength (length dataInt16) numChannels in
  if createBufferAccepts host numChannels frames sampleRate then
    let buffer := repeat (repeat (Finite 0) frames) numChannels in
    Fulfilled
      (fold_left
         (fun buffer channel =>
            setAt buffer channel
              (fillChannel dataInt16 numChannels channel
                 (nth channel buffer [])))
         (seq 0 numChannels) buffer)
  else Rejected (mkError (lit "NotSupportedError")).

End AudioUtils.

(* ===================================================================== *)
(** ** Notions of the specification, and sample data *)
(* ===================================================================== *)

(** The result type the specification gives its selection resolver.  The
    source has no such type: it is here to compare [App.mouseUpAction]
    with. *)
Inductive PhraseResolution : Type :=
| NoSelection
| NonWordSelection
| SingleWord (part : ProcessedTextPart)
| Phrase (orderedWordParts : list ProcessedTextPart).

(** The resolver in the specification's words: a span is two part
    indices, [None] for an end that maps to no part; the span is put in
    order, the parts from [start] to [end] inclusive are taken, the words
    among them are kept, and their number decides. *)
Definition resolve_spec (span : option nat * option nat)
  (parts : list ProcessedTextPart) : PhraseResolution :=
  match span with
  | (Some startIndex, Some endIndex) =>
      let start := Nat.min startIndex endIndex in
      let end_ := Nat.max startIndex endIndex in
      let inside := firstn (end_ - start + 1) (skipn start parts) in
      match filter App.isWordPart inside with
      | [] => NonWordSelection
      | [p] => SingleWord p
      | ws => Phrase ws
      end
  | _ => NoSelection
  end.

(** White space as the specification names it, Unicode's: the code
    points with the property White_Space.  The source has no such test:
    it is here to compare [isWhiteSpace] with. *)
Definition isUnicodeWhiteSpace (c : Z) : bool :=
  ((9 <=? c) && (c <=? 13))
  || (c =? 32) || (c =? 133) || (c =? 160) || (c =? 5760)
  || ((8192 <=? c) && (c <=? 8202))
  || (c =? 8232) || (c =? 8233) || (c =? 8239) || (c =? 8287)
  || (c =? 12288).

(** The kind the code gives a code point: letters and numbers make
    words, the class [\s] makes white space, the rest punctuation. *)
Definition kindOf (isLetterOrNumber : Z -> bool) (c : CodePoint) : PartType :=
  if isLetterOrNumber (cpValue c) then word
  else if isWhiteSpace (cpValue c) then whitespace
  else punctuation.

Definition typeOfGroup (g : Tokenizer.Group) : PartType :=
  match g with
  | Tokenizer.G1 => word
  | Tokenizer.G2 => whitespace
  | Tokenizer.G3 => punctuation
  end.

(** No two neighbours of a list are related by [R]. *)
Fixpoint neighboursDiffer {A} (R : A -> A -> bool) (l : list A) : bool :=
  match l with
  | [] => true
  | x :: rest =>
      match rest with
      | [] => true
      | y :: _ => negb (R x y) && neighboursDiffer R rest
      end
  end.

(** The kind of a run of code points is the kind of its first one. *)
Definition runKind (isLetterOrNumber : Z -> bool) (run : list CodePoint)
  : PartType :=
  match run with
  | c :: _ => kindOf isLetterOrNumber c
  | [] => punctuation
  end.

(** A non-empty run of code points of one kind. *)
Definition homogeneous (isLetterOrNumber : Z -> bool) (run : list CodePoint)
  : Prop :=
  run <> []
  /\ Forall (fun c => kindOf isLetterOrNumber c = runKind isLetterOrNumber run)
       run.

Definition sameKind (isLetterOrNumber : Z -> bool) (r1 r2 : list CodePoint)
  : bool :=
  PartType_eqb (runKind isLetterOrNumber r1) (runKind isLetterOrNumber r2).

(** The lookup key the specification gives a word part. *)
Definition normalizedKey (isLetterOrNumber : Z -> bool)
  (toLowerCase : jsString -> jsString) (run : list CodePoint)
  : option jsString :=
  match runKind isLetterOrNumber run with
  | word => Some (toLowerCase (unitsOf run))
  | _ => None
  end.

(** A selection [handleMouseUp] goes on to resolve: one non-collapsed
    range inside the clickable text. *)
Definition selectionUsable (ctx : App.MouseUpContext) : bool :=
  App.selectionPresent ctx
  && negb (App.rangeCount ctx =? 0)%nat
  && negb (App.isCollapsed ctx)
  && App.rangeInsideClickableText ctx.

(** The browser context of a usable selection whose ends map to the
    given parts. *)
Definition spanContext (startElement endElement : option nat)
  : App.MouseUpContext :=
  App.mkMouseUp true 1 false true startElement endElement.

(** What the caller of the specification's resolver does in the source
    with each resolution: only a phrase is looked up. *)
Definition actionOfResolution (r : PhraseResolution) : App.MouseUpAction :=
  match r with
  | Phrase ws => App.LookupPhrase (join (lit " ") (map value ws))
  | _ => App.RemoveAllRangesOnly
  end.

(** The merge at the end of [getTermDetails]. *)
Definition mergeAudio (textWordDetail : JsValue) (audioBase64 : option jsString)
  : WordDetail :=
  GeminiService.objectLiteral
    (GeminiService.ownEnumerableProperties textWordDetail
       ++ [(lit "audioBase64", GeminiService.orUndefined audioBase64)]).

(** No key occurs twice, as in every object. *)
Fixpoint distinctKeys (o : list (jsString * JsValue)) : bool :=
  match o with
  | [] => true
  | (k, _) :: rest =>
      negb (GeminiService.hasProperty rest k) && distinctKeys rest
  end.

(** A payload that has only properties the schema names. *)
Definition conformsTo (schema : GeminiService.Schema) (payload : JsValue)
  : Prop :=
  forall k,
    GeminiService.hasProperty
      (GeminiService.ownEnumerableProperties payload) k = true ->
    existsb (fun p => eqb (GeminiService.propertyName p) k)
      (GeminiService.properties schema) = true.

(** The number of saved entries under a key. *)
Definition keyCount (t : jsString) (l : Language) (saved : list SavedWord)
  : nat :=
  length (filter (App.sameKey t l) saved).

(** At most one saved entry per term and source language. *)
Definition uniqueKeys (saved : list SavedWord) : Prop :=
  forall t l, (keyCount t l saved <= 1)%nat.

(** While the indicator is on, a detection call is in flight. *)
Definition detectingMeansInFlight (s : App.AppState) : Prop :=
  App.isDetectingLanguage s = true -> (0 < App.detectionsInFlight s)%nat.

(** The detection indicator and the detection calls in flight are the
    same in both states. *)
Definition sameDetection (s s' : App.AppState) : Prop :=
  App.isDetectingLanguage s' = App.isDetectingLanguage s
  /\ App.detectionsInFlight s' = App.detectionsInFlight s.

(** The letters and digits of ASCII: [\p{L}] and [\p{N}] below 128. *)
Definition asciiLetterOrDigit (c : Z) : bool :=
  ((48 <=? c) && (c <=? 57))
  || ((65 <=? c) && (c <=? 90))
  || ((97 <=? c) && (c <=? 122)).

(** [toLowerCase] on ASCII. *)
Definition asciiToLowerCase (s : jsString) : jsString :=
  map (fun c => if (65 <=? c) && (c <=? 90) then c + 32 else c) s.

(** The parts of ["the quick fox"]: the, space, quick, space, fox. *)
Definition theQuickFox : list ProcessedTextPart :=
  Eval vm_compute in
    Tokenizer.tokenize asciiLetterOrDigit asciiToLowerCase
      (lit "the quick fox").

Definition partThe : ProcessedTextPart :=
  {| type := word; value := lit "the"; originalWord := Some (lit "the");
     id := lit "word-0-the" |}.

(** A provider that settles the text request and the audio request as
    given. *)
Definition providerOf
  (textOutcome audioOutcome :
     GeminiService.Settled GeminiService.GenerateContentResponse)
  (p : GeminiService.GenerateContentParameters)
  : GeminiService.Settled GeminiService.GenerateContentResponse :=
  match GeminiService.config p with
  | GeminiService.JsonConfig _ _ => textOutcome
  | GeminiService.SpeechConfig _ => audioOutcome
  end.

Definition jsonField (k v : jsString) : jsString :=
  dquote ++ k ++ dquote ++ lit ":" ++ v.

Definition jsonString (s : jsString) : jsString := dquote ++ s ++ dquote.

(** The text
    [{"definition":"hello","exampleSentences":["hola, amigo"]}] *)
Definition holaText : jsString :=
  lit "{" ++ jsonField (lit "definition") (jsonString (lit "hello"))
  ++ lit "," ++ jsonField (lit "exampleSentences")
                  (lit "[" ++ jsonString (lit "hola, amigo") ++ lit "]")
  ++ lit "}".

Definition holaValue : JsValue :=
  VObject [ (lit "definition", VString (lit "hello"));
            (lit "exampleSentences", VArray [VString (lit "hola, amigo")]) ].

(** The text
    [{"definition":"goodbye","exampleSentences":["adios, amigo"],
      "translation":"goodbye"}], on one line. *)
Definition adiosText : jsString :=
  lit "{" ++ jsonField (lit "definition") (jsonString (lit "goodbye"))
  ++ lit "," ++ jsonField (lit "exampleSentences")
                  (lit "[" ++ jsonString (lit "adios, amigo") ++ lit "]")
  ++ lit "," ++ jsonField (lit "translation") (jsonString (lit "goodbye"))
  ++ lit "}".

Definition adiosValue : JsValue :=
  VObject [ (lit "definition", VString (lit "goodbye"));
            (lit "exampleSentences", VArray [VString (lit "adios, amigo")]);
            (lit "translation", VString (lit "goodbye")) ].

(** [JSON.parse] on the texts the sample runs give it: the two objects
    above, and the empty object.  Elsewhere it is taken to throw. *)
Definition sampleParse (s : jsString) : option JsValue :=
  if eqb s holaText then Some holaValue
  else if eqb s adiosText then Some adiosValue
  else if eqb s (lit "{}") then Some (VObject [])
  else None.

Definition textResponse (t : jsString)
  : GeminiService.Settled GeminiService.GenerateContentResponse :=
  GeminiService.Fulfilled
    {| GeminiService.text := Some t; GeminiService.firstInlineData := None |}.

Definition audioResponse (data : option jsString)
  : GeminiService.Settled GeminiService.GenerateContentResponse :=
  GeminiService.Fulfilled
    {| GeminiService.text := None; GeminiService.firstInlineData := data |}.

Definition sampleRuntime
  (textOutcome audioOutcome :
     GeminiService.Settled GeminiService.GenerateContentResponse)
  : GeminiService.Runtime :=
  {| GeminiService.API_KEY := Some (lit "key");
     GeminiService.generateContent := providerOf textOutcome audioOutcome;
     GeminiService.JSON_parse := sampleParse |}.

(** A provider that knows two words: it answers the text request for
    [hola] with [holaText] and any other text request with [adiosText], and
    returns no audio. *)
Definition dictionaryRuntime : GeminiService.Runtime :=
  {| GeminiService.API_KEY := Some (lit "key");
     GeminiService.generateContent :=
       fun p =>
         match GeminiService.config p with
         | GeminiService.JsonConfig _ _ =>
             if eqb (GeminiService.contents p)
                  (GeminiService.textPrompt (lit "hola") ENGLISH ENGLISH)
             then textResponse holaText
             else textResponse adiosText
         | GeminiService.SpeechConfig _ => audioResponse None
         end;
     GeminiService.JSON_parse := sampleParse |}.

(** The component after the given events, on the ASCII tables. *)
Definition sampleRun (rt : GeminiService.Runtime) (evs : list App.Event)
  : App.AppState :=
  App.run asciiLetterOrDigit asciiToLowerCase rt evs
    (App.initialState asciiLetterOrDigit asciiToLowerCase).

Definition networkError : GeminiService.JsError :=
  GeminiService.mkError (lit "Failed to fetch").

(* ===================================================================== *)
(** ** Notions of the further properties *)
(* ===================================================================== *)

(** The same selection dragged the other way. *)
Definition reverseSelection (ctx : App.MouseUpContext) : App.MouseUpContext :=
  App.mkMouseUp (App.selectionPresent ctx) (App.rangeCount ctx)
    (App.isCollapsed ctx) (App.rangeInsideClickableText ctx)
    (App.endElement ctx) (App.startElement ctx).

Section TransitionSystem.

Variable isLetterOrNumber : Z -> bool.
Variable toLowerCase : jsString -> jsString.
Variable rt : GeminiService.Runtime.

(** What one event can do to the state: nothing, or one of the handlers
    in a state where it can run. *)
Inductive Transition (s : App.AppState) : App.AppState -> Prop :=
| T_none : Transition s s
| T_setInputText v :
    Transition s (App.setInputText isLetterOrNumber toLowerCase v s)
| T_clearInput :
    Transition s (App.clearInput isLetterOrNumber toLowerCase s)
| T_setTargetLanguage l : Transition s (App.setTargetLanguage l s)
| T_handleTermClick t sl tl : Transition s (App.handleTermClick t sl tl s)
| T_handleRemoveWord t l : Transition s (App.handleRemoveWord t l s)
| T_handleSaveWord now : Transition s (App.handleSaveWord now s)
| T_handleCloseModal : Transition s (App.handleCloseModal s)
| T_autoDetect captured :
    App.debounceTimer s = Some captured ->
    Transition s (App.autoDetect captured (App.setDebounceTimer None s))
| T_autoDetect_resume n lang :
    App.detectionsInFlight s = S n ->
    Transition s (App.autoDetect_resume lang (App.setDetectionsInFlight n s))
| T_handleTermClick_resume k call :
    nth_error (App.lookupsInFlight s) k = Some call ->
    Transition s
      (App.handleTermClick_resume
         (GeminiService.getTermDetails rt (App.callTerm call)
            (App.callSourceLang call) (App.callTargetLang call))
         (App.setLookupsInFlight (App.removeNth k (App.lookupsInFlight s)) s)).

(** The parts shown are the parts of the input text. *)
Definition partsInSync (s : App.AppState) : Prop :=
  App.processedTextParts s = Tokenizer.tokenize isLetterOrNumber toLowerCase (App.inputText s).

(** A pending timer closes over the current input text. *)
Definition timerIsCurrent (s : App.AppState) : Prop :=
  forall captured,
    App.debounceTimer s = Some captured -> captured = App.inputText s.

(** The loading indicator is on only while a lookup is in flight. *)
Definition loadingMeansInFlight (s : App.AppState) : Prop :=
  App.isLoading s = true -> App.lookupsInFlight s <> [].

(** The dialog is open exactly when a term is selected. *)
Definition modalMeansSelected (s : App.AppState) : Prop :=
  App.isModalOpen s = true <-> App.selectedTerm s <> None.

End TransitionSystem.

(** The code unit of the dash in a React key and in the id of a part. *)
Definition dash : Z := 45.

(** The id of a part made at position [n]: a prefix that tells the
    type, the position in decimal, and for a word a dash and the cleaned
    word. *)
Definition idAtPosition (n : nat) (i : jsString) : Prop :=
  (exists w, i = lit "word-" ++ ofNat n ++ lit "-" ++ w)
  \/ i = lit "ws-" ++ ofNat n
  \/ i = lit "punct-" ++ ofNat n.

(** Every part of the list has the id of its position. *)
Definition idsByPosition (parts : list ProcessedTextPart) : Prop :=
  forall k p, nth_error parts k = Some p -> idAtPosition k (id p).

(** A part as the loop body makes them: not empty, and with the cleaned
    word exactly when it is a word. *)
Definition wellFormedPart (toLowerCase : jsString -> jsString)
  (p : ProcessedTextPart) : Prop :=
  value p <> []
  /\ match type p with
     | word => originalWord p = Some (toLowerCase (value p))
     | _ => originalWord p = None
     end.

(** The text [{"language":"name"}]. *)
Definition languageJson (name : jsString) : jsString :=
  lit "{" ++ jsonField (lit "language") (jsonString name) ++ lit "}".

(** A runtime whose provider answers every request with the language
    [name]; [JSON.parse] is given on that answer, for a [name] that needs
    no escaping. *)
Definition detectionRuntime (name : jsString) : GeminiService.Runtime :=
  {| GeminiService.API_KEY := Some (lit "key");
     GeminiService.generateContent :=
       fun _ => textResponse (languageJson name);
     GeminiService.JSON_parse :=
       fun s => if eqb s (languageJson name)
                then Some (VObject [(lit "language", VString name)])
                else None |}.

(** The [language] property of a parsed response, [undefined] when it
    has none. *)
Definition languageField (parsedResponse : JsValue) : JsValue :=
  match parsedResponse with
  | VObject props => GeminiService.getProperty props (lit "language")
  | _ => VUndefined
  end.

Definition isCapital (c : Z) : bool := (65 <=? c) && (c <=? 90).

(** Sixteen-bit samples as bytes, low byte first: -32768, 32767, 1
    and -1; and the same bytes in base64. *)
Definition samplePcm : list Z := [0; 128; 255; 127; 1; 0; 255; 255].

Definition sampleBase64 : jsString := lit "AID/fwEA//8=".

(** The array [decode] makes of [samplePcm]. *)
Definition sampleArray : AudioUtils.Uint8Array :=
  AudioUtils.mkUint8Array samplePcm 0 8.

(** A view of the four bytes in the middle of a buffer of eight: it shows
    the samples 1 and 2, its buffer holds 2313, 1, 2 and 2313. *)
Definition sampleView : AudioUtils.Uint8Array :=
  AudioUtils.mkUint8Array [9; 9; 1; 0; 2; 0; 9; 9] 2 4.

(** A browser for the audio functions: [atob] knows the one text
    [sampleBase64]; [createBuffer] accepts what the Web Audio API asks
    every implementation to accept, one to thirty-two channels, at least
    one frame, and a rate from 8000 to 96000. *)
Definition sampleHost : AudioUtils.Host :=
  {| AudioUtils.atob := fun s =>
       if eqb s sampleBase64 then GeminiService.Fulfilled samplePcm
       else GeminiService.Rejected
              (GeminiService.mkError (lit "InvalidCharacterError"));
     AudioUtils.createBufferAccepts := fun numberOfChannels frames sampleRate =>
       (1 <=? numberOfChannels)%nat && (numberOfChannels <=? 32)%nat
       && (1 <=? frames)%nat
       && (8000 <=? sampleRate) && (sampleRate <=? 96000) |}.

(* ===================================================================== *)
(** ** Tokenizer: round trip and classification *)
(* ===================================================================== *)

Section TokenizerFacts.

Variable isLetterOrNumber : Z -> bool.
Variable toLowerCase : jsString -> jsString.

Notation inClass := (Tokenizer.inClass isLetterOrNumber).
Notation plus := (Tokenizer.plus isLetterOrNumber).
Notation alternative := (Tokenizer.alternative isLetterOrNumber).
Notation exec := (Tokenizer.exec isLetterOrNumber).
Notation pushMatch := (Tokenizer.pushMatch toLowerCase).
Notation execLoop := (Tokenizer.execLoop isLetterOrNumber toLowerCase).
Notation tokenize := (Tokenizer.tokenize isLetterOrNumber toLowerCase).

Lemma codePoints_cons2 (u v : Z) (rest : jsString) :
  codePoints (u :: v :: rest) =
  if isHighSurrogate u && isLowSurrogate v
  then surrogatePair u v :: codePoints rest
  else single u :: codePoints (v :: rest).
Proof. reflexivity. Qed.

Lemma codePoints_units_aux (n : nat) :
  forall s, (length s <= n)%nat -> unitsOf (codePoints s) = s.
Proof.
  induction n as [|n IH]; intros s Hlen.
  - destruct s; [reflexivity | simpl in Hlen; lia].
  - destruct s as [|u [|v rest]]; try reflexivity.
    rewrite codePoints_cons2.
    destruct (isHighSurrogate u && isLowSurrogate v).
    + change (unitsOf (surrogatePair u v :: codePoints rest))
        with ([u; v] ++ unitsOf (codePoints rest)).
      rewrite IH by (simpl in *; lia). reflexivity.
    + change (unitsOf (single u :: codePoints (v :: rest)))
        with ([u] ++ unitsOf (codePoints (v :: rest))).
      rewrite IH by (simpl in *; lia). reflexivity.
Qed.

Lemma codePoints_units (s : jsString) : unitsOf (codePoints s) = s.
Proof. apply (codePoints_units_aux (length s)). lia. Qed.

Lemma unitsOf_app (a b : list CodePoint) :
  unitsOf (a ++ b) = unitsOf a ++ unitsOf b.
Proof. unfold unitsOf. rewrite map_app, concat_app. reflexivity. Qed.

Lemma plus_app (g : Tokenizer.Group) (input run after : list CodePoint) :
  plus g input = (run, after) -> run ++ after = input.
Proof.
  revert run after.
  induction input as [|c rest IH]; intros run after H; simpl in H.
  - inversion H. reflexivity.
  - destruct (inClass g c).
    + destruct (plus g rest) as [r a] eqn:E.
      inversion H; subst. simpl. f_equal. apply IH. reflexivity.
    + inversion H. reflexivity.
Qed.

Lemma plus_all (g : Tokenizer.Group) (input run after : list CodePoint) :
  plus g input = (run, after) -> Forall (fun c => inClass g c = true) run.
Proof.
  revert run after.
  induction input as [|c rest IH]; intros run after H; simpl in H.
  - inversion H. constructor.
  - destruct (inClass g c) eqn:Ec.
    + destruct (plus g rest) as [r a] eqn:E.
      inversion H; subst. constructor; [assumption|]. eapply IH; eauto.
    + inversion H. constructor.
Qed.

(** What follows a greedy run does not start in the class. *)
Lemma plus_stops (g : Tokenizer.Group) (input run after : list CodePoint) :
  plus g input = (run, after) ->
  match after with [] => True | c :: _ => inClass g c = false end.
Proof.
  revert run after.
  induction input as [|c rest IH]; intros run after H; simpl in H.
  - inversion H. exact I.
  - destruct (inClass g c) eqn:Ec.
    + destruct (plus g rest) as [r a] eqn:E.
      inversion H; subst. eapply IH; eauto.
    + inversion H; subst. exact Ec.
Qed.

Lemma alternative_Some (g : Tokenizer.Group) (input run after : list CodePoint) :
  alternative g input = Some (run, after) ->
  plus g input = (run, after) /\ run <> [].
Proof.
  unfold Tokenizer.alternative.
  destruct (plus g input) as [[|c r] a]; [discriminate|].
  intros H; inversion H; subst. split; [reflexivity | discriminate].
Qed.

Lemma alternative_None (g : Tokenizer.Group) (input : list CodePoint) :
  alternative g input = None ->
  match input with [] => True | c :: _ => inClass g c = false end.
Proof.
  unfold Tokenizer.alternative.
  destruct input as [|c rest]; [trivial|]. simpl.
  destruct (inClass g c); [|reflexivity].
  destruct (plus g rest); discriminate.
Qed.

(** [exec] returns the greedy run of the first alternative that matches
    at the current position. *)
Lemma exec_Some (input : list CodePoint) g run after :
  exec input = Some (g, run, after) ->
  plus g input = (run, after) /\ run <> []
  /\ match input with
     | [] => False
     | c :: _ => typeOfGroup g = kindOf isLetterOrNumber c
     end.
Proof.
  unfold Tokenizer.exec. intros H.
  destruct input as [|c rest].
  { cbn in H. discriminate. }
  unfold kindOf.
  destruct (alternative Tokenizer.G1 (c :: rest)) as [[r a]|] eqn:E1.
  { inversion H; subst. apply alternative_Some in E1 as [E1 Hne].
    repeat split; try assumption.
    cbn in E1. destruct (isLetterOrNumber (cpValue c)); [reflexivity|].
    inversion E1; subst. contradiction. }
  apply alternative_None in E1. cbn in E1. rewrite E1.
  destruct (alternative Tokenizer.G2 (c :: rest)) as [[r a]|] eqn:E2.
  { inversion H; subst. apply alternative_Some in E2 as [E2 Hne].
    repeat split; try assumption.
    cbn in E2. destruct (isWhiteSpace (cpValue c)); [reflexivity|].
    inversion E2; subst. contradiction. }
  apply alternative_None in E2. cbn in E2. rewrite E2.
  destruct (alternative Tokenizer.G3 (c :: rest)) as [[r a]|] eqn:E3.
  { inversion H; subst. apply alternative_Some in E3 as [E3 Hne].
    repeat split; try assumption. }
  apply alternative_None in E3. cbn in E3. rewrite E1, E2 in E3.
  discriminate.
Qed.

(** [exec] returns [null] only at the end of the input. *)
Lemma exec_None (input : list CodePoint) : exec input = None -> input = [].
Proof.
  destruct input as [|c rest]; [reflexivity|].
  unfold Tokenizer.exec. intros H.
  destruct (alternative Tokenizer.G1 (c :: rest)) as [[r a]|] eqn:E1; [discriminate|].
  destruct (alternative Tokenizer.G2 (c :: rest)) as [[r a]|] eqn:E2; [discriminate|].
  destruct (alternative Tokenizer.G3 (c :: rest)) as [[r a]|] eqn:E3; [discriminate|].
  apply alternative_None in E1, E2, E3. cbn in E1, E2, E3.
  rewrite E1, E2 in E3. discriminate.
Qed.

(** The loop, one iteration unfolded. *)
Lemma execLoop_unfold (input : list CodePoint) (parts : list ProcessedTextPart) :
  execLoop input parts =
  match exec input with
  | None => parts
  | Some (g, run, after) =>
      execLoop after (pushMatch parts (Tokenizer.matchArray g run))
  end.
Proof.
  rewrite Tokenizer.execLoop_equation_1.
  destruct (Tokenizer.inspect (exec input)) as [[[[g run] after]|] H];
    cbn; rewrite H; reflexivity.
Qed.

(** Whatever the groups, one iteration appends the matched text to the
    concatenation of the parts. *)
Lemma pushMatch_concat (parts : list ProcessedTextPart) g run :
  concat (map value (pushMatch parts (Tokenizer.matchArray g run)))
  = concat (map value parts) ++ unitsOf run.
Proof.
  unfold Tokenizer.pushMatch, Tokenizer.matchArray.
  cbn [Tokenizer.m0 Tokenizer.m1 Tokenizer.m2 Tokenizer.m3].
  destruct (unitsOf run) as [|u us] eqn:E.
  - cbn. rewrite app_nil_r. reflexivity.
  - destruct g; cbn [truthy truthyOpt];
      rewrite map_app, concat_app; cbn; rewrite app_nil_r; reflexivity.
Qed.

Lemma execLoop_concat_aux (n : nat) :
  forall input parts, (length input <= n)%nat ->
  concat (map value (execLoop input parts))
  = concat (map value parts) ++ unitsOf input.
Proof.
  induction n as [|n IH]; intros input parts Hlen;
    rewrite execLoop_unfold;
    destruct (exec input) as [[[g run] after]|] eqn:E.
  - apply Tokenizer.exec_shorter in E. lia.
  - apply exec_None in E. subst. cbn. rewrite app_nil_r. reflexivity.
  - pose proof (Tokenizer.exec_shorter _ _ _ _ _ E) as Hshort.
    apply exec_Some in E as (Hplus & _ & _).
    apply plus_app in Hplus.
    rewrite IH by lia. rewrite pushMatch_concat.
    rewrite <- Hplus, unitsOf_app, app_assoc. reflexivity.
  - apply exec_None in E. subst. cbn. rewrite app_nil_r. reflexivity.
Qed.

Lemma execLoop_concat (input : list CodePoint) (parts : list ProcessedTextPart) :
  concat (map value (execLoop input parts))
  = concat (map value parts) ++ unitsOf input.
Proof. apply (execLoop_concat_aux (length input)). lia. Qed.

End TokenizerFacts.

(** C3. Round trip: for every input string, the [value]s of the parts the
    tokenization effect produces, concatenated in order, are the input
    string itself, code unit for code unit; and the empty string gives no
    part at all.  This holds whatever the Unicode tables of the engine
    are. *)
Theorem tokenize_round_trip (isLetterOrNumber : Z -> bool)
  (toLowerCase : jsString -> jsString) (s : jsString) :
  concat (map value (Tokenizer.tokenize isLetterOrNumber toLowerCase s)) = s
  /\ Tokenizer.tokenize isLetterOrNumber toLowerCase [] = [].
Proof.
  split; [|reflexivity].
  unfold Tokenizer.tokenize.
  destruct s as [|u rest]; [reflexivity|].
  cbn [truthy negb].
  rewrite execLoop_concat. cbn [map concat app].
  apply codePoints_units.
Qed.

Section TokenizerClassification.

Variable isLetterOrNumber : Z -> bool.
Variable toLowerCase : jsString -> jsString.

(** No white space character is a letter or a number. *)
Hypothesis classes_disjoint :
  forall c, isWhiteSpace c = true -> isLetterOrNumber c = false.

Notation inClass := (Tokenizer.inClass isLetterOrNumber).
Notation plus := (Tokenizer.plus isLetterOrNumber).
Notation exec := (Tokenizer.exec isLetterOrNumber).
Notation pushMatch := (Tokenizer.pushMatch toLowerCase).
Notation execLoop := (Tokenizer.execLoop isLetterOrNumber toLowerCase).
Notation kind := (kindOf isLetterOrNumber).

Lemma inClass_kind g c : inClass g c = true -> kind c = typeOfGroup g.
Proof.
  unfold kindOf. destruct g; cbn; intros H.
  - rewrite H. reflexivity.
  - rewrite (classes_disjoint _ H), H. reflexivity.
  - apply negb_true_iff, orb_false_iff in H as [H1 H2].
    rewrite H1, H2. reflexivity.
Qed.

Lemma not_inClass_kind g c : inClass g c = false -> kind c <> typeOfGroup g.
Proof.
  unfold kindOf. destruct g; cbn; intros H.
  - rewrite H. destruct (isWhiteSpace (cpValue c)); discriminate.
  - rewrite H. destruct (isLetterOrNumber (cpValue c)); discriminate.
  - apply negb_false_iff, orb_true_iff in H.
    destruct (isLetterOrNumber (cpValue c)); [discriminate|].
    destruct H as [H|H]; [discriminate|]. rewrite H. discriminate.
Qed.

Lemma unitsOf_nonempty (run : list CodePoint) :
  Forall (fun c => cpUnits c <> []) run -> run <> [] -> unitsOf run <> [].
Proof.
  intros Hall Hne. destruct run as [|c run]; [contradiction|].
  inversion Hall as [|? ? Hc _]; subst.
  unfold unitsOf. cbn. destruct (cpUnits c); [contradiction | discriminate].
Qed.

Lemma codePoints_nonempty_units_aux (n : nat) :
  forall s, (length s <= n)%nat ->
  Forall (fun c => cpUnits c <> []) (codePoints s).
Proof.
  induction n as [|n IH]; intros s Hlen.
  - destruct s; [constructor | simpl in Hlen; lia].
  - destruct s as [|u [|v rest]].
    + constructor.
    + repeat constructor. discriminate.
    + rewrite codePoints_cons2.
      destruct (isHighSurrogate u && isLowSurrogate v);
        (constructor; [discriminate | apply IH; simpl in *; lia]).
Qed.

Lemma codePoints_nonempty_units (s : jsString) :
  Forall (fun c => cpUnits c <> []) (codePoints s).
Proof. apply (codePoints_nonempty_units_aux (length s)). lia. Qed.

(** The part one iteration pushes for a non-empty match. *)
Lemma pushMatch_part (parts : list ProcessedTextPart) g run :
  unitsOf run <> [] ->
  exists p,
    pushMatch parts (Tokenizer.matchArray g run) = parts ++ [p]
    /\ type p = typeOfGroup g
    /\ value p = unitsOf run
    /\ originalWord p =
       match g with
       | Tokenizer.G1 => Some (toLowerCase (unitsOf run))
       | _ => None
       end.
Proof.
  intros Hne.
  unfold Tokenizer.pushMatch, Tokenizer.matchArray.
  cbn [Tokenizer.m0 Tokenizer.m1 Tokenizer.m2 Tokenizer.m3].
  destruct (unitsOf run) as [|u us]; [contradiction|].
  destruct g; cbn [truthy truthyOpt]; eexists; repeat split.
Qed.

Lemma execLoop_runs (n : nat) :
  forall input parts, (length input <= n)%nat ->
  Forall (fun c => cpUnits c <> []) input ->
  exists runs newParts,
    concat runs = input
    /\ Forall (homogeneous isLetterOrNumber) runs
    /\ neighboursDiffer (sameKind isLetterOrNumber) runs = true
    /\ match runs, input with
       | r :: _, c :: _ => runKind isLetterOrNumber r = kind c
       | [], [] => True
       | _, _ => False
       end
    /\ execLoop input parts = parts ++ newParts
    /\ map type newParts = map (runKind isLetterOrNumber) runs
    /\ map value newParts = map unitsOf runs
    /\ map originalWord newParts
       = map (normalizedKey isLetterOrNumber toLowerCase) runs.
Proof.
  induction n as [|n IH]; intros input parts Hlen Hunits;
    rewrite execLoop_unfold;
    destruct (exec input) as [[[g run] after]|] eqn:E;
    try (apply exec_None in E; subst; exists [], [];
         rewrite app_nil_r; repeat split; constructor).
  - apply Tokenizer.exec_shorter in E. lia.
  - pose proof (Tokenizer.exec_shorter _ _ _ _ _ E) as Hshort.
    apply exec_Some in E as (Hplus & Hne & Hhead).
    pose proof (plus_app _ _ _ _ _ Hplus) as Happ.
    pose proof (plus_all _ _ _ _ _ Hplus) as Hall.
    pose proof (plus_stops _ _ _ _ _ Hplus) as Hstop.
    subst input. apply Forall_app in Hunits as [Hrun Hafter].
    destruct run as [|c run]; [contradiction|]. cbn in Hhead.
    assert (Hkind : runKind isLetterOrNumber (c :: run) = typeOfGroup g)
      by (cbn; congruence).
    destruct (pushMatch_part parts g (c :: run)) as (p & Hp & Ht & Hv & Ho).
    { apply unitsOf_nonempty; [assumption | discriminate]. }
    destruct (IH after (pushMatch parts (Tokenizer.matchArray g (c :: run))))
      as (runs & newParts & Hcat & Hhom & Hdiff & Hfirst & Hloop
          & Htypes & Hvalues & Hkeys);
      [lia | assumption |].
    exists ((c :: run) :: runs), (p :: newParts).
    repeat split.
    + cbn [concat]. rewrite Hcat. reflexivity.
    + constructor; [|assumption]. split; [discriminate|].
      rewrite Hkind.
      eapply Forall_impl; [|exact Hall].
      intros a Ha. apply inClass_kind. exact Ha.
    + cbn [neighboursDiffer]. destruct runs as [|r runs]; [reflexivity|].
      rewrite Hdiff, andb_true_r.
      destruct after as [|a after]; [contradiction|].
      apply not_inClass_kind in Hstop.
      unfold sameKind. rewrite Hkind, Hfirst.
      destruct (typeOfGroup g), (kind a); try reflexivity; contradiction.
    + rewrite Hloop, Hp, <- app_assoc. reflexivity.
    + cbn [map]. rewrite Htypes, Ht, Hkind. reflexivity.
    + cbn [map]. rewrite Hvalues, Hv. reflexivity.
    + cbn [map]. rewrite Hkeys, Ho. unfold normalizedKey at 2.
      rewrite Hkind. destruct g; reflexivity.
Qed.

End TokenizerClassification.

Section TokenizerExtensionality.

Variables isLN isLN' : Z -> bool.
Variable toLowerCase : jsString -> jsString.

(** The two tables agree on the code points of the input. *)
Definition agreeOn (input : list CodePoint) : Prop :=
  Forall (fun c => isLN (cpValue c) = isLN' (cpValue c)) input.

Lemma plus_ext g (input : list CodePoint) :
  agreeOn input -> Tokenizer.plus isLN g input = Tokenizer.plus isLN' g input.
Proof.
  induction input as [|c rest IH]; intros H; [reflexivity|].
  inversion H as [|? ? Hc Hrest]; subst. cbn [Tokenizer.plus].
  rewrite (IH Hrest).
  replace (Tokenizer.inClass isLN' g c) with (Tokenizer.inClass isLN g c)
    by (destruct g; cbn; rewrite ?Hc; reflexivity).
  reflexivity.
Qed.

Lemma exec_ext (input : list CodePoint) :
  agreeOn input -> Tokenizer.exec isLN input = Tokenizer.exec isLN' input.
Proof.
  intros H. unfold Tokenizer.exec, Tokenizer.alternative.
  rewrite !(plus_ext _ _ H). reflexivity.
Qed.

Lemma execLoop_ext (n : nat) :
  forall input parts, (length input <= n)%nat -> agreeOn input ->
  Tokenizer.execLoop isLN toLowerCase input parts
  = Tokenizer.execLoop isLN' toLowerCase input parts.
Proof.
  induction n as [|n IH]; intros input parts Hlen H;
    rewrite !execLoop_unfold, <- (exec_ext _ H);
    destruct (Tokenizer.exec isLN input) as [[[g run] after]|] eqn:E;
    try reflexivity.
  - apply Tokenizer.exec_shorter in E. lia.
  - pose proof (Tokenizer.exec_shorter _ _ _ _ _ E) as Hshort.
    apply exec_Some in E as (Hplus & _ & _). apply plus_app in Hplus.
    apply IH; [lia|]. subst input. apply Forall_app in H. tauto.
Qed.

Lemma tokenize_ext (s : jsString) :
  agreeOn (codePoints s) ->
  Tokenizer.tokenize isLN toLowerCase s
  = Tokenizer.tokenize isLN' toLowerCase s.
Proof.
  intros H. unfold Tokenizer.tokenize.
  destruct (negb (truthy s)); [reflexivity|].
  eapply execLoop_ext; eauto.
Qed.

End TokenizerExtensionality.

Lemma ascii_classes_disjoint (c : Z) :
  isWhiteSpace c = true -> asciiLetterOrDigit c = false.
Proof.
  unfold isWhiteSpace, asciiLetterOrDigit. intros H.
  apply not_true_iff_false. intros H'.
  rewrite !orb_true_iff, !andb_true_iff, !Z.leb_le, !Z.eqb_eq in H.
  rewrite !orb_true_iff, !andb_true_iff, !Z.leb_le in H'.
  lia.
Qed.

(** The class [\s] and Unicode's white space differ at two code points:
    U+0085 is Unicode white space and not in [\s], U+FEFF is in [\s] and
    no Unicode white space. *)
Lemma isWhiteSpace_Unicode (c : Z) :
  isWhiteSpace c
  = (isUnicodeWhiteSpace c && negb (c =? 133)) || (c =? 65279).
Proof.
  unfold isWhiteSpace, isUnicodeWhiteSpace.
  destruct (Z.eqb_spec c 133) as [->|H133]; [reflexivity|].
  destruct (Z.eqb_spec c 65279) as [->|Hfeff]; [reflexivity|].
  cbn [negb]. rewrite !andb_true_r, !orb_false_r. reflexivity.
Qed.

(** C4, as the code has it.  Classification: for every input string
    there is a division of its code points into consecutive non-empty
    runs, each of one kind (letters and numbers, white space of the class
    [\s], or the rest) and each maximal (no two neighbouring runs have the
    same kind), such that the parts are exactly these runs in order: the
    part's type is the run's kind, its value is the run's text, and a word
    part carries the lower-cased text as its [originalWord] while the
    other parts carry none.  On ["Hello, world! 42"] the parts are Hello
    (word), comma (punctuation), space, world (word), exclamation mark
    (punctuation), space, 42 (word).  The white space of the class [\s]
    is Unicode's white space without U+0085 and with U+FEFF. *)
Theorem tokenize_classification (isLetterOrNumber : Z -> bool)
  (toLowerCase : jsString -> jsString)
  (classes_disjoint :
     forall c, isWhiteSpace c = true -> isLetterOrNumber c = false)
  (ascii_table :
     forall c, 0 <= c < 128 -> isLetterOrNumber c = asciiLetterOrDigit c) :
  (forall s : jsString,
     let parts := Tokenizer.tokenize isLetterOrNumber toLowerCase s in
     exists runs : list (list CodePoint),
       concat runs = codePoints s
       /\ Forall (homogeneous isLetterOrNumber) runs
       /\ neighboursDiffer (sameKind isLetterOrNumber) runs = true
       /\ map type parts = map (runKind isLetterOrNumber) runs
       /\ map value parts = map unitsOf runs
       /\ map originalWord parts
          = map (normalizedKey isLetterOrNumber toLowerCase) runs)
  /\ map (fun p => (value p, type p, originalWord p))
       (Tokenizer.tokenize isLetterOrNumber toLowerCase
          (lit "Hello, world! 42"))
     = [ (lit "Hello", word, Some (toLowerCase (lit "Hello")));
         (lit ",", punctuation, None);
         (lit " ", whitespace, None);
         (lit "world", word, Some (toLowerCase (lit "world")));
         (lit "!", punctuation, None);
         (lit " ", whitespace, None);
         (lit "42", word, Some (toLowerCase (lit "42"))) ]
  /\ (forall c,
        isWhiteSpace c
        = (isUnicodeWhiteSpace c && negb (c =? 133)) || (c =? 65279)).
Proof.
  split; [|split; [|exact isWhiteSpace_Unicode]].
  - intros s parts. subst parts. unfold Tokenizer.tokenize.
    destruct s as [|u rest].
    { exists []. repeat split; constructor. }
    cbn [truthy negb].
    destruct (execLoop_runs isLetterOrNumber toLowerCase classes_disjoint
                (length (codePoints (u :: rest))) (codePoints (u :: rest)) [])
      as (runs & newParts & Hcat & Hhom & Hdiff & _ & Hloop & Ht & Hv & Hk);
      [lia | apply codePoints_nonempty_units |].
    exists runs. rewrite Hloop. cbn [app]. repeat split; assumption.
  - rewrite (tokenize_ext isLetterOrNumber asciiLetterOrDigit).
    + vm_compute. reflexivity.
    + unfold agreeOn. vm_compute codePoints.
      repeat constructor; apply ascii_table; cbn; lia.
Qed.

(** The hypotheses of [tokenize_classification] hold of the ASCII table. *)
Lemma tokenize_classification_witness :
  map (fun p => (value p, type p))
    (Tokenizer.tokenize asciiLetterOrDigit asciiToLowerCase
       (lit "Hello, world! 42"))
  = [ (lit "Hello", word); (lit ",", punctuation); (lit " ", whitespace);
      (lit "world", word); (lit "!", punctuation); (lit " ", whitespace);
      (lit "42", word) ].
Proof.
  pose proof (tokenize_classification asciiLetterOrDigit asciiToLowerCase
                ascii_classes_disjoint (fun c _ => eq_refl)) as (_ & H & _).
  apply (f_equal (map (fun x => (fst (fst x), snd (fst x))))) in H.
  rewrite map_map in H. exact H.
Defined.

(** C4 fails as stated for white space: the white space of the regular
    expression is the class [\s], not Unicode's.  U+0085, next line, is
    Unicode white space, yet between two words it makes a punctuation
    part; U+FEFF is no Unicode white space, yet it makes a whitespace
    part.  Neither of the two is a letter or a number, in Unicode as in
    the ASCII table the parts are computed with. *)
Lemma unicode_white_space_is_not_told_by_the_regex :
  let kinds := fun s =>
    map (fun p => (value p, type p))
      (Tokenizer.tokenize asciiLetterOrDigit asciiToLowerCase s) in
  isUnicodeWhiteSpace 133 = true
  /\ kinds [97; 133; 98] = [([97], word); ([133], punctuation); ([98], word)]
  /\ isUnicodeWhiteSpace 65279 = false
  /\ kinds [97; 65279; 98]
     = [([97], word); ([65279], whitespace); ([98], word)].
Proof. vm_compute. repeat split; reflexivity. Qed.

(* ===================================================================== *)
(** ** Selection resolution *)
(* ===================================================================== *)

Lemma slice_inclusive {A} (l : list A) (a b : nat) :
  (a <= b)%nat ->
  App.slice l (Z.of_nat a) (Z.of_nat b + 1)
  = firstn (b - a + 1) (skipn a l).
Proof.
  intros Hab. unfold App.slice.
  assert (Ha : (Z.of_nat a <? 0) = false) by (apply Z.ltb_ge; lia).
  assert (Hb : (Z.of_nat b + 1 <? 0) = false) by (apply Z.ltb_ge; lia).
  rewrite Ha, Hb.
  destruct (Nat.le_gt_cases (length l) a) as [Hout|Hin].
  - rewrite (skipn_all2 l) by lia.
    rewrite (skipn_all2 l Hout). rewrite !firstn_nil. reflexivity.
  - replace (Z.to_nat (Z.min (Z.of_nat a) (Z.of_nat (length l)))) with a
      by lia.
    destruct (Nat.le_gt_cases (b + 1) (length l)) as [Hfit|Hover].
    + f_equal. lia.
    + rewrite !firstn_all2; try reflexivity; rewrite length_skipn; lia.
Qed.

Lemma partIndexOf_unmapped (e : option nat) :
  (App.partIndexOf e =? -1) = match e with Some _ => false | None => true end.
Proof.
  destruct e as [i|]; [|reflexivity]. cbn. apply Z.eqb_neq. lia.
Qed.

(** With a usable selection, [handleMouseUp] does what a caller of the
    specification's resolver does that looks up phrases only. *)
Lemma mouseUpAction_resolve (parts : list ProcessedTextPart)
  (ctx : App.MouseUpContext) :
  selectionUsable ctx = true ->
  App.mouseUpAction parts ctx
  = actionOfResolution
      (resolve_spec (App.startElement ctx, App.endElement ctx) parts).
Proof.
  unfold selectionUsable, App.mouseUpAction. intros H.
  apply andb_true_iff in H as [H Hin].
  apply andb_true_iff in H as [H Hcol].
  apply andb_true_iff in H as [Hsel Hcount].
  rewrite Hsel, Hin. apply negb_true_iff in Hcount, Hcol.
  rewrite Hcount, Hcol. cbn [negb orb].
  rewrite !partIndexOf_unmapped.
  destruct (App.startElement ctx) as [a|]; [|reflexivity].
  destruct (App.endElement ctx) as [b|]; [|reflexivity].
  cbn [orb App.partIndexOf resolve_spec].
  replace (Z.min (Z.of_nat a) (Z.of_nat b)) with (Z.of_nat (Nat.min a b))
    by lia.
  replace (Z.max (Z.of_nat a) (Z.of_nat b)) with (Z.of_nat (Nat.max a b))
    by lia.
  rewrite slice_inclusive by lia.
  destruct (filter App.isWordPart
              (firstn (Nat.max a b - Nat.min a b + 1)
                 (skipn (Nat.min a b) parts)))
    as [|p [|q ws]]; reflexivity.
Qed.

(** C2, as the code has it.  For every part sequence and every browser
    selection: a selection that is missing, collapsed or outside the
    clickable text, or one with an end that maps to no part, only clears
    the highlight; otherwise the span is put in order (start the smaller
    index, end the larger), the parts from start to end inclusive are
    taken, the word parts among them are kept in order, and two or more of
    them are looked up as one phrase, their raw texts joined by single
    spaces, while one word or none only clears the highlight.  Over the
    parts of ["the quick fox"], span (0,4) looks up ["the quick fox"], and
    spans (0,0), (1,1) and a span with an unmapped end do nothing more than
    clear the highlight. *)
Theorem mouseUp_looks_up_phrases_only :
  (forall (parts : list ProcessedTextPart) (ctx : App.MouseUpContext),
     App.mouseUpAction parts ctx
     = if selectionUsable ctx
       then match resolve_spec (App.startElement ctx, App.endElement ctx)
                    parts with
            | Phrase ws => App.LookupPhrase (join (lit " ") (map value ws))
            | SingleWord _ | NonWordSelection | NoSelection =>
                App.RemoveAllRangesOnly
            end
       else App.RemoveAllRangesOnly)
  /\ App.mouseUpAction theQuickFox (spanContext (Some 0%nat) (Some 4%nat))
     = App.LookupPhrase (lit "the quick fox")
  /\ App.mouseUpAction theQuickFox (spanContext (Some 4%nat) (Some 0%nat))
     = App.LookupPhrase (lit "the quick fox")
  /\ App.mouseUpAction theQuickFox (spanContext (Some 0%nat) (Some 0%nat))
     = App.RemoveAllRangesOnly
  /\ App.mouseUpAction theQuickFox (spanContext (Some 1%nat) (Some 1%nat))
     = App.RemoveAllRangesOnly
  /\ App.mouseUpAction theQuickFox (spanContext None (Some 2%nat))
     = App.RemoveAllRangesOnly.
Proof.
  split; [|repeat split; vm_compute; reflexivity].
  intros parts ctx.
  destruct (selectionUsable ctx) eqn:Hu.
  - rewrite (mouseUpAction_resolve parts ctx Hu).
    destruct (resolve_spec _ parts); reflexivity.
  - unfold selectionUsable in Hu. unfold App.mouseUpAction.
    destruct (App.selectionPresent ctx); [|reflexivity].
    destruct (App.rangeCount ctx =? 0)%nat; [reflexivity|].
    destruct (App.isCollapsed ctx); [reflexivity|].
    destruct (App.rangeInsideClickableText ctx); [discriminate|].
    reflexivity.
Qed.

(** C2 fails as stated.  The specification's resolver tells the word
    [the] at span (0,0) from the space at span (1,1), but [handleMouseUp]
    does the same on both, and the same again on a span with an unmapped
    end: no reading of its outcome gives the resolver's classification. *)
Lemma single_word_is_not_told_apart :
  resolve_spec (Some 0%nat, Some 0%nat) theQuickFox = SingleWord partThe
  /\ resolve_spec (Some 1%nat, Some 1%nat) theQuickFox = NonWordSelection
  /\ App.mouseUpAction theQuickFox (spanContext (Some 0%nat) (Some 0%nat))
     = App.mouseUpAction theQuickFox (spanContext (Some 1%nat) (Some 1%nat))
  /\ ~ (exists classify : App.MouseUpAction -> PhraseResolution,
          forall span,
            classify (App.mouseUpAction theQuickFox
                        (spanContext (fst span) (snd span)))
            = resolve_spec span theQuickFox).
Proof.
  repeat split; try (vm_compute; reflexivity).
  intros [classify H].
  pose proof (H (Some 0%nat, Some 0%nat)) as H0.
  pose proof (H (Some 1%nat, Some 1%nat)) as H1.
  vm_compute in H0, H1. congruence.
Qed.

(* ===================================================================== *)
(** ** getTermDetails *)
(* ===================================================================== *)

Section ServiceFacts.

Import GeminiService.

Lemma eqb_eq (a b : jsString) : eqb a b = true <-> a = b.
Proof.
  revert b. induction a as [|x a IH]; intros [|y b]; cbn;
    try (split; [discriminate | discriminate]); try tauto.
  rewrite andb_true_iff, Z.eqb_eq, IH. split.
  - intros [-> ->]. reflexivity.
  - intros H. inversion H. tauto.
Qed.

Lemma eqb_refl (a : jsString) : eqb a a = true.
Proof. apply eqb_eq. reflexivity. Qed.

Lemma eqb_neq (a b : jsString) : eqb a b = false <-> a <> b.
Proof.
  rewrite <- eqb_eq. destruct (eqb a b); split; congruence.
Qed.

Lemma eqb_sym (a b : jsString) : eqb a b = eqb b a.
Proof.
  destruct (eqb b a) eqn:E.
  - apply eqb_eq in E. subst. apply eqb_refl.
  - apply eqb_neq. apply eqb_neq in E. congruence.
Qed.

Lemma Language_eqb_eq (a b : Language) : Language_eqb a b = true <-> a = b.
Proof. destruct a, b; cbn; split; congruence. Qed.

Lemma Language_eqb_refl (a : Language) : Language_eqb a a = true.
Proof. destruct a; reflexivity. Qed.

Lemma getProperty_set_same o k v : getProperty (setProperty o k v) k = v.
Proof.
  induction o as [|[k' v'] o IH]; cbn.
  - rewrite eqb_refl. reflexivity.
  - destruct (eqb k' k) eqn:E; cbn.
    + rewrite eqb_refl. reflexivity.
    + rewrite E. exact IH.
Qed.

Lemma getProperty_set_other o k v k' :
  k' <> k -> getProperty (setProperty o k v) k' = getProperty o k'.
Proof.
  intros Hne. apply eqb_neq in Hne. rewrite eqb_sym in Hne.
  induction o as [|[k0 v0] o IH]; cbn.
  - rewrite Hne. reflexivity.
  - destruct (eqb k0 k) eqn:E; cbn.
    + apply eqb_eq in E. subst k0. rewrite Hne. reflexivity.
    + rewrite IH. reflexivity.
Qed.

Lemma hasProperty_set_other o k v k' :
  k' <> k -> hasProperty (setProperty o k v) k' = hasProperty o k'.
Proof.
  intros Hne. apply eqb_neq in Hne. rewrite eqb_sym in Hne.
  induction o as [|[k0 v0] o IH]; cbn.
  - rewrite Hne. reflexivity.
  - destruct (eqb k0 k) eqn:E; cbn.
    + apply eqb_eq in E. subst k0. rewrite Hne. reflexivity.
    + rewrite IH. reflexivity.
Qed.

Lemma hasProperty_fold entries k : forall o,
  hasProperty
    (fold_left (fun o kv => setProperty o (fst kv) (snd kv)) entries o) k
  = hasProperty o k || hasProperty entries k.
Proof.
  induction entries as [|[k0 v0] entries IH]; intros o; cbn [fold_left].
  - cbn. rewrite orb_false_r. reflexivity.
  - rewrite IH. cbn [fst snd hasProperty].
    destruct (eqb k0 k) eqn:E.
    + apply eqb_eq in E. subst k0.
      assert (H : hasProperty (setProperty o k v0) k = true).
      { clear. induction o as [|[k1 v1] o IHo]; cbn.
        - rewrite eqb_refl. reflexivity.
        - destruct (eqb k1 k) eqn:E1; cbn.
          + rewrite eqb_refl. reflexivity.
          + rewrite E1. exact IHo. }
      rewrite H. cbn. rewrite orb_true_r. reflexivity.
    + rewrite hasProperty_set_other.
      * reflexivity.
      * apply eqb_neq. rewrite eqb_sym. exact E.
Qed.

Lemma objectLiteral_last entries k v :
  objectLiteral (entries ++ [(k, v)]) = setProperty (objectLiteral entries) k v.
Proof. unfold objectLiteral. rewrite fold_left_app. reflexivity. Qed.

(** The merge keeps every property of the payload and none other,
    apart from [audioBase64], which it sets. *)
Lemma mergeAudio_spec (v : JsValue) (audio : option jsString) :
  getProperty (mergeAudio v audio) (lit "audioBase64") = orUndefined audio
  /\ forall k, k <> lit "audioBase64" ->
       hasProperty (mergeAudio v audio) k
       = hasProperty (ownEnumerableProperties v) k.
Proof.
  unfold mergeAudio. rewrite objectLiteral_last. split.
  - apply getProperty_set_same.
  - intros k Hk. rewrite hasProperty_set_other by exact Hk.
    unfold objectLiteral. rewrite hasProperty_fold. reflexivity.
Qed.

Lemma hasProperty_app o o' k :
  hasProperty (o ++ o') k = hasProperty o k || hasProperty o' k.
Proof.
  induction o as [|[k0 v0] o IH]; cbn; [reflexivity|].
  rewrite IH, orb_assoc. reflexivity.
Qed.

Lemma setProperty_fresh o k v :
  hasProperty o k = false -> setProperty o k v = o ++ [(k, v)].
Proof.
  induction o as [|[k0 v0] o IH]; cbn; [reflexivity|].
  intros H. apply orb_false_iff in H as [E H]. rewrite E, (IH H).
  reflexivity.
Qed.

(** Entries with distinct keys, none of them in the object yet, are
    added at its end in their order. *)
Lemma fold_setProperty_fresh entries : forall o,
  distinctKeys entries = true ->
  (forall k, hasProperty entries k = true -> hasProperty o k = false) ->
  fold_left (fun o kv => setProperty o (fst kv) (snd kv)) entries o
  = o ++ entries.
Proof.
  induction entries as [|[k v] entries IH]; intros o Hd Hnew;
    cbn [fold_left fst snd].
  - symmetry. apply app_nil_r.
  - cbn [distinctKeys] in Hd. apply andb_true_iff in Hd as [Hk Hd].
    apply negb_true_iff in Hk.
    rewrite setProperty_fresh
      by (apply Hnew; cbn; rewrite eqb_refl; reflexivity).
    rewrite IH.
    + rewrite <- app_assoc. reflexivity.
    + exact Hd.
    + intros k' Hk'. rewrite hasProperty_app. cbn [hasProperty].
      rewrite orb_false_r. apply orb_false_iff. split.
      * apply Hnew. cbn [hasProperty]. rewrite Hk'. apply orb_true_r.
      * apply eqb_neq. intros ->. congruence.
Qed.

(** The spread of an object copies it as it is: on entries with distinct
    keys the merge is the payload, each property with its value and in its
    place, with [audioBase64] set. *)
Lemma mergeAudio_distinct (v : JsValue) (audio : option jsString) :
  distinctKeys (ownEnumerableProperties v) = true ->
  mergeAudio v audio
  = setProperty (ownEnumerableProperties v) (lit "audioBase64")
      (orUndefined audio).
Proof.
  intros Hd. unfold mergeAudio. rewrite objectLiteral_last. f_equal.
  unfold objectLiteral. rewrite fold_setProperty_fresh.
  - reflexivity.
  - exact Hd.
  - reflexivity.
Qed.

(** [getTermDetails] never rejects: its [catch] turns every exception of
    the [try] block into [null]. *)
Lemma getTermDetails_catches rt t sl tl :
  getTermDetails rt t sl tl
  = match getTermDetails_try rt t sl tl with
    | Fulfilled d => Fulfilled (Some d)
    | Rejected _ => Fulfilled None
    end.
Proof.
  unfold getTermDetails.
  destruct (getTermDetails_try rt t sl tl) as [d|e]; [reflexivity|].
  destruct (eqb (message e) (lit "JSON_PARSE_ERROR")); reflexivity.
Qed.

(** When the [try] block completes, and with what. *)
Lemma getTermDetails_try_Fulfilled rt t sl tl d :
  getTermDetails_try rt t sl tl = Fulfilled d <->
  exists textResp audioResp raw v,
    truthyOpt (API_KEY rt) = true
    /\ generateContent rt (textRequest t sl tl) = Fulfilled textResp
    /\ generateContent rt (audioRequest t) = Fulfilled audioResp
    /\ text textResp = Some raw
    /\ JSON_parse rt (cleanJson (trim raw)) = Some v
    /\ d = mergeAudio v (firstInlineData audioResp).
Proof.
  unfold getTermDetails_try, getGeminiClient, mergeAudio.
  split.
  - destruct (truthyOpt (API_KEY rt)) eqn:Hk; cbn [negb bind];
      [|discriminate].
    destruct (generateContent rt (textRequest t sl tl)) as [textResp|] eqn:Ht;
      [|discriminate].
    destruct (generateContent rt (audioRequest t)) as [audioResp|] eqn:Ha;
      [|discriminate].
    cbn [Promise_all bind].
    destruct (text textResp) as [raw|] eqn:Hr; [|discriminate]. cbn [bind].
    destruct (JSON_parse rt (cleanJson (trim raw))) as [v|] eqn:Ev;
      [|discriminate].
    cbn [bind]. intros H. inversion H; subst.
    exists textResp, audioResp, raw, v. repeat split; assumption.
  - intros (textResp & audioResp & raw & v & Hk & Ht & Ha & Hr & Hv & ->).
    rewrite Hk. cbn [negb bind]. rewrite Ht, Ha. cbn [bind Promise_all].
    rewrite Hr. cbn [bind]. rewrite Hv. reflexivity.
Qed.

End ServiceFacts.

(** C5, as the code has it.  Whenever the audio call completes, with or
    without an audio payload, it does not fail the lookup: if the key is
    set and the text call completes with a text that parses, then
    [getTermDetails] resolves to a WordDetail that has the properties of
    the parsed payload, and whose [audioBase64] is the payload of the audio
    call, or [undefined] when that call returned none (or an empty one);
    the coordinator then displays it and sets no error.  The WordDetail
    has the fields of the payload with their values: for a payload that
    has each key once, as an object has, it is the payload itself, every
    property with its value and in its place, with [audioBase64] set. *)
Theorem audio_without_payload_keeps_lookup (rt : GeminiService.Runtime)
  (t : jsString) (sl tl : Language)
  (textResp audioResp : GeminiService.GenerateContentResponse)
  (raw : jsString) (v : JsValue) (st : App.AppState) :
  truthyOpt (GeminiService.API_KEY rt) = true ->
  GeminiService.generateContent rt (GeminiService.textRequest t sl tl)
    = GeminiService.Fulfilled textResp ->
  GeminiService.generateContent rt (GeminiService.audioRequest t)
    = GeminiService.Fulfilled audioResp ->
  GeminiService.text textResp = Some raw ->
  GeminiService.JSON_parse rt (GeminiService.cleanJson (trim raw)) = Some v ->
  exists d,
    GeminiService.getTermDetails rt t sl tl
      = GeminiService.Fulfilled (Some d)
    /\ (truthyOpt (GeminiService.firstInlineData audioResp) = false ->
        GeminiService.getProperty d (lit "audioBase64") = VUndefined)
    /\ (forall a, GeminiService.firstInlineData audioResp = Some a ->
        truthy a = true ->
        GeminiService.getProperty d (lit "audioBase64") = VString a)
    /\ (forall k, k <> lit "audioBase64" ->
        GeminiService.hasProperty d k
        = GeminiService.hasProperty
            (GeminiService.ownEnumerableProperties v) k)
    /\ (distinctKeys (GeminiService.ownEnumerableProperties v) = true ->
        d = GeminiService.setProperty
              (GeminiService.ownEnumerableProperties v) (lit "audioBase64")
              (GeminiService.orUndefined
                 (GeminiService.firstInlineData audioResp))
        /\ forall k, k <> lit "audioBase64" ->
             GeminiService.getProperty d k
             = GeminiService.getProperty
                 (GeminiService.ownEnumerableProperties v) k)
    /\ App.wordDetails
         (App.handleTermClick_resume
            (GeminiService.getTermDetails rt t sl tl) st) = Some d
    /\ App.error
         (App.handleTermClick_resume
            (GeminiService.getTermDetails rt t sl tl) st) = App.error st.
Proof.
  intros Hk Ht Ha Hr Hv.
  exists (mergeAudio v (GeminiService.firstInlineData audioResp)).
  assert (Hget : GeminiService.getTermDetails rt t sl tl
                 = GeminiService.Fulfilled
                     (Some (mergeAudio v
                              (GeminiService.firstInlineData audioResp)))).
  { rewrite getTermDetails_catches.
    replace (GeminiService.getTermDetails_try rt t sl tl)
      with (GeminiService.Fulfilled
              (mergeAudio v (GeminiService.firstInlineData audioResp)));
      [reflexivity|].
    symmetry. apply getTermDetails_try_Fulfilled.
    exists textResp, audioResp, raw, v. repeat split; assumption. }
  destruct (mergeAudio_spec v (GeminiService.firstInlineData audioResp))
    as [Haudio Hrest].
  rewrite Hget.
  split; [reflexivity|]. split; [|split; [|split; [exact Hrest|split]]].
  - intros Hnone. rewrite Haudio.
    destruct (GeminiService.firstInlineData audioResp) as [a|];
      [|reflexivity].
    cbn in Hnone |- *. rewrite Hnone. reflexivity.
  - intros a Hsome Htruthy. rewrite Haudio, Hsome. cbn.
    rewrite Htruthy. reflexivity.
  - intros Hd. rewrite (mergeAudio_distinct _ _ Hd).
    split; [reflexivity|].
    intros k Hne. apply getProperty_set_other. exact Hne.
  - split; reflexivity.
Qed.

(** [audio_without_payload_keeps_lookup] on a lookup of [hola] whose
    audio call returns no payload. *)
Lemma audio_without_payload_keeps_lookup_witness :
  exists d,
    GeminiService.getTermDetails
      (sampleRuntime (textResponse holaText) (audioResponse None))
      (lit "hola") SPANISH ENGLISH
    = GeminiService.Fulfilled (Some d)
    /\ GeminiService.getProperty d (lit "audioBase64") = VUndefined
    /\ GeminiService.getProperty d (lit "definition")
       = VString (lit "hello")
    /\ GeminiService.getProperty d (lit "exampleSentences")
       = VArray [VString (lit "hola, amigo")].
Proof.
  destruct (audio_without_payload_keeps_lookup
              (sampleRuntime (textResponse holaText) (audioResponse None))
              (lit "hola") SPANISH ENGLISH
              {| GeminiService.text := Some holaText;
                 GeminiService.firstInlineData := None |}
              {| GeminiService.text := None;
                 GeminiService.firstInlineData := None |}
              holaText holaValue (sampleRun
                 (sampleRuntime (textResponse holaText) (audioResponse None))
                 []))
    as (d & Hget & Hnone & _ & _ & Hsame & _);
    try (vm_compute; reflexivity).
  destruct Hsame as [_ Hvalues]; [vm_compute; reflexivity|].
  exists d. split; [exact Hget|]. split; [apply Hnone; reflexivity|].
  split.
  - rewrite Hvalues by (vm_compute; discriminate).
    vm_compute. reflexivity.
  - rewrite Hvalues by (vm_compute; discriminate).
    vm_compute. reflexivity.
Defined.

(** C5 fails as stated: when the audio call raises an error, the joint
    await rejects, [getTermDetails] returns [null] although the text call
    succeeded with a well-formed payload, and the lookup fails. *)
Lemma audio_rejection_fails_lookup :
  let rt := sampleRuntime (textResponse holaText)
              (GeminiService.Rejected networkError) in
  GeminiService.generateContent rt
    (GeminiService.textRequest (lit "hola") SPANISH ENGLISH)
  = textResponse holaText
  /\ GeminiService.JSON_parse rt (GeminiService.cleanJson (trim holaText))
     = Some holaValue
  /\ GeminiService.getTermDetails rt (lit "hola") SPANISH ENGLISH
     = GeminiService.Fulfilled None
  /\ App.error
       (sampleRun rt
          [App.TextAreaChange (lit "hola"); App.WordClick 0;
           App.GetTermDetailsSettled 0])
     = Some App.malformedMessage.
Proof. vm_compute. repeat split; reflexivity. Qed.

(** C8, as the code has it.  When the source language equals the
    target language, the schema sent with the text request names no
    [translation] property; the merge copies the parsed payload as it is,
    so the WordDetail has a [translation] field exactly when the payload
    has one, and never when the payload conforms to the schema sent. *)
Theorem translation_follows_payload (rt : GeminiService.Runtime)
  (t : jsString) (l : Language) (d : WordDetail) :
  GeminiService.getTermDetails rt t l l = GeminiService.Fulfilled (Some d) ->
  existsb (fun p => eqb (GeminiService.propertyName p) (lit "translation"))
    (GeminiService.properties (GeminiService.textResponseSchema t l l))
  = false
  /\ exists textResp raw v,
       GeminiService.generateContent rt (GeminiService.textRequest t l l)
         = GeminiService.Fulfilled textResp
       /\ GeminiService.text textResp = Some raw
       /\ GeminiService.JSON_parse rt (GeminiService.cleanJson (trim raw))
          = Some v
       /\ GeminiService.hasProperty d (lit "translation")
          = GeminiService.hasProperty
              (GeminiService.ownEnumerableProperties v) (lit "translation")
       /\ (conformsTo (GeminiService.textResponseSchema t l l) v ->
           GeminiService.hasProperty d (lit "translation") = false).
Proof.
  intros Hget.
  assert (Hschema :
    existsb (fun p => eqb (GeminiService.propertyName p) (lit "translation"))
      (GeminiService.properties (GeminiService.textResponseSchema t l l))
    = false).
  { unfold GeminiService.textResponseSchema.
    cbn [GeminiService.properties]. rewrite Language_eqb_refl.
    reflexivity. }
  split; [exact Hschema|].
  rewrite getTermDetails_catches in Hget.
  destruct (GeminiService.getTermDetails_try rt t l l) as [d'|e] eqn:Htry;
    [|discriminate].
  inversion Hget; subst d'.
  apply getTermDetails_try_Fulfilled in Htry
    as (textResp & audioResp & raw & v & _ & Ht & _ & Hr & Hv & ->).
  exists textResp, raw, v.
  destruct (mergeAudio_spec v (GeminiService.firstInlineData audioResp))
    as [_ Hrest].
  assert (Hsame :
    GeminiService.hasProperty
      (mergeAudio v (GeminiService.firstInlineData audioResp))
      (lit "translation")
    = GeminiService.hasProperty
        (GeminiService.ownEnumerableProperties v) (lit "translation")).
  { apply Hrest. intros H. vm_compute in H. discriminate. }
  repeat split; try assumption.
  intros Hconf. rewrite Hsame.
  destruct (GeminiService.hasProperty
              (GeminiService.ownEnumerableProperties v) (lit "translation"))
    eqn:Hhas; [|reflexivity].
  apply Hconf in Hhas. congruence.
Qed.

(** [translation_follows_payload] on a lookup of [hola] from English to
    English, whose payload has a definition and examples only. *)
Lemma translation_follows_payload_witness :
  GeminiService.getTermDetails
    (sampleRuntime (textResponse holaText) (audioResponse None))
    (lit "hola") ENGLISH ENGLISH
  = GeminiService.Fulfilled (Some (mergeAudio holaValue None))
  /\ GeminiService.hasProperty (mergeAudio holaValue None) (lit "translation")
     = false.
Proof.
  assert (Hget :
    GeminiService.getTermDetails
      (sampleRuntime (textResponse holaText) (audioResponse None))
      (lit "hola") ENGLISH ENGLISH
    = GeminiService.Fulfilled (Some (mergeAudio holaValue None)))
    by (vm_compute; reflexivity).
  split; [exact Hget|].
  destruct (translation_follows_payload _ _ _ _ Hget)
    as (_ & textResp & raw & v & Ht & Hr & Hv & _ & Hconf).
  apply Hconf.
  inversion Ht; subst textResp. inversion Hr; subst raw.
  vm_compute in Hv. inversion Hv; subst v.
  intros k Hk. unfold holaValue in Hk.
  cbn [GeminiService.hasProperty GeminiService.ownEnumerableProperties] in Hk.
  apply orb_true_iff in Hk as [Hk|Hk]; [apply eqb_eq in Hk; subst k|].
  { vm_compute. reflexivity. }
  apply orb_true_iff in Hk as [Hk|Hk]; [apply eqb_eq in Hk; subst k|].
  { vm_compute. reflexivity. }
  discriminate.
Defined.

(** C8 fails as stated: a provider response that carries a translation
    is merged as it is, also when source and target are both English. *)
Lemma translation_kept_for_same_language :
  exists d,
    GeminiService.getTermDetails
      (sampleRuntime (textResponse adiosText) (audioResponse None))
      (lit "adios") ENGLISH ENGLISH
    = GeminiService.Fulfilled (Some d)
    /\ GeminiService.hasProperty d (lit "translation") = true
    /\ GeminiService.getProperty d (lit "translation")
       = VString (lit "goodbye").
Proof. eexists. vm_compute. repeat split; reflexivity. Qed.

Lemma nth_error_middle {A} (l : list A) (a : A) (rest : list A) :
  nth_error (l ++ a :: rest) (length l) = Some a.
Proof. induction l as [|x l IH]; [reflexivity | exact IH]. Qed.

Lemma removeNth_middle {A} (l : list A) (a : A) (rest : list A) :
  App.removeNth (length l) (l ++ a :: rest) = l ++ rest.
Proof.
  induction l as [|x l IH]; [reflexivity|]. cbn. rewrite IH. reflexivity.
Qed.

Lemma existsb_false_filter {A} (f : A -> bool) (l : list A) :
  existsb f l = false -> filter f l = [].
Proof.
  induction l as [|x l IH]; [reflexivity|]. cbn.
  destruct (f x); [discriminate|]. exact IH.
Qed.

Lemma filter_nonempty_existsb {A} (f : A -> bool) (l : list A) :
  existsb f l = true -> filter f l <> [].
Proof.
  induction l as [|x l IH]; [discriminate|]. cbn.
  destruct (f x); [discriminate|]. exact IH.
Qed.

Lemma sameKey_new (t t' : jsString) (l l' tl : Language) (d : WordDetail)
  (now : Z) :
  App.sameKey t' l' (mkSavedWord t l tl d now) = true <-> t = t' /\ l = l'.
Proof.
  unfold App.sameKey. cbn [term sourceLanguage].
  rewrite andb_true_iff, eqb_eq, Language_eqb_eq. tauto.
Qed.

Lemma filter_filter_length {A} (f g : A -> bool) (l : list A) :
  (length (filter f (filter g l)) <= length (filter f l))%nat.
Proof.
  induction l as [|x l IH]; [apply Nat.le_refl|]. cbn.
  destruct (g x), (f x) eqn:Ef; cbn; rewrite ?Ef; cbn; lia.
Qed.

(** Appending an entry under a key that is not there keeps keys unique. *)
Lemma uniqueKeys_save (saved : list SavedWord) (t : jsString)
  (l tl : Language) (d : WordDetail) (now : Z) :
  uniqueKeys saved ->
  existsb (App.sameKey t l) saved = false ->
  uniqueKeys (saved ++ [mkSavedWord t l tl d now]).
Proof.
  intros Huniq Hnew t' l'. unfold keyCount.
  rewrite filter_app, length_app. cbn [filter].
  destruct (App.sameKey t' l' (mkSavedWord t l tl d now)) eqn:E.
  - apply sameKey_new in E as [<- <-].
    rewrite (existsb_false_filter _ _ Hnew). cbn. lia.
  - cbn. specialize (Huniq t' l'). unfold keyCount in Huniq. lia.
Qed.

Lemma uniqueKeys_remove (saved : list SavedWord) (g : SavedWord -> bool) :
  uniqueKeys saved -> uniqueKeys (filter g saved).
Proof.
  intros Huniq t l. unfold keyCount.
  pose proof (filter_filter_length (App.sameKey t l) g saved).
  specialize (Huniq t l). unfold keyCount in Huniq. lia.
Qed.

Lemma handleSaveWord_uniqueKeys (now : Z) (s : App.AppState) :
  uniqueKeys (App.savedWords s) ->
  uniqueKeys (App.savedWords (App.handleSaveWord now s)).
Proof.
  intros H. unfold App.handleSaveWord.
  destruct (App.selectedTerm s) as [t|]; [|exact H].
  destruct (App.wordDetails s) as [d|]; [|exact H].
  destruct (truthy t && negb (App.isLoading s)); [|exact H].
  destruct (existsb (App.sameKey t (App.effectiveSourceLanguage s))
              (App.savedWords s)) eqn:E; [exact H|].
  cbn. apply uniqueKeys_save; assumption.
Qed.

Section AppFacts.

Variable isLetterOrNumber : Z -> bool.
Variable toLowerCase : jsString -> jsString.
Variable rt : GeminiService.Runtime.

Notation step := (App.step isLetterOrNumber toLowerCase rt).
Notation run := (App.run isLetterOrNumber toLowerCase rt).
Notation reachable := (App.reachable isLetterOrNumber toLowerCase rt).
Notation initialState := (App.initialState isLetterOrNumber toLowerCase).

(** A property of the first state that every event preserves holds in
    every reachable state. *)
Lemma reachable_ind (P : App.AppState -> Prop) :
  P initialState ->
  (forall s ev, P s -> P (step s ev)) ->
  forall s, reachable s -> P s.
Proof.
  intros Hinit Hstep s [evs <-]. unfold App.run.
  generalize dependent initialState.
  induction evs as [|ev evs IH]; intros s0 H0; cbn [fold_left].
  - exact H0.
  - apply IH. apply Hstep. exact H0.
Qed.

Lemma reachable_step (s : App.AppState) (ev : App.Event) :
  reachable s -> reachable (step s ev).
Proof.
  intros [evs <-]. exists (evs ++ [ev]).
  unfold App.run. rewrite fold_left_app. reflexivity.
Qed.

Lemma setInputText_frame (v : jsString) (s : App.AppState) :
  App.savedWords (App.setInputText isLetterOrNumber toLowerCase v s)
  = App.savedWords s
  /\ sameDetection s (App.setInputText isLetterOrNumber toLowerCase v s).
Proof.
  unfold App.setInputText, App.tokenizationEffect, sameDetection.
  destruct (eqb v (App.inputText s)); [repeat split|].
  destruct (negb (truthy (App.inputText (App.setInputText_ v s))));
    repeat split.
Qed.

Lemma handleTermClick_frame (t : jsString) (sl tl : Language)
  (s : App.AppState) :
  App.savedWords (App.handleTermClick t sl tl s) = App.savedWords s
  /\ sameDetection s (App.handleTermClick t sl tl s).
Proof. repeat split. Qed.

Lemma handleTermClick_resume_frame
  (r : GeminiService.Settled (option WordDetail)) (s : App.AppState) :
  App.savedWords (App.handleTermClick_resume r s) = App.savedWords s
  /\ sameDetection s (App.handleTermClick_resume r s).
Proof. destruct r as [[d|]|e]; repeat split. Qed.

Lemma handleMouseUp_frame (ctx : App.MouseUpContext) (s : App.AppState) :
  App.savedWords (App.handleMouseUp ctx s) = App.savedWords s
  /\ sameDetection s (App.handleMouseUp ctx s).
Proof.
  unfold App.handleMouseUp.
  destruct (App.mouseUpAction (App.processedTextParts s) ctx);
    [repeat split | apply handleTermClick_frame].
Qed.

Lemma handleSaveWord_sameDetection (now : Z) (s : App.AppState) :
  sameDetection s (App.handleSaveWord now s).
Proof.
  unfold App.handleSaveWord.
  destruct (App.selectedTerm s) as [t|]; [|repeat split].
  destruct (App.wordDetails s) as [d|]; [|repeat split].
  destruct (truthy t && negb (App.isLoading s)); [|repeat split].
  destruct (negb (existsb (App.sameKey t (App.effectiveSourceLanguage s))
                    (App.savedWords s)));
    repeat split.
Qed.

(** What each event does to the saved words and to the detection
    indicator: only a save and a removal touch the former, only the Clear
    button, the timer and the settling of a detection call the latter. *)
Lemma step_frame (s : App.AppState) (ev : App.Event) :
  match ev with
  | App.RemoveClick _ | App.SaveClick _ => True
  | _ => App.savedWords (step s ev) = App.savedWords s
  end
  /\ match ev with
     | App.ClearTextClick => App.isDetectingLanguage (step s ev) = false
     | App.DebounceTimeout | App.DetectLanguageSettled _ => True
     | _ => sameDetection s (step s ev)
     end.
Proof.
  destruct ev; cbn [App.step].
  - apply setInputText_frame.
  - split; [|reflexivity].
    unfold App.clearInput.
    change (App.savedWords
              (App.setInputText isLetterOrNumber toLowerCase [] s)
            = App.savedWords s).
    apply setInputText_frame.
  - repeat split.
  - destruct (App.clickableTextShown s); [|repeat split].
    destruct (nth_error (App.processedTextParts s) index) as [part|];
      [|repeat split].
    destruct (type part); [|repeat split..].
    destruct (originalWord part); [|repeat split].
    apply handleTermClick_frame.
  - destruct (App.clickableTextShown s); [|repeat split].
    apply handleMouseUp_frame.
  - destruct (nth_error (App.savedWords s) k) as [[t sl tl d a]|];
      [|repeat split].
    apply handleTermClick_frame.
  - split; [exact I|].
    destruct (nth_error (App.savedWords s) k); repeat split.
  - split; [exact I|].
    destruct (App.detailCardShown s && negb (App.isCurrentTermSaved s));
      [|repeat split].
    apply handleSaveWord_sameDetection.
  - destruct (App.isModalOpen s); repeat split.
  - split; [|exact I].
    destruct (App.debounceTimer s) as [captured|]; [|reflexivity].
    unfold App.autoDetect.
    destruct (truthy (trim captured)); reflexivity.
  - split; [|exact I].
    destruct (App.detectionsInFlight s); reflexivity.
  - destruct (nth_error (App.lookupsInFlight s) k) as [call|];
      [|repeat split].
    apply (handleTermClick_resume_frame _
             (App.setLookupsInFlight
                (App.removeNth k (App.lookupsInFlight s)) s)).
Qed.

Lemma step_uniqueKeys (s : App.AppState) (ev : App.Event) :
  uniqueKeys (App.savedWords s) -> uniqueKeys (App.savedWords (step s ev)).
Proof.
  intros H. pose proof (step_frame s ev) as [Hsaved _].
  destruct ev; cbn beta iota in Hsaved;
    try (rewrite Hsaved; exact H); cbn [App.step].
  - destruct (nth_error (App.savedWords s) k); [|exact H].
    apply uniqueKeys_remove. exact H.
  - destruct (App.detailCardShown s && negb (App.isCurrentTermSaved s));
      [|exact H].
    apply handleSaveWord_uniqueKeys. exact H.
Qed.

Lemma reachable_uniqueKeys (s : App.AppState) :
  reachable s -> uniqueKeys (App.savedWords s).
Proof.
  revert s. apply (reachable_ind (fun s => uniqueKeys (App.savedWords s))).
  - intros t l. cbn. lia.
  - intros s0 ev. apply step_uniqueKeys.
Qed.

Lemma step_detectingMeansInFlight (s : App.AppState) (ev : App.Event) :
  detectingMeansInFlight s -> detectingMeansInFlight (step s ev).
Proof.
  unfold detectingMeansInFlight. intros H.
  pose proof (step_frame s ev) as [_ Hdet].
  destruct ev; cbn beta iota in Hdet;
    try (rewrite (proj1 Hdet), (proj2 Hdet); exact H).
  - rewrite Hdet. discriminate.
  - cbn [App.step].
    destruct (App.debounceTimer s) as [captured|]; [|exact H].
    unfold App.autoDetect.
    destruct (truthy (trim captured)); [intros _; cbn; lia | exact H].
  - cbn [App.step].
    destruct (App.detectionsInFlight s) eqn:E;
      [rewrite E; exact H | discriminate].
Qed.

Lemma reachable_detectingMeansInFlight (s : App.AppState) :
  reachable s -> detectingMeansInFlight s.
Proof.
  revert s. apply (reachable_ind detectingMeansInFlight).
  - intros H. cbn in H. discriminate.
  - intros s0 ev. apply step_detectingMeansInFlight.
Qed.

(** The displayed error after an event is the one before, none, or the
    malformed-response message. *)
Lemma step_error (s : App.AppState) (ev : App.Event) :
  App.error (step s ev) = App.error s
  \/ App.error (step s ev) = None
  \/ App.error (step s ev) = Some App.malformedMessage.
Proof.
  destruct ev; cbn [App.step].
  - left. unfold App.setInputText, App.tokenizationEffect.
    destruct (eqb newValue (App.inputText s)); [reflexivity|].
    destruct (negb (truthy (App.inputText (App.setInputText_ newValue s))));
      reflexivity.
  - right. left. reflexivity.
  - left. reflexivity.
  - destruct (App.clickableTextShown s); [|left; reflexivity].
    destruct (nth_error (App.processedTextParts s) index) as [part|];
      [|left; reflexivity].
    destruct (type part); [|left; reflexivity..].
    destruct (originalWord part); [|left; reflexivity].
    right. left. reflexivity.
  - destruct (App.clickableTextShown s); [|left; reflexivity].
    unfold App.handleMouseUp.
    destruct (App.mouseUpAction (App.processedTextParts s) ctx);
      [left; reflexivity | right; left; reflexivity].
  - destruct (nth_error (App.savedWords s) k) as [[t sl tl d a]|];
      [right; left; reflexivity | left; reflexivity].
  - left. destruct (nth_error (App.savedWords s) k); reflexivity.
  - left.
    destruct (App.detailCardShown s && negb (App.isCurrentTermSaved s));
      [|reflexivity].
    unfold App.handleSaveWord.
    destruct (App.selectedTerm s) as [t|]; [|reflexivity].
    destruct (App.wordDetails s) as [d|]; [|reflexivity].
    destruct (truthy t && negb (App.isLoading s)); [|reflexivity].
    destruct (negb (existsb (App.sameKey t (App.effectiveSourceLanguage s))
                      (App.savedWords s)));
      reflexivity.
  - destruct (App.isModalOpen s); [right; left; reflexivity | left; reflexivity].
  - left. destruct (App.debounceTimer s) as [captured|]; [|reflexivity].
    unfold App.autoDetect. destruct (truthy (trim captured)); reflexivity.
  - left. destruct (App.detectionsInFlight s); reflexivity.
  - destruct (nth_error (App.lookupsInFlight s) k) as [call|];
      [|left; reflexivity].
    rewrite getTermDetails_catches.
    destruct (GeminiService.getTermDetails_try rt (App.callTerm call)
                (App.callSourceLang call) (App.callTargetLang call));
      [left; reflexivity | right; right; reflexivity].
Qed.

Lemma reachable_error_not_unexpected (s : App.AppState) :
  reachable s -> App.error s <> Some App.unexpectedMessage.
Proof.
  revert s.
  apply (reachable_ind
           (fun s => App.error s <> Some App.unexpectedMessage)).
  - cbn. discriminate.
  - intros s ev H. destruct (step_error s ev) as [E | [E | E]]; rewrite E.
    + exact H.
    + discriminate.
    + intros H'. inversion H'.
Qed.

End AppFacts.

(* ===================================================================== *)
(** ** The lookup coordinator *)
(* ===================================================================== *)

Lemma getTermDetails_try_Rejected_cases (rt : GeminiService.Runtime)
  (t : jsString) (sl tl : Language) :
  (truthyOpt (GeminiService.API_KEY rt) = false
   \/ (exists e,
         GeminiService.generateContent rt (GeminiService.textRequest t sl tl)
         = GeminiService.Rejected e)
   \/ (exists e,
         GeminiService.generateContent rt (GeminiService.audioRequest t)
         = GeminiService.Rejected e)
   \/ (exists resp,
         GeminiService.generateContent rt (GeminiService.textRequest t sl tl)
         = GeminiService.Fulfilled resp
         /\ (GeminiService.text resp = None
             \/ exists raw,
                  GeminiService.text resp = Some raw
                  /\ GeminiService.JSON_parse rt
                       (GeminiService.cleanJson (trim raw)) = None))) ->
  exists e, GeminiService.getTermDetails_try rt t sl tl
            = GeminiService.Rejected e.
Proof.
  unfold GeminiService.getTermDetails_try, GeminiService.getGeminiClient.
  intros H.
  destruct (truthyOpt (GeminiService.API_KEY rt)) eqn:Hk;
    cbn [negb GeminiService.bind]; [|eexists; reflexivity].
  destruct H as [H | H]; [discriminate|].
  destruct (GeminiService.generateContent rt
              (GeminiService.textRequest t sl tl)) as [textResp|e1] eqn:Ht;
    [|eexists; reflexivity].
  destruct (GeminiService.generateContent rt (GeminiService.audioRequest t))
    as [audioResp|e2] eqn:Ha; [|eexists; reflexivity].
  cbn [GeminiService.Promise_all GeminiService.bind].
  destruct H as [[e H] | [[e H] | (resp & Hresp & H)]]; try discriminate.
  inversion Hresp; subst resp.
  destruct H as [H | (raw & Hraw & Hparse)].
  - rewrite H. eexists; reflexivity.
  - rewrite Hraw. cbn [GeminiService.bind]. rewrite Hparse.
    eexists; reflexivity.
Qed.

(** C6, as the code has it.  [getTermDetails] never rejects.  It
    returns [null] when the key is missing, when the text call or the audio
    call raises an exception, when the text response has no text and when
    the text does not parse; in each of these cases the coordinator sets
    the one message it has for [null], the malformed-response message, and
    leaves the displayed details alone.  When [getTermDetails] returns
    details, they are displayed and no error is set.  The message of the
    coordinator's own [catch] block is a different one, and no lookup
    sets it: in no reachable state is it the displayed error. *)
Theorem every_failure_sets_malformed_message (isLetterOrNumber : Z -> bool)
  (toLowerCase : jsString -> jsString) (rt : GeminiService.Runtime)
  (t : jsString) (sl tl : Language) (st : App.AppState) :
  let r := GeminiService.getTermDetails rt t sl tl in
  let st' := App.handleTermClick_resume r st in
  (exists o, r = GeminiService.Fulfilled o)
  /\ (r = GeminiService.Fulfilled None ->
      App.error st' = Some App.malformedMessage
      /\ App.wordDetails st' = App.wordDetails st)
  /\ (forall d, r = GeminiService.Fulfilled (Some d) ->
      App.wordDetails st' = Some d /\ App.error st' = App.error st)
  /\ App.isLoading st' = false
  /\ (truthyOpt (GeminiService.API_KEY rt) = false ->
      r = GeminiService.Fulfilled None)
  /\ (forall e,
        GeminiService.generateContent rt (GeminiService.textRequest t sl tl)
        = GeminiService.Rejected e ->
        r = GeminiService.Fulfilled None)
  /\ (forall e,
        GeminiService.generateContent rt (GeminiService.audioRequest t)
        = GeminiService.Rejected e ->
        r = GeminiService.Fulfilled None)
  /\ (forall resp,
        GeminiService.generateContent rt (GeminiService.textRequest t sl tl)
        = GeminiService.Fulfilled resp ->
        GeminiService.text resp = None ->
        r = GeminiService.Fulfilled None)
  /\ (forall resp raw,
        GeminiService.generateContent rt (GeminiService.textRequest t sl tl)
        = GeminiService.Fulfilled resp ->
        GeminiService.text resp = Some raw ->
        GeminiService.JSON_parse rt (GeminiService.cleanJson (trim raw))
        = None ->
        r = GeminiService.Fulfilled None)
  /\ App.malformedMessage <> App.unexpectedMessage
  /\ (App.error st <> Some App.unexpectedMessage ->
      App.error st' <> Some App.unexpectedMessage)
  /\ (forall s, App.reachable isLetterOrNumber toLowerCase rt s ->
      App.error s <> Some App.unexpectedMessage).
Proof.
  intros r st'.
  assert (Hfail :
    (exists e, GeminiService.getTermDetails_try rt t sl tl
               = GeminiService.Rejected e) ->
    r = GeminiService.Fulfilled None).
  { intros [e He]. subst r. rewrite getTermDetails_catches, He.
    reflexivity. }
  assert (Hdiff : App.malformedMessage <> App.unexpectedMessage)
    by (intros H; vm_compute in H; discriminate).
  assert (Hr : exists o, r = GeminiService.Fulfilled o).
  { subst r. rewrite getTermDetails_catches.
    destruct (GeminiService.getTermDetails_try rt t sl tl);
      eexists; reflexivity. }
  split; [exact Hr|].
  split; [intros H; subst st'; rewrite H; split; reflexivity|].
  split; [intros d H; subst st'; rewrite H; split; reflexivity|].
  split; [subst st'; destruct r as [[d|]|e]; reflexivity|].
  split.
  { intros Hk. apply Hfail, getTermDetails_try_Rejected_cases. tauto. }
  split.
  { intros e He. apply Hfail, getTermDetails_try_Rejected_cases. eauto. }
  split.
  { intros e He. apply Hfail, getTermDetails_try_Rejected_cases. eauto. }
  split.
  { intros resp Hresp Htext.
    apply Hfail, getTermDetails_try_Rejected_cases.
    right. right. right. exists resp. split; [assumption|].
    left. assumption. }
  split.
  { intros resp raw Hresp Htext Hparse.
    apply Hfail, getTermDetails_try_Rejected_cases.
    right. right. right. exists resp. split; [assumption|].
    right. exists raw. split; assumption. }
  split; [exact Hdiff|].
  split; [|intros s Hs; apply (reachable_error_not_unexpected _ _ _ _ Hs)].
  intros Hst. subst st'. destruct Hr as [[d|] ->]; cbn.
  - exact Hst.
  - intros H. inversion H.
Qed.

(** [every_failure_sets_malformed_message] on a lookup whose text call
    raises a network error. *)
Lemma every_failure_sets_malformed_message_witness :
  GeminiService.getTermDetails
    (sampleRuntime (GeminiService.Rejected networkError) (audioResponse None))
    (lit "hola") SPANISH ENGLISH
  = GeminiService.Fulfilled None.
Proof.
  pose proof (every_failure_sets_malformed_message
                asciiLetterOrDigit asciiToLowerCase
                (sampleRuntime (GeminiService.Rejected networkError)
                   (audioResponse None))
                (lit "hola") SPANISH ENGLISH
                (sampleRun (sampleRuntime
                              (GeminiService.Rejected networkError)
                              (audioResponse None)) []))
    as (_ & _ & _ & _ & _ & Htext & _).
  apply (Htext networkError). reflexivity.
Defined.

(** C6 fails as stated.  A network exception of the provider is not
    reported through the coordinator's [catch] block: [getTermDetails]
    swallows it and the user sees the malformed-response message.  And a
    payload that parses but has none of the required fields is not a
    failure at all: it is displayed. *)
Lemma provider_exception_is_reported_as_malformed :
  let failing := sampleRuntime (GeminiService.Rejected networkError)
                   (audioResponse None) in
  let empty := sampleRuntime (textResponse (lit "{}")) (audioResponse None) in
  let lookup := [App.TextAreaChange (lit "hola"); App.WordClick 0;
                 App.GetTermDetailsSettled 0] in
  App.error (sampleRun failing lookup) = Some App.malformedMessage
  /\ App.error (sampleRun failing lookup) <> Some App.unexpectedMessage
  /\ App.error (sampleRun empty lookup) = None
  /\ App.wordDetails (sampleRun empty lookup)
     = Some [(lit "audioBase64", VUndefined)].
Proof.
  vm_compute. repeat split; try reflexivity. discriminate.
Qed.

(** Every sample run ends in a reachable state. *)
Lemma sampleRun_reachable (rt : GeminiService.Runtime)
  (evs : list App.Event) :
  App.reachable asciiLetterOrDigit asciiToLowerCase rt (sampleRun rt evs).
Proof. exists evs. reflexivity. Qed.

(** C1, as the code has it.  When a lookup for B is started while the
    lookup for A is still pending, A's result is applied when it arrives
    like any other, with no look at the key it was issued for: the
    selected term stays B, the loading indicator is switched off, A's
    details become the displayed details (or A's failure the displayed
    error), and B's call is still in flight.  Saving then stores A's
    details under B's term. *)
Theorem stale_lookup_result_is_applied (isLetterOrNumber : Z -> bool)
  (toLowerCase : jsString -> jsString) (rt : GeminiService.Runtime)
  (st : App.AppState) (A B : jsString) (sA tA sB tB : Language) :
  let started := App.handleTermClick B sB tB (App.handleTermClick A sA tA st) in
  let k := length (App.lookupsInFlight st) in
  let st' := App.step isLetterOrNumber toLowerCase rt started
               (App.GetTermDetailsSettled k) in
  App.selectedTerm started = Some B
  /\ App.selectedTerm st' = Some B
  /\ App.isLoading st' = false
  /\ App.lookupsInFlight st' = App.lookupsInFlight st ++ [App.mkCall B sB tB]
  /\ match GeminiService.getTermDetails rt A sA tA with
     | GeminiService.Fulfilled (Some d) =>
         App.wordDetails st' = Some d /\ App.error st' = None
         /\ forall now,
              truthy B = true ->
              existsb (App.sameKey B (App.effectiveSourceLanguage st))
                (App.savedWords st) = false ->
              App.savedWords (App.handleSaveWord now st')
              = App.savedWords st
                  ++ [mkSavedWord B (App.effectiveSourceLanguage st)
                        (App.targetLanguage st) d now]
     | GeminiService.Fulfilled None =>
         App.wordDetails st' = None
         /\ App.error st' = Some App.malformedMessage
     | GeminiService.Rejected _ =>
         App.wordDetails st' = None
         /\ App.error st' = Some App.unexpectedMessage
     end.
Proof.
  intros started k st'.
  assert (Hcalls :
    App.lookupsInFlight started
    = App.lookupsInFlight st
        ++ App.mkCall A sA tA :: [App.mkCall B sB tB]).
  { subst started. unfold App.handleTermClick.
    cbn [App.lookupsInFlight App.setLookupsInFlight App.setError
         App.setIsLoading App.setIsModalOpen App.setWordDetails
         App.setSelectedTerm].
    rewrite <- app_assoc. reflexivity. }
  assert (Hst' :
    st' = App.handleTermClick_resume
            (GeminiService.getTermDetails rt A sA tA)
            (App.setLookupsInFlight
               (App.lookupsInFlight st ++ [App.mkCall B sB tB]) started)).
  { subst st' k. cbn [App.step].
    rewrite Hcalls, nth_error_middle, removeNth_middle. reflexivity. }
  rewrite Hst'. clear Hst' Hcalls. subst started.
  split; [reflexivity|].
  destruct (GeminiService.getTermDetails rt A sA tA) as [[d|]|e];
    repeat split.
  intros now HB Hnew. unfold App.handleSaveWord.
  cbn [App.handleTermClick_resume App.handleTermClick App.selectedTerm
       App.wordDetails App.isLoading App.savedWords App.targetLanguage
       App.setLookupsInFlight App.setError App.setIsLoading
       App.setIsModalOpen App.setWordDetails App.setSelectedTerm
       App.setSavedWords].
  rewrite HB. cbn [negb andb].
  unfold App.effectiveSourceLanguage in *.
  cbn [App.handleTermClick_resume App.handleTermClick
       App.detectedSourceLanguage App.savedWords
       App.setLookupsInFlight App.setError App.setIsLoading
       App.setIsModalOpen App.setWordDetails App.setSelectedTerm
       App.setSavedWords].
  rewrite Hnew. reflexivity.
Qed.

(** [stale_lookup_result_is_applied] on lookups of [hola] and then
    [adios]: the details of [hola] are saved under [adios]. *)
Lemma stale_lookup_result_is_applied_witness :
  let st := sampleRun dictionaryRuntime
              [App.TextAreaChange (lit "hola adios")] in
  let started :=
    App.handleTermClick (lit "adios") ENGLISH ENGLISH
      (App.handleTermClick (lit "hola") ENGLISH ENGLISH st) in
  let st' := App.step asciiLetterOrDigit asciiToLowerCase dictionaryRuntime
               started (App.GetTermDetailsSettled 0) in
  App.selectedTerm st' = Some (lit "adios")
  /\ App.savedWords (App.handleSaveWord 1000 st')
     = [mkSavedWord (lit "adios") ENGLISH ENGLISH
          (mergeAudio holaValue None) 1000].
Proof.
  pose proof (stale_lookup_result_is_applied
                asciiLetterOrDigit asciiToLowerCase dictionaryRuntime
                (sampleRun dictionaryRuntime
                   [App.TextAreaChange (lit "hola adios")])
                (lit "hola") (lit "adios") ENGLISH ENGLISH ENGLISH ENGLISH)
    as (_ & Hsel & _ & _ & H).
  split; [exact Hsel|].
  assert (Hget :
    GeminiService.getTermDetails dictionaryRuntime (lit "hola") ENGLISH ENGLISH
    = GeminiService.Fulfilled (Some (mergeAudio holaValue None)))
    by (vm_compute; reflexivity).
  rewrite Hget in H. destruct H as (_ & _ & Hsave).
  apply (Hsave 1000); reflexivity.
Defined.

(** C1 fails as stated.  The user looks up [hola], closes the dialog
    and looks up [adios] while the first call is pending; the first call
    then settles.  The dialog for [adios] shows the details of [hola], and
    the save button stores them under [adios], all while the call for
    [adios] is still in flight. *)
Lemma stale_details_shown_and_saved :
  let shown :=
    sampleRun dictionaryRuntime
      [App.TextAreaChange (lit "hola adios"); App.WordClick 0;
       App.ModalClose; App.WordClick 2; App.GetTermDetailsSettled 0] in
  let saved :=
    App.step asciiLetterOrDigit asciiToLowerCase dictionaryRuntime shown
      (App.SaveClick 1000) in
  GeminiService.getTermDetails dictionaryRuntime (lit "hola") ENGLISH ENGLISH
  = GeminiService.Fulfilled (Some (mergeAudio holaValue None))
  /\ App.selectedTerm shown = Some (lit "adios")
  /\ App.lookupsInFlight shown = [App.mkCall (lit "adios") ENGLISH ENGLISH]
  /\ App.wordDetails shown = Some (mergeAudio holaValue None)
  /\ App.detailCardShown shown = true
  /\ App.savedWords saved
     = [mkSavedWord (lit "adios") ENGLISH ENGLISH
          (mergeAudio holaValue None) 1000].
Proof. vm_compute. repeat split; reflexivity. Qed.

(** C7, as the code has it.  When the input text becomes empty, the
    detected language is set to [null] and the pending debounce schedule is
    replaced by one for the empty text, which issues no detection call when
    it fires and only sets the detected language to [null] again.  The
    detecting indicator and the calls in flight are left as they are; so
    the detection state is [(null, false)] if no detection call is
    outstanding at that moment.  The Clear button sets [(null, false)]
    in every case. *)
Theorem emptying_input_resets_detected_language
  (isLetterOrNumber : Z -> bool) (toLowerCase : jsString -> jsString)
  (rt : GeminiService.Runtime) (st : App.AppState) :
  App.reachable isLetterOrNumber toLowerCase rt st ->
  App.inputText st <> [] ->
  let st' := App.step isLetterOrNumber toLowerCase rt st
               (App.TextAreaChange []) in
  let fired := App.step isLetterOrNumber toLowerCase rt st'
                 App.DebounceTimeout in
  let cleared := App.step isLetterOrNumber toLowerCase rt st
                   App.ClearTextClick in
  App.inputText st' = []
  /\ App.detectedSourceLanguage st' = None
  /\ App.debounceTimer st' = Some []
  /\ App.isDetectingLanguage st' = App.isDetectingLanguage st
  /\ App.detectionsInFlight st' = App.detectionsInFlight st
  /\ (App.detectionsInFlight st = 0%nat ->
      App.isDetectingLanguage st' = false)
  /\ App.debounceTimer fired = None
  /\ App.detectedSourceLanguage fired = None
  /\ App.isDetectingLanguage fired = App.isDetectingLanguage st
  /\ App.detectionsInFlight fired = App.detectionsInFlight st
  /\ App.inputText cleared = []
  /\ App.detectedSourceLanguage cleared = None
  /\ App.isDetectingLanguage cleared = false
  /\ App.debounceTimer cleared = Some [].
Proof.
  intros Hreach Hne st' fired cleared.
  apply reachable_detectingMeansInFlight in Hreach.
  assert (Hchange : eqb [] (App.inputText st) = false).
  { apply eqb_neq. congruence. }
  subst fired cleared st'. cbn [App.step].
  unfold App.clearInput, App.setInputText. rewrite Hchange.
  unfold App.tokenizationEffect, App.detectionEffect. cbn.
  repeat split.
  intros Hnone. unfold detectingMeansInFlight in Hreach.
  destruct (App.isDetectingLanguage st); [|reflexivity].
  specialize (Hreach eq_refl). lia.
Qed.

(** [emptying_input_resets_detected_language] after typing [hola]. *)
Lemma emptying_input_resets_detected_language_witness :
  let st := sampleRun dictionaryRuntime [App.TextAreaChange (lit "hola")] in
  let st' := App.step asciiLetterOrDigit asciiToLowerCase dictionaryRuntime
               st (App.TextAreaChange []) in
  App.detectedSourceLanguage st' = None
  /\ App.isDetectingLanguage st' = false.
Proof.
  pose proof (emptying_input_resets_detected_language
                asciiLetterOrDigit asciiToLowerCase dictionaryRuntime
                (sampleRun dictionaryRuntime
                   [App.TextAreaChange (lit "hola")])) as H.
  destruct H as (_ & Hlang & _ & _ & _ & Hidle & _).
  - apply sampleRun_reachable.
  - vm_compute. discriminate.
  - split; [exact Hlang | apply Hidle; reflexivity].
Defined.

(** C7 fails as stated.  The user types [hola], the timer fires and a
    detection call goes out; the user then deletes the text.  The input is
    empty and the indicator still says detecting; when the call settles,
    its answer is applied, and the input is empty with Spanish
    detected. *)
Lemma detection_result_applied_to_empty_input :
  let emptied :=
    sampleRun dictionaryRuntime
      [App.TextAreaChange (lit "hola"); App.DebounceTimeout;
       App.TextAreaChange []] in
  let settled :=
    App.step asciiLetterOrDigit asciiToLowerCase dictionaryRuntime emptied
      (App.DetectLanguageSettled (Some SPANISH)) in
  App.inputText emptied = []
  /\ App.isDetectingLanguage emptied = true
  /\ App.inputText settled = []
  /\ App.detectedSourceLanguage settled = Some SPANISH.
Proof. vm_compute. repeat split; reflexivity. Qed.

(* ===================================================================== *)
(** ** The saved words *)
(* ===================================================================== *)

(** What [handleSaveWord] does when it can save and the key is new. *)
Lemma handleSaveWord_new (st : App.AppState) (t : jsString) (d : WordDetail)
  (now : Z) :
  App.selectedTerm st = Some t -> truthy t = true ->
  App.wordDetails st = Some d -> App.isLoading st = false ->
  existsb (App.sameKey t (App.effectiveSourceLanguage st)) (App.savedWords st)
    = false ->
  App.savedWords (App.handleSaveWord now st)
  = App.savedWords st
      ++ [mkSavedWord t (App.effectiveSourceLanguage st)
            (App.targetLanguage st) d now].
Proof.
  intros Ht Htruthy Hd Hload Hnew. unfold App.handleSaveWord.
  rewrite Ht, Hd, Htruthy, Hload, Hnew. reflexivity.
Qed.

(** What it does when the key is there already: nothing. *)
Lemma handleSaveWord_present (st : App.AppState) (t : jsString) (now : Z) :
  App.selectedTerm st = Some t ->
  existsb (App.sameKey t (App.effectiveSourceLanguage st)) (App.savedWords st)
    = true ->
  App.handleSaveWord now st = st.
Proof.
  intros Ht Hold. unfold App.handleSaveWord. rewrite Ht, Hold.
  destruct (App.wordDetails st); [|reflexivity].
  destruct (truthy t && negb (App.isLoading st)); reflexivity.
Qed.

(** A save changes the saved words only. *)
Lemma handleSaveWord_frame (now : Z) (st : App.AppState) :
  App.selectedTerm (App.handleSaveWord now st) = App.selectedTerm st
  /\ App.effectiveSourceLanguage (App.handleSaveWord now st)
     = App.effectiveSourceLanguage st.
Proof.
  unfold App.handleSaveWord.
  destruct (App.selectedTerm st) as [t|] eqn:Et;
    [|split; [exact Et | reflexivity]].
  destruct (App.wordDetails st) as [d|]; [|split; [exact Et | reflexivity]].
  destruct (truthy t && negb (App.isLoading st));
    [|split; [exact Et | reflexivity]].
  destruct (negb (existsb (App.sameKey t (App.effectiveSourceLanguage st))
                    (App.savedWords st)));
    split; [exact Et | reflexivity | exact Et | reflexivity].
Qed.

(** C9. In every reachable state in which a term is selected and its
    details are displayed, saving and then saving again under the same
    term and source language (whatever details are displayed by then, and
    at whatever time) leaves the saved words as the first save left them,
    with exactly one entry under that key: the entry that was there
    before, or else the one the first save made, with the details and the
    time of the first save.  And no reachable state ever holds two entries
    under one key. *)
Theorem save_twice_keeps_first_entry (isLetterOrNumber : Z -> bool)
  (toLowerCase : jsString -> jsString) (rt : GeminiService.Runtime)
  (st : App.AppState) (t : jsString) (d d2 : WordDetail) (now1 now2 : Z) :
  App.reachable isLetterOrNumber toLowerCase rt st ->
  App.selectedTerm st = Some t -> truthy t = true ->
  App.wordDetails st = Some d -> App.isLoading st = false ->
  let l := App.effectiveSourceLanguage st in
  let st1 := App.handleSaveWord now1 st in
  let st2 := App.handleSaveWord now2 (App.setWordDetails (Some d2) st1) in
  App.savedWords st2 = App.savedWords st1
  /\ keyCount t l (App.savedWords st2) = 1%nat
  /\ (existsb (App.sameKey t l) (App.savedWords st) = false ->
      filter (App.sameKey t l) (App.savedWords st2)
      = [mkSavedWord t l (App.targetLanguage st) d now1])
  /\ (existsb (App.sameKey t l) (App.savedWords st) = true ->
      App.savedWords st2 = App.savedWords st)
  /\ uniqueKeys (App.savedWords st2)
  /\ (forall s, App.reachable isLetterOrNumber toLowerCase rt s ->
      uniqueKeys (App.savedWords s)).
Proof.
  intros Hreach Ht Htruthy Hd Hload l st1 st2.
  pose proof (reachable_uniqueKeys _ _ _ _ Hreach) as Huniq.
  destruct (handleSaveWord_frame now1 st) as [Hsel1 Heff1].
  fold st1 in Hsel1, Heff1. fold l in Heff1.
  assert (Hthere : existsb (App.sameKey t l) (App.savedWords st1) = true).
  { subst st1 l.
    destruct (existsb (App.sameKey t (App.effectiveSourceLanguage st))
                (App.savedWords st)) eqn:E.
    - rewrite (handleSaveWord_present st t now1 Ht E). exact E.
    - rewrite (handleSaveWord_new st t d now1) by assumption.
      rewrite existsb_app. cbn [existsb].
      replace (App.sameKey t (App.effectiveSourceLanguage st)
                 (mkSavedWord t (App.effectiveSourceLanguage st)
                    (App.targetLanguage st) d now1)) with true.
      + rewrite orb_true_r. reflexivity.
      + symmetry. apply sameKey_new. split; reflexivity. }
  assert (Hsame : App.savedWords st2 = App.savedWords st1).
  { subst st2.
    rewrite (handleSaveWord_present (App.setWordDetails (Some d2) st1) t now2).
    - reflexivity.
    - change (App.selectedTerm st1 = Some t). congruence.
    - change (existsb (App.sameKey t (App.effectiveSourceLanguage st1))
                (App.savedWords st1) = true).
      rewrite Heff1. exact Hthere. }
  assert (Huniq1 : uniqueKeys (App.savedWords st1))
    by (apply handleSaveWord_uniqueKeys; exact Huniq).
  rewrite Hsame. repeat split.
  - pose proof (Huniq1 t l) as Hle.
    pose proof (filter_nonempty_existsb _ _ Hthere) as Hne.
    unfold keyCount in *.
    destruct (filter (App.sameKey t l) (App.savedWords st1));
      [contradiction | cbn in *; lia].
  - intros Hnew. subst st1 l.
    rewrite (handleSaveWord_new st t d now1) by assumption.
    rewrite filter_app, (existsb_false_filter _ _ Hnew). cbn [filter app].
    replace (App.sameKey t (App.effectiveSourceLanguage st)
               (mkSavedWord t (App.effectiveSourceLanguage st)
                  (App.targetLanguage st) d now1)) with true;
      [reflexivity|].
    symmetry. apply sameKey_new. split; reflexivity.
  - intros Hold. subst st1 l.
    rewrite (handleSaveWord_present st t now1 Ht Hold). reflexivity.
  - exact Huniq1.
  - intros s Hs. apply (reachable_uniqueKeys _ _ _ _ Hs).
Qed.

(** [save_twice_keeps_first_entry] after a lookup of [hola]. *)
Lemma save_twice_keeps_first_entry_witness :
  let st := sampleRun dictionaryRuntime
              [App.TextAreaChange (lit "hola"); App.WordClick 0;
               App.GetTermDetailsSettled 0] in
  let st1 := App.handleSaveWord 1000 st in
  let st2 := App.handleSaveWord 2000
               (App.setWordDetails (Some (mergeAudio adiosValue None)) st1) in
  filter (App.sameKey (lit "hola") ENGLISH) (App.savedWords st2)
  = [mkSavedWord (lit "hola") ENGLISH ENGLISH (mergeAudio holaValue None)
       1000].
Proof.
  pose proof (save_twice_keeps_first_entry
                asciiLetterOrDigit asciiToLowerCase dictionaryRuntime
                (sampleRun dictionaryRuntime
                   [App.TextAreaChange (lit "hola"); App.WordClick 0;
                    App.GetTermDetailsSettled 0])
                (lit "hola") (mergeAudio holaValue None)
                (mergeAudio adiosValue None) 1000 2000) as H.
  destruct H as (_ & _ & Hfirst & _).
  - apply sampleRun_reachable.
  - vm_compute. reflexivity.
  - vm_compute. reflexivity.
  - vm_compute. reflexivity.
  - vm_compute. reflexivity.
  - assert (Hnew :
      existsb
        (App.sameKey (lit "hola")
           (App.effectiveSourceLanguage
              (sampleRun dictionaryRuntime
                 [App.TextAreaChange (lit "hola"); App.WordClick 0;
                  App.GetTermDetailsSettled 0])))
        (App.savedWords
           (sampleRun dictionaryRuntime
              [App.TextAreaChange (lit "hola"); App.WordClick 0;
               App.GetTermDetailsSettled 0])) = false)
      by (vm_compute; reflexivity).
    specialize (Hfirst Hnew).
    vm_compute in Hfirst. vm_compute. exact Hfirst.
Defined.

(** C10. The source language of a saved entry, and of the duplicate
    check, is the effective source language of the moment of the save: the
    detected language, or English when none is detected.  It is not the
    language the lookup was issued with: if a lookup is issued with the
    effective language of its moment, a detection call then settles on
    another language, and the lookup then settles with details, a save
    stores those details, fetched for the first language, under the newly
    detected one. *)
Theorem saved_entry_uses_language_at_save_time
  (isLetterOrNumber : Z -> bool) (toLowerCase : jsString -> jsString)
  (rt : GeminiService.Runtime) (st : App.AppState) (t : jsString)
  (detected : Language) (d : WordDetail) (now : Z) :
  let issuedWith := App.effectiveSourceLanguage st in
  let st1 := App.handleTermClick t issuedWith (App.targetLanguage st) st in
  let st2 := App.step isLetterOrNumber toLowerCase rt st1
               (App.DetectLanguageSettled (Some detected)) in
  let st3 := App.step isLetterOrNumber toLowerCase rt st2
               (App.GetTermDetailsSettled (length (App.lookupsInFlight st))) in
  (0 < App.detectionsInFlight st)%nat ->
  truthy t = true ->
  GeminiService.getTermDetails rt t issuedWith (App.targetLanguage st)
    = GeminiService.Fulfilled (Some d) ->
  existsb (App.sameKey t detected) (App.savedWords st) = false ->
  App.effectiveSourceLanguage st3 = detected
  /\ App.savedWords (App.handleSaveWord now st3)
     = App.savedWords st
         ++ [mkSavedWord t detected (App.targetLanguage st) d now]
  /\ (forall s t' d' now',
        App.selectedTerm s = Some t' -> truthy t' = true ->
        App.wordDetails s = Some d' -> App.isLoading s = false ->
        existsb (App.sameKey t' (App.effectiveSourceLanguage s))
          (App.savedWords s) = false ->
        App.savedWords (App.handleSaveWord now' s)
        = App.savedWords s
            ++ [mkSavedWord t' (App.effectiveSourceLanguage s)
                  (App.targetLanguage s) d' now'])
  /\ (forall s,
        App.effectiveSourceLanguage s
        = match App.detectedSourceLanguage s with
          | Some l => l
          | None => ENGLISH
          end).
Proof.
  intros issuedWith st1 st2 st3 Hflight Htruthy Hget Hnew.
  assert (Hst3 :
    App.selectedTerm st3 = Some t /\ App.wordDetails st3 = Some d
    /\ App.isLoading st3 = false
    /\ App.detectedSourceLanguage st3 = Some detected
    /\ App.savedWords st3 = App.savedWords st
    /\ App.targetLanguage st3 = App.targetLanguage st).
  { assert (Hst2 :
      st2 = App.autoDetect_resume (Some detected)
              (App.setDetectionsInFlight
                 (Nat.pred (App.detectionsInFlight st)) st1)).
    { subst st2. cbn [App.step].
      change (App.detectionsInFlight st1) with (App.detectionsInFlight st).
      destruct (App.detectionsInFlight st); [lia | reflexivity]. }
    assert (Hcalls :
      App.lookupsInFlight st2
      = App.lookupsInFlight st
          ++ App.mkCall t issuedWith (App.targetLanguage st) :: []).
    { rewrite Hst2. reflexivity. }
    assert (Hst3 :
      st3 = App.handleTermClick_resume (GeminiService.Fulfilled (Some d))
              (App.setLookupsInFlight (App.lookupsInFlight st ++ []) st2)).
    { subst st3. cbn [App.step].
      rewrite Hcalls, nth_error_middle, removeNth_middle.
      cbn [App.callTerm App.callSourceLang App.callTargetLang].
      rewrite Hget. reflexivity. }
    rewrite Hst3, Hst2. repeat split. }
  destruct Hst3 as (Hsel & Hdet & Hload & Hlang & Hsaved & Htarget).
  assert (Heff : App.effectiveSourceLanguage st3 = detected)
    by (unfold App.effectiveSourceLanguage; rewrite Hlang; reflexivity).
  split; [exact Heff|]. split.
  - rewrite (handleSaveWord_new st3 t d now); try assumption.
    + rewrite Heff, Hsaved, Htarget. reflexivity.
    + rewrite Heff, Hsaved. exact Hnew.
  - split; [|reflexivity].
    intros s t' d' now'. apply handleSaveWord_new.
Qed.

(** [saved_entry_uses_language_at_save_time]: [hola] is looked up while
    detection is pending, so for English; detection then answers Spanish;
    the entry is saved under Spanish with the details fetched for
    English. *)
Lemma saved_entry_uses_language_at_save_time_witness :
  let st := sampleRun dictionaryRuntime
              [App.TextAreaChange (lit "hola"); App.DebounceTimeout] in
  let saved :=
    App.savedWords
      (App.handleSaveWord 1000
         (App.step asciiLetterOrDigit asciiToLowerCase dictionaryRuntime
            (App.step asciiLetterOrDigit asciiToLowerCase dictionaryRuntime
               (App.handleTermClick (lit "hola") ENGLISH ENGLISH st)
               (App.DetectLanguageSettled (Some SPANISH)))
            (App.GetTermDetailsSettled 0))) in
  App.effectiveSourceLanguage st = ENGLISH
  /\ GeminiService.getTermDetails dictionaryRuntime (lit "hola") ENGLISH
       ENGLISH
     = GeminiService.Fulfilled (Some (mergeAudio holaValue None))
  /\ saved = [mkSavedWord (lit "hola") SPANISH ENGLISH
                (mergeAudio holaValue None) 1000].
Proof.
  split; [reflexivity|]. split; [vm_compute; reflexivity|].
  pose proof (saved_entry_uses_language_at_save_time
                asciiLetterOrDigit asciiToLowerCase dictionaryRuntime
                (sampleRun dictionaryRuntime
                   [App.TextAreaChange (lit "hola"); App.DebounceTimeout])
                (lit "hola") SPANISH (mergeAudio holaValue None) 1000) as H.
  destruct H as (_ & Hsaved & _).
  - vm_compute. lia.
  - reflexivity.
  - vm_compute. reflexivity.
  - reflexivity.
  - exact Hsaved.
Defined.

(* ===================================================================== *)
(** ** Further properties: selection, fences, removal *)
(* ===================================================================== *)

(** X1. The direction of a drag does not matter: [handleMouseUp] decides
    the same on a selection and on the selection with its two ends
    exchanged. *)
Theorem selection_direction_does_not_matter
  (parts : list ProcessedTextPart) (ctx : App.MouseUpContext) :
  App.mouseUpAction parts (reverseSelection ctx) = App.mouseUpAction parts ctx.
Proof.
  unfold App.mouseUpAction, reverseSelection.
  cbn [App.selectionPresent App.rangeCount App.isCollapsed
       App.rangeInsideClickableText App.startElement App.endElement].
  rewrite (orb_comm (App.partIndexOf (App.endElement ctx) =? -1)).
  rewrite (Z.min_comm (App.partIndexOf (App.endElement ctx))).
  rewrite (Z.max_comm (App.partIndexOf (App.endElement ctx))).
  reflexivity.
Qed.

Lemma startsWith_app (p s : jsString) : startsWith (p ++ s) p = true.
Proof.
  induction p as [|c p IH]; [destruct s; reflexivity|].
  cbn. rewrite Z.eqb_refl, IH. reflexivity.
Qed.

Lemma endsWith_app (s q : jsString) : endsWith (s ++ q) q = true.
Proof. unfold endsWith. rewrite rev_app_distr. apply startsWith_app. Qed.

Lemma substring_middle (a b c : jsString) :
  substring (a ++ b ++ c) (Z.of_nat (length a))
    (Z.of_nat (length (a ++ b ++ c)) - Z.of_nat (length c)) = b.
Proof.
  unfold substring. rewrite !length_app.
  replace (Z.to_nat _) with (length b) by lia.
  replace (Z.to_nat (Z.min _ _)) with (length a) by lia.
  rewrite skipn_app, skipn_all, Nat.sub_diag. cbn [app skipn].
  rewrite firstn_app, firstn_all, Nat.sub_diag. cbn. apply app_nil_r.
Qed.

Lemma trimStart_pad (pad s : jsString) :
  Forall (fun c => isWhiteSpace c = true) pad ->
  trimStart (pad ++ s) = trimStart s.
Proof.
  induction 1 as [|c pad Hc _ IH]; [reflexivity|].
  cbn. rewrite Hc. exact IH.
Qed.

Lemma trim_pad (pre post middle : jsString) (first last : Z) :
  Forall (fun c => isWhiteSpace c = true) pre ->
  Forall (fun c => isWhiteSpace c = true) post ->
  isWhiteSpace first = false -> isWhiteSpace last = false ->
  trim (pre ++ (first :: middle ++ [last]) ++ post)
  = first :: middle ++ [last].
Proof.
  intros Hpre Hpost Hf Hl. unfold trim, trimEnd.
  rewrite (trimStart_pad _ _ Hpre).
  cbn [app trimStart]. rewrite Hf.
  change (first :: (middle ++ [last]) ++ post)
    with ((first :: middle ++ [last]) ++ post).
  rewrite rev_app_distr.
  rewrite trimStart_pad by (apply Forall_rev; exact Hpost).
  cbn [rev]. rewrite rev_app_distr. cbn [rev app trimStart]. rewrite Hl.
  cbn [rev]. rewrite rev_app_distr. cbn [rev app]. rewrite rev_involutive.
  reflexivity.
Qed.

(** X2. A payload wrapped in a markdown fence is unwrapped exactly: for
    every text [body], trimming and cleaning the fenced text, whatever
    white space surrounds it, gives [body] back, so that [JSON.parse] sees
    the payload alone.  A text that does not start with the opening fence
    is left as it is. *)
Theorem fenced_payload_is_unwrapped (pre body post : jsString) :
  Forall (fun c => isWhiteSpace c = true) pre ->
  Forall (fun c => isWhiteSpace c = true) post ->
  GeminiService.cleanJson
    (trim (pre ++ (GeminiService.fenceOpen ++ body ++ GeminiService.fenceClose)
             ++ post))
  = body
  /\ (forall s, startsWith s GeminiService.fenceOpen = false ->
      GeminiService.cleanJson s = s).
Proof.
  intros Hpre Hpost. split.
  - assert (Hshape :
      GeminiService.fenceOpen ++ body ++ GeminiService.fenceClose
      = 96 :: (lit "``json" ++ GeminiService.nl ++ body
                 ++ GeminiService.nl ++ lit "``") ++ [96]).
    { cbn. do 8 f_equal. rewrite <- app_assoc. reflexivity. }
    rewrite Hshape at 1.
    rewrite trim_pad by (assumption || reflexivity).
    rewrite <- Hshape.
    unfold GeminiService.cleanJson.
    rewrite startsWith_app.
    replace (GeminiService.fenceOpen ++ body ++ GeminiService.fenceClose)
      with ((GeminiService.fenceOpen ++ body) ++ GeminiService.fenceClose)
      at 1 by (rewrite <- app_assoc; reflexivity).
    rewrite endsWith_app. cbn [andb].
    apply (substring_middle GeminiService.fenceOpen body
             GeminiService.fenceClose).
  - intros s Hs. unfold GeminiService.cleanJson. rewrite Hs. reflexivity.
Qed.

(** [fenced_payload_is_unwrapped] on the payload for [hola], fenced and
    surrounded by a space, and line ends. *)
Lemma fenced_payload_is_unwrapped_witness :
  GeminiService.cleanJson
    (trim ([32; 10]
             ++ (GeminiService.fenceOpen ++ holaText
                   ++ GeminiService.fenceClose)
             ++ [10]))
  = holaText.
Proof.
  apply (fenced_payload_is_unwrapped [32; 10] holaText [10]).
  - repeat constructor.
  - repeat constructor.
Defined.

Lemma sameKey_other (t t' : jsString) (l l' : Language) (sw : SavedWord) :
  (t', l') <> (t, l) -> App.sameKey t' l' sw = true ->
  App.sameKey t l sw = false.
Proof.
  unfold App.sameKey. intros Hne H.
  apply andb_true_iff in H as [Ht Hl].
  apply eqb_eq in Ht. apply Language_eqb_eq in Hl.
  apply not_true_iff_false. intros H'.
  apply andb_true_iff in H' as [Ht' Hl'].
  apply eqb_eq in Ht'. apply Language_eqb_eq in Hl'.
  apply Hne. congruence.
Qed.

Lemma filter_negb_none {A} (f : A -> bool) (l : list A) :
  filter f (filter (fun x => negb (f x)) l) = [].
Proof.
  induction l as [|x l IH]; [reflexivity|]. cbn.
  destruct (f x) eqn:E; cbn; [exact IH | rewrite E; exact IH].
Qed.

Lemma filter_negb_all {A} (f : A -> bool) (l : list A) :
  existsb f l = false -> filter (fun x => negb (f x)) l = l.
Proof.
  induction l as [|x l IH]; [reflexivity|]. cbn.
  destruct (f x); [discriminate|]. cbn. intros H. rewrite (IH H).
  reflexivity.
Qed.

Lemma filter_other_key (t t' : jsString) (l l' : Language)
  (saved : list SavedWord) :
  (t', l') <> (t, l) ->
  filter (App.sameKey t' l')
    (filter (fun sw => negb (App.sameKey t l sw)) saved)
  = filter (App.sameKey t' l') saved.
Proof.
  intros Hne. induction saved as [|sw saved IH]; [reflexivity|]. cbn.
  destruct (App.sameKey t' l' sw) eqn:E'.
  - rewrite (sameKey_other _ _ _ _ _ Hne E'). cbn. rewrite E', IH.
    reflexivity.
  - destruct (App.sameKey t l sw); cbn; rewrite ?E'; exact IH.
Qed.

Lemma setSavedWords_same (f : list SavedWord -> list SavedWord)
  (s : App.AppState) :
  f (App.savedWords s) = App.savedWords s -> App.setSavedWords f s = s.
Proof.
  intros H. unfold App.setSavedWords. rewrite H. destruct s. reflexivity.
Qed.

(** X3. Removal deletes the entries under the given term and source
    language and nothing else: afterwards no entry has that key, the
    entries under every other key are the ones there were, in their order;
    removing a key that is not saved changes nothing at all; and a removal
    undoes a save that added an entry. *)
Theorem remove_deletes_exactly_one_key (t : jsString) (l : Language)
  (s : App.AppState) :
  keyCount t l (App.savedWords (App.handleRemoveWord t l s)) = 0%nat
  /\ (forall t' l', (t', l') <> (t, l) ->
      filter (App.sameKey t' l')
        (App.savedWords (App.handleRemoveWord t l s))
      = filter (App.sameKey t' l') (App.savedWords s))
  /\ (existsb (App.sameKey t l) (App.savedWords s) = false ->
      App.handleRemoveWord t l s = s)
  /\ (forall d now,
        App.selectedTerm s = Some t -> truthy t = true ->
        App.wordDetails s = Some d -> App.isLoading s = false ->
        App.effectiveSourceLanguage s = l ->
        existsb (App.sameKey t l) (App.savedWords s) = false ->
        App.savedWords (App.handleRemoveWord t l (App.handleSaveWord now s))
        = App.savedWords s).
Proof.
  split; [|split; [|split]].
  - unfold keyCount, App.handleRemoveWord.
    cbn [App.savedWords App.setSavedWords].
    rewrite filter_negb_none. reflexivity.
  - intros t' l' Hne. unfold App.handleRemoveWord.
    cbn [App.savedWords App.setSavedWords].
    apply filter_other_key. exact Hne.
  - intros Hnone. unfold App.handleRemoveWord.
    apply setSavedWords_same. apply filter_negb_all. exact Hnone.
  - intros d now Ht Htruthy Hd Hload Hl Hnew.
    unfold App.handleRemoveWord. cbn [App.savedWords App.setSavedWords].
    subst l. rewrite (handleSaveWord_new s t d now) by assumption.
    rewrite filter_app, (filter_negb_all _ _ Hnew). cbn [filter].
    replace (App.sameKey t (App.effectiveSourceLanguage s)
               (mkSavedWord t (App.effectiveSourceLanguage s)
                  (App.targetLanguage s) d now)) with true
      by (symmetry; apply sameKey_new; split; reflexivity).
    cbn. apply app_nil_r.
Qed.

(** [remove_deletes_exactly_one_key] after a lookup of [hola]: saving it
    and removing it leaves no saved word. *)
Lemma remove_deletes_exactly_one_key_witness :
  App.savedWords
    (App.handleRemoveWord (lit "hola") ENGLISH
       (App.handleSaveWord 1000
          (sampleRun dictionaryRuntime
             [App.TextAreaChange (lit "hola"); App.WordClick 0;
              App.GetTermDetailsSettled 0])))
  = [].
Proof.
  pose proof (remove_deletes_exactly_one_key (lit "hola") ENGLISH
                (sampleRun dictionaryRuntime
                   [App.TextAreaChange (lit "hola"); App.WordClick 0;
                    App.GetTermDetailsSettled 0]))
    as (_ & _ & _ & Hundo).
  rewrite (Hundo (mergeAudio holaValue None) 1000);
    vm_compute; reflexivity.
Defined.

(* ===================================================================== *)
(** ** Further properties: what every event keeps *)
(* ===================================================================== *)

(** A save changes the saved words or nothing. *)
Lemma handleSaveWord_cases (now : Z) (s : App.AppState) :
  App.handleSaveWord now s = s
  \/ exists f, App.handleSaveWord now s = App.setSavedWords f s.
Proof.
  unfold App.handleSaveWord.
  destruct (App.selectedTerm s) as [t|]; [|left; reflexivity].
  destruct (App.wordDetails s) as [d|]; [|left; reflexivity].
  destruct (truthy t && negb (App.isLoading s)); [|left; reflexivity].
  destruct (negb (existsb (App.sameKey t (App.effectiveSourceLanguage s))
                    (App.savedWords s)));
    [right; eexists; reflexivity | left; reflexivity].
Qed.

Section Transitions.

Variable isLetterOrNumber : Z -> bool.
Variable toLowerCase : jsString -> jsString.
Variable rt : GeminiService.Runtime.

Notation step := (App.step isLetterOrNumber toLowerCase rt).
Notation reachable := (App.reachable isLetterOrNumber toLowerCase rt).
Notation tokenize := (Tokenizer.tokenize isLetterOrNumber toLowerCase).
Notation Transition := (Transition isLetterOrNumber toLowerCase rt).
Notation partsInSync := (partsInSync isLetterOrNumber toLowerCase).

Lemma step_Transition (s : App.AppState) (ev : App.Event) :
  Transition s (step s ev).
Proof.
  destruct ev; cbn [App.step].
  - constructor.
  - constructor.
  - constructor.
  - destruct (App.clickableTextShown s); [|constructor].
    destruct (nth_error (App.processedTextParts s) index) as [part|];
      [|constructor].
    destruct (type part); [|constructor..].
    destruct (originalWord part); constructor.
  - destruct (App.clickableTextShown s); [|constructor].
    unfold App.handleMouseUp.
    destruct (App.mouseUpAction (App.processedTextParts s) ctx);
      constructor.
  - destruct (nth_error (App.savedWords s) k) as [[t sl tl d a]|];
      constructor.
  - destruct (nth_error (App.savedWords s) k); constructor.
  - destruct (App.detailCardShown s && negb (App.isCurrentTermSaved s));
      constructor.
  - destruct (App.isModalOpen s); constructor.
  - destruct (App.debounceTimer s) as [captured|] eqn:E;
      [apply T_autoDetect; exact E | constructor].
  - destruct (App.detectionsInFlight s) as [|n] eqn:E;
      [constructor | apply T_autoDetect_resume; exact E].
  - destruct (nth_error (App.lookupsInFlight s) k) as [call|] eqn:E;
      [apply T_handleTermClick_resume; exact E | constructor].
Qed.

(** A property of the first state that every transition preserves holds
    in every reachable state. *)
Lemma reachable_invariant (P : App.AppState -> Prop) :
  P (App.initialState isLetterOrNumber toLowerCase) ->
  (forall s s', P s -> Transition s s' -> P s') ->
  forall s, reachable s -> P s.
Proof.
  intros Hinit Hstep.
  apply (reachable_ind isLetterOrNumber toLowerCase rt P Hinit).
  intros s ev H. apply (Hstep s); [exact H | apply step_Transition].
Qed.

Lemma Transition_partsInSync (s s' : App.AppState) :
  partsInSync s -> Transition s s' -> partsInSync s'.
Proof.
  unfold partsInSync. intros H T. destruct T; try exact H.
  - unfold App.setInputText, App.tokenizationEffect.
    destruct (eqb v (App.inputText s)); [exact H|].
    change (App.inputText (App.setInputText_ v s)) with v.
    destruct v as [|c v]; reflexivity.
  - unfold App.clearInput, App.setInputText, App.tokenizationEffect.
    destruct (eqb [] (App.inputText s)) eqn:E.
    + apply eqb_eq in E. cbn. rewrite <- E. reflexivity.
    + reflexivity.
  - destruct (handleSaveWord_cases now s) as [-> | [f ->]]; exact H.
  - unfold App.autoDetect. destruct (truthy (trim captured)); exact H.
  - destruct (GeminiService.getTermDetails rt (App.callTerm call)
                (App.callSourceLang call) (App.callTargetLang call))
      as [[d|]|e]; exact H.
Qed.

Lemma Transition_timerIsCurrent (s s' : App.AppState) :
  timerIsCurrent s -> Transition s s' -> timerIsCurrent s'.
Proof.
  unfold timerIsCurrent. intros H T. destruct T; try exact H.
  - unfold App.setInputText, App.tokenizationEffect.
    destruct (eqb v (App.inputText s)); [exact H|].
    change (App.inputText (App.setInputText_ v s)) with v.
    destruct v as [|c v]; cbn; intros captured Hc; congruence.
  - unfold App.clearInput, App.setInputText, App.tokenizationEffect.
    destruct (eqb [] (App.inputText s)) eqn:E.
    + cbn. exact H.
    + cbn. intros captured Hc. congruence.
  - destruct (handleSaveWord_cases now s) as [-> | [f ->]]; exact H.
  - unfold App.autoDetect.
    destruct (truthy (trim captured)); cbn; discriminate.
  - destruct (GeminiService.getTermDetails rt (App.callTerm call)
                (App.callSourceLang call) (App.callTargetLang call))
      as [[d|]|e]; exact H.
Qed.

Lemma Transition_loadingMeansInFlight (s s' : App.AppState) :
  loadingMeansInFlight s -> Transition s s' -> loadingMeansInFlight s'.
Proof.
  unfold loadingMeansInFlight. intros H T. destruct T; try exact H.
  - unfold App.setInputText, App.tokenizationEffect.
    destruct (eqb v (App.inputText s)); [exact H|].
    destruct (negb (truthy (App.inputText (App.setInputText_ v s))));
      exact H.
  - cbn. discriminate.
  - intros _. cbn. intros E. apply app_eq_nil in E as [_ E]. discriminate.
  - destruct (handleSaveWord_cases now s) as [-> | [f ->]]; exact H.
  - unfold App.autoDetect. destruct (truthy (trim captured)); exact H.
  - destruct (GeminiService.getTermDetails rt (App.callTerm call)
                (App.callSourceLang call) (App.callTargetLang call))
      as [[d|]|e]; cbn; discriminate.
Qed.

Lemma Transition_modalMeansSelected (s s' : App.AppState) :
  modalMeansSelected s -> Transition s s' -> modalMeansSelected s'.
Proof.
  unfold modalMeansSelected. intros H T. destruct T; try exact H.
  - unfold App.setInputText, App.tokenizationEffect.
    destruct (eqb v (App.inputText s)); [exact H|].
    destruct (negb (truthy (App.inputText (App.setInputText_ v s))));
      exact H.
  - cbn. split; [discriminate | congruence].
  - cbn. split; [discriminate | reflexivity].
  - destruct (handleSaveWord_cases now s) as [-> | [f ->]]; exact H.
  - cbn. split; [discriminate | congruence].
  - unfold App.autoDetect. destruct (truthy (trim captured)); exact H.
  - destruct (GeminiService.getTermDetails rt (App.callTerm call)
                (App.callSourceLang call) (App.callTargetLang call))
      as [[d|]|e]; exact H.
Qed.

End Transitions.

(** X4. The parts follow the input text once the tokenization effect has
    run.  The reachable states are the states the component rests in
    between two events, after the effects of the last render have run: in
    each of them the parts are the tokenization of the input text, and
    their values concatenated are that text.  A change of the text does
    not get there at once: the render it causes is committed with the new
    text and the parts of the old one, which are not those of the new
    text whenever the two tokenize differently; the effect that runs
    after that commit then makes the parts the tokenization of the new
    text. *)
Theorem parts_follow_input_once_effect_ran (isLetterOrNumber : Z -> bool)
  (toLowerCase : jsString -> jsString) (rt : GeminiService.Runtime)
  (s : App.AppState) (v : jsString) :
  App.reachable isLetterOrNumber toLowerCase rt s ->
  let tokenize := Tokenizer.tokenize isLetterOrNumber toLowerCase in
  let committed := App.setInputText_ v s in
  let settled :=
    App.tokenizationEffect isLetterOrNumber toLowerCase committed in
  (App.processedTextParts s = tokenize (App.inputText s)
   /\ concat (map value (App.processedTextParts s)) = App.inputText s)
  /\ (App.inputText committed = v
      /\ App.processedTextParts committed = tokenize (App.inputText s)
      /\ (tokenize v <> tokenize (App.inputText s) ->
          App.processedTextParts committed
          <> tokenize (App.inputText committed)))
  /\ (App.inputText settled = v
      /\ App.processedTextParts settled = tokenize v
      /\ concat (map value (App.processedTextParts settled)) = v)
  /\ (v <> App.inputText s ->
      App.processedTextParts
        (App.setInputText isLetterOrNumber toLowerCase v s)
      = App.processedTextParts settled).
Proof.
  intros Hreach.
  assert (Hsync : partsInSync isLetterOrNumber toLowerCase s).
  { revert s Hreach.
    apply (reachable_invariant isLetterOrNumber toLowerCase rt
             (partsInSync isLetterOrNumber toLowerCase)).
    - reflexivity.
    - intros s s'. apply Transition_partsInSync. }
  intros tokenize committed settled.
  unfold partsInSync in Hsync. fold tokenize in Hsync.
  assert (Hsettled : App.inputText settled = v
                     /\ App.processedTextParts settled = tokenize v).
  { subst settled committed tokenize.
    unfold App.tokenizationEffect, App.setInputText_.
    cbn [App.inputText].
    destruct v as [|u rest]; cbn [truthy negb]; split; reflexivity. }
  split; [|split; [|split]].
  - split; [exact Hsync|]. rewrite Hsync. apply tokenize_round_trip.
  - split; [reflexivity|]. split; [exact Hsync|].
    intros Hne H. apply Hne.
    change (App.processedTextParts committed)
      with (App.processedTextParts s) in H.
    change (App.inputText committed) with v in H.
    rewrite <- H. exact Hsync.
  - destruct Hsettled as [Htext Hparts].
    split; [exact Htext|]. split; [exact Hparts|].
    rewrite Hparts. apply tokenize_round_trip.
  - intros Hne. unfold App.setInputText.
    apply eqb_neq in Hne. rewrite Hne.
    reflexivity.
Qed.

(** [parts_follow_input_once_effect_ran] on a change of the text from
    [hola] to [hola, adios]: the commit still has the one part of [hola],
    the effect makes the parts spell the new text. *)
Lemma parts_follow_input_once_effect_ran_witness :
  map value
    (App.processedTextParts
       (App.setInputText_ (lit "hola, adios")
          (sampleRun dictionaryRuntime
             [App.TextAreaChange (lit "hola"); App.WordClick 0])))
  = [lit "hola"]
  /\ concat
       (map value
          (App.processedTextParts
             (App.tokenizationEffect asciiLetterOrDigit asciiToLowerCase
                (App.setInputText_ (lit "hola, adios")
                   (sampleRun dictionaryRuntime
                      [App.TextAreaChange (lit "hola"); App.WordClick 0])))))
     = lit "hola, adios".
Proof.
  destruct (parts_follow_input_once_effect_ran
              asciiLetterOrDigit asciiToLowerCase dictionaryRuntime
              (sampleRun dictionaryRuntime
                 [App.TextAreaChange (lit "hola"); App.WordClick 0])
              (lit "hola, adios"))
    as (_ & (_ & Hstale & _) & (_ & _ & Hspell) & _).
  - apply sampleRun_reachable.
  - split; [|exact Hspell].
    rewrite Hstale. vm_compute. reflexivity.
Defined.

Lemma last_cons {A} (l : list A) : forall x d, last (x :: l) d = last l x.
Proof.
  induction l as [|y l IH]; intros x d; [reflexivity|].
  change (last (x :: y :: l) d) with (last (y :: l) d).
  rewrite !IH. reflexivity.
Qed.

(** Typing on, with a timer pending for the current text. *)
Lemma typing_keeps_timer_current (isLetterOrNumber : Z -> bool)
  (toLowerCase : jsString -> jsString) (rt : GeminiService.Runtime)
  (texts : list jsString) :
  forall s,
    App.debounceTimer s = Some (App.inputText s) ->
    let s' := App.run isLetterOrNumber toLowerCase rt
                (map App.TextAreaChange texts) s in
    App.inputText s' = last texts (App.inputText s)
    /\ App.debounceTimer s' = Some (App.inputText s')
    /\ App.detectionsInFlight s' = App.detectionsInFlight s
    /\ App.isDetectingLanguage s' = App.isDetectingLanguage s.
Proof.
  induction texts as [|v texts IH]; intros s Htimer; cbn zeta.
  - repeat split. exact Htimer.
  - set (s1 := App.step isLetterOrNumber toLowerCase rt s
                 (App.TextAreaChange v)).
    change (App.run isLetterOrNumber toLowerCase rt
              (map App.TextAreaChange (v :: texts)) s)
      with (App.run isLetterOrNumber toLowerCase rt
              (map App.TextAreaChange texts) s1).
    assert (H1 : App.inputText s1 = v
                 /\ App.debounceTimer s1 = Some (App.inputText s1)
                 /\ App.detectionsInFlight s1 = App.detectionsInFlight s
                 /\ App.isDetectingLanguage s1 = App.isDetectingLanguage s).
    { subst s1. cbn [App.step].
      unfold App.setInputText, App.tokenizationEffect.
      destruct (eqb v (App.inputText s)) eqn:E.
      - apply eqb_eq in E. subst v. repeat split. exact Htimer.
      - change (App.inputText (App.setInputText_ v s)) with v.
        destruct v as [|c v]; repeat split. }
    destruct H1 as (Htext & Htimer1 & Hflight & Hdet).
    destruct (IH s1 Htimer1) as (Hlast & Htimer' & Hflight' & Hdet').
    rewrite Htext in Hlast.
    repeat split.
    + rewrite Hlast. symmetry. apply last_cons.
    + exact Htimer'.
    + congruence.
    + congruence.
Qed.

(** X5. Debounce: when the user changes the text and goes on typing, no
    detection call is issued by the changes themselves, however many there
    are; the one timer left pending closes over the final text; when it
    fires, it issues exactly one detection call if the final text is not
    blank, and none (setting the detected language to [null]) if it is;
    and no timer is left to fire a second time. *)
Theorem burst_of_changes_issues_one_detection (isLetterOrNumber : Z -> bool)
  (toLowerCase : jsString -> jsString) (rt : GeminiService.Runtime)
  (s : App.AppState) (v : jsString) (texts : list jsString) :
  v <> App.inputText s ->
  let final := last texts v in
  let typed := App.run isLetterOrNumber toLowerCase rt
                 (map App.TextAreaChange (v :: texts)) s in
  let fired := App.step isLetterOrNumber toLowerCase rt typed
                 App.DebounceTimeout in
  App.inputText typed = final
  /\ App.debounceTimer typed = Some final
  /\ App.detectionsInFlight typed = App.detectionsInFlight s
  /\ App.debounceTimer fired = None
  /\ (truthy (trim final) = true ->
      App.detectionsInFlight fired = S (App.detectionsInFlight s)
      /\ App.isDetectingLanguage fired = true)
  /\ (truthy (trim final) = false ->
      App.detectionsInFlight fired = App.detectionsInFlight s
      /\ App.detectedSourceLanguage fired = None)
  /\ App.step isLetterOrNumber toLowerCase rt fired App.DebounceTimeout
     = fired.
Proof.
  intros Hne final typed fired.
  set (s1 := App.step isLetterOrNumber toLowerCase rt s
               (App.TextAreaChange v)).
  assert (H1 : App.inputText s1 = v
               /\ App.debounceTimer s1 = Some (App.inputText s1)
               /\ App.detectionsInFlight s1 = App.detectionsInFlight s).
  { subst s1. cbn [App.step].
    unfold App.setInputText, App.tokenizationEffect.
    assert (E : eqb v (App.inputText s) = false) by (apply eqb_neq; exact Hne).
    rewrite E.
    change (App.inputText (App.setInputText_ v s)) with v.
    destruct v as [|c v]; repeat split. }
  destruct H1 as (Htext & Htimer1 & Hflight1).
  destruct (typing_keeps_timer_current isLetterOrNumber toLowerCase rt
              texts s1 Htimer1)
    as (Hlast & Htimer & Hflight & _).
  change (App.run isLetterOrNumber toLowerCase rt
            (map App.TextAreaChange texts) s1) with typed in *.
  rewrite Htext in Hlast. fold final in Hlast.
  rewrite Hlast in Htimer. rewrite Hflight1 in Hflight.
  assert (Hfired : fired = App.autoDetect final
                             (App.setDebounceTimer None typed)).
  { subst fired. cbn [App.step]. rewrite Htimer. reflexivity. }
  clearbody fired typed.
  split; [exact Hlast|]. split; [exact Htimer|]. split; [exact Hflight|].
  unfold App.autoDetect in Hfired.
  destruct (truthy (trim final)) eqn:Hblank; rewrite Hfired.
  - split; [reflexivity|]. split; [|split; [discriminate | reflexivity]].
    intros _. cbn. rewrite Hflight. split; reflexivity.
  - split; [reflexivity|]. split; [discriminate|]. split; [|reflexivity].
    intros _. cbn. rewrite Hflight. split; reflexivity.
Qed.

(** [burst_of_changes_issues_one_detection] on typing [h], [ho], [hola]. *)
Lemma burst_of_changes_issues_one_detection_witness :
  let typed := sampleRun dictionaryRuntime
                 [App.TextAreaChange (lit "h"); App.TextAreaChange (lit "ho");
                  App.TextAreaChange (lit "hola")] in
  App.debounceTimer typed = Some (lit "hola")
  /\ App.detectionsInFlight
       (App.step asciiLetterOrDigit asciiToLowerCase dictionaryRuntime typed
          App.DebounceTimeout) = 1%nat.
Proof.
  pose proof (burst_of_changes_issues_one_detection
                asciiLetterOrDigit asciiToLowerCase dictionaryRuntime
                (App.initialState asciiLetterOrDigit asciiToLowerCase)
                (lit "h") [lit "ho"; lit "hola"]) as H.
  destruct H as (_ & Htimer & _ & _ & Hone & _).
  - discriminate.
  - split; [exact Htimer|].
    destruct Hone as [Hone _]; [reflexivity | exact Hone].
Defined.

(** X6. The loading indicator never shows without a lookup in flight:
    in every reachable state in which [isLoading] is true, some call of
    [getTermDetails] has not settled yet. *)
Theorem loading_means_lookup_in_flight (isLetterOrNumber : Z -> bool)
  (toLowerCase : jsString -> jsString) (rt : GeminiService.Runtime)
  (s : App.AppState) :
  App.reachable isLetterOrNumber toLowerCase rt s ->
  App.isLoading s = true -> App.lookupsInFlight s <> [].
Proof.
  revert s.
  apply (reachable_invariant isLetterOrNumber toLowerCase rt
           loadingMeansInFlight).
  - cbn. discriminate.
  - intros s s'. apply Transition_loadingMeansInFlight.
Qed.

(** [loading_means_lookup_in_flight] right after a click on a word. *)
Lemma loading_means_lookup_in_flight_witness :
  App.lookupsInFlight
    (sampleRun dictionaryRuntime
       [App.TextAreaChange (lit "hola"); App.WordClick 0]) <> [].
Proof.
  apply (loading_means_lookup_in_flight
           asciiLetterOrDigit asciiToLowerCase dictionaryRuntime).
  - apply sampleRun_reachable.
  - vm_compute. reflexivity.
Defined.

(** X7. The dialog is open exactly when a term is selected: in every
    reachable state [isModalOpen] is true if and only if [selectedTerm] is
    not [null]; so whenever the detail card with its save button is on
    display, there is a selected term to save. *)
Theorem modal_open_iff_term_selected (isLetterOrNumber : Z -> bool)
  (toLowerCase : jsString -> jsString) (rt : GeminiService.Runtime)
  (s : App.AppState) :
  App.reachable isLetterOrNumber toLowerCase rt s ->
  (App.isModalOpen s = true <-> App.selectedTerm s <> None)
  /\ (App.detailCardShown s = true ->
      exists t d, App.selectedTerm s = Some t /\ App.wordDetails s = Some d).
Proof.
  intros Hreach.
  assert (H : modalMeansSelected s).
  { revert s Hreach.
    apply (reachable_invariant isLetterOrNumber toLowerCase rt
             modalMeansSelected).
    - split; [discriminate | intros H; exfalso; apply H; reflexivity].
    - intros s s'. apply Transition_modalMeansSelected. }
  split; [exact H|].
  unfold App.detailCardShown. intros Hcard.
  apply andb_true_iff in Hcard as [Hcard _].
  apply andb_true_iff in Hcard as [Hcard _].
  apply andb_true_iff in Hcard as [Hopen Hd].
  apply H in Hopen.
  destruct (App.selectedTerm s) as [t|]; [|congruence].
  destruct (App.wordDetails s) as [d|]; [|discriminate].
  exists t, d. split; reflexivity.
Qed.

(** [modal_open_iff_term_selected] once the lookup of [hola] has
    settled. *)
Lemma modal_open_iff_term_selected_witness :
  exists t d,
    App.selectedTerm
      (sampleRun dictionaryRuntime
         [App.TextAreaChange (lit "hola"); App.WordClick 0;
          App.GetTermDetailsSettled 0]) = Some t
    /\ App.wordDetails
         (sampleRun dictionaryRuntime
            [App.TextAreaChange (lit "hola"); App.WordClick 0;
             App.GetTermDetailsSettled 0]) = Some d.
Proof.
  apply (modal_open_iff_term_selected
           asciiLetterOrDigit asciiToLowerCase dictionaryRuntime).
  - apply sampleRun_reachable.
  - vm_compute. reflexivity.
Defined.

(* ===================================================================== *)
(** ** Further properties: React keys *)
(* ===================================================================== *)

Lemma before_dash_inj (p q u v : jsString) :
  ~ In dash p -> ~ In dash q ->
  p ++ dash :: u = q ++ dash :: v -> p = q /\ u = v.
Proof.
  revert q. induction p as [|c p IH]; intros [|d q] Hp Hq H; cbn in H.
  - inversion H. split; reflexivity.
  - inversion H. subst d. exfalso. apply Hq. left. reflexivity.
  - inversion H. subst c. exfalso. apply Hp. left. reflexivity.
  - inversion H. subst d.
    destruct (IH q) as [-> ->]; try assumption.
    + intros Hin. apply Hp. right. exact Hin.
    + intros Hin. apply Hq. right. exact Hin.
    + split; reflexivity.
Qed.









Lemma lit_inj (a b : string) : lit a = lit b -> a = b.
Proof.
  unfold lit. intros H.
  rewrite <- (string_of_list_ascii_of_string a),
          <- (string_of_list_ascii_of_string b).
  f_equal.
  revert H. generalize (list_ascii_of_string b).
  induction (list_ascii_of_string a) as [|x xs IH]; intros [|y ys] H;
    cbn in H; try discriminate; [reflexivity|].
  inversion H as [[Hxy Hrest]]. f_equal.
  - apply N2Z.inj in Hxy.
    rewrite <- (ascii_N_embedding x), <- (ascii_N_embedding y), Hxy.
    reflexivity.
  - apply IH. exact Hrest.
Qed.

Lemma ofNat_inj (n m : nat) : ofNat n = ofNat m -> n = m.
Proof.
  unfold ofNat. intros H. apply lit_inj in H.
  apply DecimalNat.Unsigned.to_uint_inj.
  pose proof (NilEmpty.usu (Nat.to_uint n)) as Hn.
  pose proof (NilEmpty.usu (Nat.to_uint m)) as Hm.
  congruence.
Qed.

Lemma ofUint_no_dash (d : Decimal.uint) :
  ~ In dash (lit (NilEmpty.string_of_uint d)).
Proof.
  induction d; cbn; unfold dash; intros H;
    try (destruct H as [H|H]; [discriminate H | exact (IHd H)]).
  exact H.
Qed.

Lemma ofNat_no_dash (n : nat) : ~ In dash (ofNat n).
Proof. apply ofUint_no_dash. Qed.

Lemma ofNat_dash_or_end (n m : nat) (u v : jsString) :
  (u = [] \/ exists w, u = dash :: w) ->
  (v = [] \/ exists w, v = dash :: w) ->
  ofNat n ++ u = ofNat m ++ v -> n = m.
Proof.
  intros [-> | [w ->]] [-> | [w' ->]] H.
  - rewrite !app_nil_r in H. apply ofNat_inj. exact H.
  - exfalso. apply (ofNat_no_dash n). rewrite app_nil_r in H. rewrite H.
    apply in_or_app. right. left. reflexivity.
  - exfalso. apply (ofNat_no_dash m). rewrite app_nil_r in H. rewrite <- H.
    apply in_or_app. right. left. reflexivity.
  - apply before_dash_inj in H as [H _]; try apply ofNat_no_dash.
    apply ofNat_inj. exact H.
Qed.

Lemma idAtPosition_inj (n m : nat) (i : jsString) :
  idAtPosition n i -> idAtPosition m i -> n = m.
Proof.
  intros [[w Hn] | [Hn | Hn]] [[w' Hm] | [Hm | Hm]];
    rewrite Hn in Hm; cbn [lit list_ascii_of_string map app] in Hm;
    try discriminate Hm.
  - do 5 (apply (f_equal (@tl Z)) in Hm; cbn [tl] in Hm).
    eapply ofNat_dash_or_end; [| |exact Hm]; right; eexists; reflexivity.
  - do 3 (apply (f_equal (@tl Z)) in Hm; cbn [tl] in Hm).
    apply (ofNat_dash_or_end n m [] []); [left; reflexivity..|].
    rewrite !app_nil_r. exact Hm.
  - do 6 (apply (f_equal (@tl Z)) in Hm; cbn [tl] in Hm).
    apply (ofNat_dash_or_end n m [] []); [left; reflexivity..|].
    rewrite !app_nil_r. exact Hm.
Qed.

Lemma pushMatch_idsByPosition (toLowerCase : jsString -> jsString)
  (parts : list ProcessedTextPart) (m : Tokenizer.RegExpMatch) :
  idsByPosition parts ->
  idsByPosition (Tokenizer.pushMatch toLowerCase parts m).
Proof.
  intros H. unfold Tokenizer.pushMatch.
  assert (Hpush : forall p, idAtPosition (length parts) (id p) ->
                            idsByPosition (parts ++ [p])).
  { intros p Hp k q Hk.
    destruct (Nat.lt_ge_cases k (length parts)) as [Hlt|Hge].
    - rewrite nth_error_app1 in Hk by exact Hlt. apply H. exact Hk.
    - rewrite nth_error_app2 in Hk by exact Hge.
      destruct (k - length parts)%nat as [|j] eqn:E; cbn in Hk.
      + inversion Hk; subst q.
        replace k with (length parts) by lia. exact Hp.
      + destruct j; discriminate Hk. }
  destruct (truthy (Tokenizer.m0 m)); [|exact H].
  destruct (truthyOpt (Tokenizer.m1 m)).
  { apply Hpush. left. eexists. reflexivity. }
  destruct (truthyOpt (Tokenizer.m2 m)).
  { apply Hpush. right. left. reflexivity. }
  destruct (truthyOpt (Tokenizer.m3 m)); [|exact H].
  apply Hpush. right. right. reflexivity.
Qed.

Lemma execLoop_idsByPosition (isLetterOrNumber : Z -> bool)
  (toLowerCase : jsString -> jsString) (n : nat) :
  forall input parts, (length input <= n)%nat ->
  idsByPosition parts ->
  idsByPosition
    (Tokenizer.execLoop isLetterOrNumber toLowerCase input parts).
Proof.
  induction n as [|n IH]; intros input parts Hlen H;
    rewrite execLoop_unfold;
    destruct (Tokenizer.exec isLetterOrNumber input)
      as [[[g run] after]|] eqn:E;
    try exact H.
  - apply Tokenizer.exec_shorter in E. lia.
  - apply IH.
    + apply Tokenizer.exec_shorter in E. lia.
    + apply pushMatch_idsByPosition. exact H.
Qed.

(** X9. The ids of the parts are unique, as React keys must be: for
    every input string, no two parts of its tokenization have the same
    id, whatever the words are and whatever [toLowerCase] makes of them. *)
Theorem part_ids_are_distinct (isLetterOrNumber : Z -> bool)
  (toLowerCase : jsString -> jsString) (s : jsString) :
  NoDup (map id (Tokenizer.tokenize isLetterOrNumber toLowerCase s)).
Proof.
  assert (H : idsByPosition
                (Tokenizer.tokenize isLetterOrNumber toLowerCase s)).
  { unfold Tokenizer.tokenize.
    destruct (negb (truthy s)).
    - intros k p Hk. destruct k; discriminate Hk.
    - apply (execLoop_idsByPosition _ _ (length (codePoints s))).
      + apply Nat.le_refl.
      + intros k p Hk. destruct k; discriminate Hk. }
  apply NoDup_nth_error. intros i j Hi Hij.
  rewrite length_map in Hi. rewrite !nth_error_map in Hij.
  destruct (nth_error (Tokenizer.tokenize isLetterOrNumber toLowerCase s) i)
    as [p|] eqn:Ep.
  - destruct (nth_error (Tokenizer.tokenize isLetterOrNumber toLowerCase s) j)
      as [q|] eqn:Eq; [|discriminate Hij].
    cbn in Hij. inversion Hij as [Hid].
    apply H in Ep. apply H in Eq. rewrite <- Hid in Eq.
    apply (idAtPosition_inj i j (id p)); assumption.
  - apply nth_error_None in Ep. lia.
Qed.

(* ===================================================================== *)
(** ** Further properties: the parts *)
(* ===================================================================== *)

Lemma pushMatch_wellFormed (toLowerCase : jsString -> jsString)
  (parts : list ProcessedTextPart) (m : Tokenizer.RegExpMatch) :
  Forall (wellFormedPart toLowerCase) parts ->
  Forall (wellFormedPart toLowerCase) (Tokenizer.pushMatch toLowerCase parts m)
  /\ (length (Tokenizer.pushMatch toLowerCase parts m) <= S (length parts))%nat.
Proof.
  intros H. unfold Tokenizer.pushMatch.
  destruct (Tokenizer.m0 m) as [|u us] eqn:E0; cbn [truthy];
    [split; [exact H | lia]|].
  assert (Hne : u :: us <> []) by discriminate.
  destruct (truthyOpt (Tokenizer.m1 m)).
  { split; [|rewrite length_app; cbn; lia].
    apply Forall_app. split; [exact H|]. repeat constructor. exact Hne. }
  destruct (truthyOpt (Tokenizer.m2 m)).
  { split; [|rewrite length_app; cbn; lia].
    apply Forall_app. split; [exact H|]. repeat constructor. exact Hne. }
  destruct (truthyOpt (Tokenizer.m3 m)); [|split; [exact H | lia]].
  split; [|rewrite length_app; cbn; lia].
  apply Forall_app. split; [exact H|]. repeat constructor. exact Hne.
Qed.

Lemma execLoop_wellFormed (isLetterOrNumber : Z -> bool)
  (toLowerCase : jsString -> jsString) (n : nat) :
  forall input parts, (length input <= n)%nat ->
  Forall (wellFormedPart toLowerCase) parts ->
  Forall (wellFormedPart toLowerCase)
    (Tokenizer.execLoop isLetterOrNumber toLowerCase input parts)
  /\ (length (Tokenizer.execLoop isLetterOrNumber toLowerCase input parts)
      <= length parts + length input)%nat.
Proof.
  induction n as [|n IH]; intros input parts Hlen H;
    rewrite execLoop_unfold;
    destruct (Tokenizer.exec isLetterOrNumber input)
      as [[[g run] after]|] eqn:E;
    try (split; [exact H | lia]).
  - apply Tokenizer.exec_shorter in E. lia.
  - pose proof (Tokenizer.exec_shorter _ _ _ _ _ E) as Hshort.
    destruct (pushMatch_wellFormed toLowerCase parts
                (Tokenizer.matchArray g run) H) as [Hwf Hone].
    destruct (IH after _ ltac:(lia) Hwf) as [Hall Hcount].
    split; [exact Hall | lia].
Qed.

Lemma codePoints_length (n : nat) :
  forall s, (length s <= n)%nat -> (length (codePoints s) <= length s)%nat.
Proof.
  induction n as [|n IH]; intros s Hlen.
  - destruct s; [apply Nat.le_refl | cbn in Hlen; lia].
  - destruct s as [|u [|v rest]]; [apply Nat.le_refl.. |].
    rewrite codePoints_cons2.
    destruct (isHighSurrogate u && isLowSurrogate v); cbn [length].
    + specialize (IH rest ltac:(cbn in *; lia)). lia.
    + specialize (IH (v :: rest) ltac:(cbn in *; lia)).
      cbn [length] in IH. lia.
Qed.

(** X10. No part is empty, there are never more parts than code units
    in the input, and a part carries a cleaned word, the lower-cased form
    of its own text, if and only if it is a word: the click handler of a
    word button, which asserts that [originalWord] is there, always finds
    it. *)
Theorem parts_are_well_formed (isLetterOrNumber : Z -> bool)
  (toLowerCase : jsString -> jsString) (s : jsString) :
  (length (Tokenizer.tokenize isLetterOrNumber toLowerCase s) <= length s)%nat
  /\ forall p,
       In p (Tokenizer.tokenize isLetterOrNumber toLowerCase s) ->
       value p <> []
       /\ (type p = word -> originalWord p = Some (toLowerCase (value p)))
       /\ (type p <> word -> originalWord p = None).
Proof.
  assert (H : Forall (wellFormedPart toLowerCase)
                (Tokenizer.tokenize isLetterOrNumber toLowerCase s)
              /\ (length (Tokenizer.tokenize isLetterOrNumber toLowerCase s)
                  <= length s)%nat).
  { unfold Tokenizer.tokenize. destruct (negb (truthy s)).
    - split; [constructor | cbn; lia].
    - destruct (execLoop_wellFormed isLetterOrNumber toLowerCase
                  (length (codePoints s)) (codePoints s) []
                  (Nat.le_refl _) (Forall_nil _)) as [Hall Hcount].
      split; [exact Hall|].
      pose proof (codePoints_length (length s) s (Nat.le_refl _)).
      cbn [length] in Hcount. lia. }
  destruct H as [Hall Hcount]. split; [exact Hcount|].
  intros p Hp. rewrite Forall_forall in Hall.
  destruct (Hall p Hp) as [Hne Hkey]. split; [exact Hne|].
  destruct (type p); split; intros Ht;
    try exact Hkey; try discriminate Ht; try contradiction.
Qed.

(** [parts_are_well_formed] on the word [Hello]. *)
Lemma parts_are_well_formed_witness :
  originalWord
    {| type := word; value := lit "Hello";
       originalWord := Some (lit "hello");
       id := lit "word-0-hello" |}
  = Some (asciiToLowerCase (lit "Hello")).
Proof.
  destruct (parts_are_well_formed asciiLetterOrDigit asciiToLowerCase
              (lit "Hello, world! 42")) as [_ H].
  apply (H {| type := word; value := lit "Hello";
              originalWord := Some (lit "hello");
              id := lit "word-0-hello" |}).
  - vm_compute. left. reflexivity.
  - reflexivity.
Defined.

(* ===================================================================== *)
(** ** Further properties: detectLanguage *)
(* ===================================================================== *)

Section DetectionFacts.

Import GeminiService.

Variable toLowerCase : jsString -> jsString.

Notation detectLanguage := (Detection.detectLanguage toLowerCase).
Notation detectLanguage_try := (Detection.detectLanguage_try toLowerCase).

Lemma detectLanguage_catches rt text :
  exists o, detectLanguage rt text = Fulfilled o.
Proof.
  unfold Detection.detectLanguage.
  destruct (detectLanguage_try rt text); eexists; reflexivity.
Qed.

Lemma detectLanguage_of_try rt text e :
  detectLanguage_try rt text = Rejected e ->
  detectLanguage rt text = Fulfilled None.
Proof. unfold Detection.detectLanguage. intros ->. reflexivity. Qed.

(** The [try] block, once the response text has been parsed. *)
Lemma detectLanguage_try_parsed rt text resp raw v :
  truthyOpt (API_KEY rt) = true ->
  generateContent rt (Detection.request text) = Fulfilled resp ->
  GeminiService.text resp = Some raw ->
  JSON_parse rt (cleanJson (trim raw)) = Some v ->
  detectLanguage_try rt text
  = bind (Detection.languageOf v)
      (fun language =>
         bind (Detection.callToLowerCase toLowerCase language)
           (fun name => Fulfilled (Detection.lookupLanguage name))).
Proof.
  intros Hk Hg Ht Hp.
  unfold Detection.detectLanguage_try, getGeminiClient.
  rewrite Hk. cbn [negb bind]. rewrite Hg. cbn [bind]. rewrite Ht.
  cbn [bind]. rewrite Hp. reflexivity.
Qed.

Lemma ownLanguage_spec (name : jsString) (l : Language) :
  Detection.ownLanguage Detection.languageMap name = Some l
  <-> name = asciiToLowerCase (languageValue l).
Proof.
  split.
  - unfold Detection.languageMap. cbn [Detection.ownLanguage].
    repeat match goal with
           | |- context [eqb ?k name] =>
               let E := fresh "E" in
               destruct (eqb k name) eqn:E;
               [apply eqb_eq in E; intros H; inversion H; subst;
                vm_compute; reflexivity | clear E]
           end.
    discriminate.
  - intros ->. destruct l; vm_compute; reflexivity.
Qed.

Lemma lookupLanguage_spec (name : jsString) :
  (forall l, Detection.lookupLanguage name = Some (Detection.OfEnum l)
             <-> name = asciiToLowerCase (languageValue l))
  /\ (forall m, Detection.lookupLanguage name = Some (Detection.Inherited m)
                <-> m = name
                    /\ In name Detection.objectPrototypeMembers
                    /\ Detection.ownLanguage Detection.languageMap name = None).
Proof.
  unfold Detection.lookupLanguage. split.
  - intros l. rewrite <- ownLanguage_spec.
    destruct (Detection.ownLanguage Detection.languageMap name) as [l'|].
    + split; intros H; inversion H; reflexivity.
    + destruct (existsb (eqb name) Detection.objectPrototypeMembers);
        split; discriminate.
  - intros m.
    destruct (Detection.ownLanguage Detection.languageMap name) as [l'|].
    + split; [discriminate | intros (_ & _ & H); discriminate H].
    + destruct (existsb (eqb name) Detection.objectPrototypeMembers) eqn:E.
      * apply existsb_exists in E as (k & Hin & Hk).
        apply eqb_eq in Hk. subst k.
        split; [|intros (-> & _); reflexivity].
        intros H. inversion H. subst m. split; [reflexivity|].
        split; [exact Hin | reflexivity].
      * split; [discriminate|]. intros (_ & Hin & _).
        assert (existsb (eqb name) Detection.objectPrototypeMembers = true).
        { apply existsb_exists. exists name.
          split; [exact Hin | apply eqb_refl]. }
        congruence.
Qed.

End DetectionFacts.

Lemma lowercase_members (name : jsString) :
  In name Detection.objectPrototypeMembers ->
  Forall (fun c => isCapital c = false) name ->
  name = lit "constructor" \/ name = lit "__proto__".
Proof.
  intros Hin Hlower.
  assert (Hb : forallb (fun c => negb (isCapital c)) name = true).
  { apply forallb_forall. rewrite Forall_forall in Hlower.
    intros c Hc. rewrite (Hlower c Hc). reflexivity. }
  clear Hlower. unfold Detection.objectPrototypeMembers in Hin.
  cbn [In] in Hin.
  repeat (destruct Hin as [Hin|Hin];
          [subst name;
           first [ left; reflexivity | right; reflexivity
                 | vm_compute in Hb; discriminate Hb ]
          |]).
  contradiction.
Qed.

Lemma detectLanguage_parsed_name
  (toLowerCase : jsString -> jsString) (rt : GeminiService.Runtime)
  (text : jsString) (resp : GeminiService.GenerateContentResponse)
  (raw name : jsString) (v : JsValue) :
  truthyOpt (GeminiService.API_KEY rt) = true ->
  GeminiService.generateContent rt (Detection.request text)
  = GeminiService.Fulfilled resp ->
  GeminiService.text resp = Some raw ->
  GeminiService.JSON_parse rt (GeminiService.cleanJson (trim raw)) = Some v ->
  languageField v = VString name ->
  Detection.detectLanguage toLowerCase rt text
  = GeminiService.Fulfilled (Detection.lookupLanguage (toLowerCase name)).
Proof.
  intros Hk Hg Ht Hp Hname.
  unfold Detection.detectLanguage.
  rewrite (detectLanguage_try_parsed toLowerCase rt text resp raw v)
    by assumption.
  destruct v as [| | b | n | s | items | props];
    cbn [languageField] in Hname; try discriminate Hname.
  cbn [Detection.languageOf GeminiService.bind]. rewrite Hname.
  reflexivity.
Qed.

(** X11. [detectLanguage] never rejects, and resolves to [null] on
    every failure: a missing key, an exception of the provider, a response
    without text, a text that does not parse, and a parsed response
    whose [language] is not a string. *)
Theorem detectLanguage_failures_give_null
  (toLowerCase : jsString -> jsString) (rt : GeminiService.Runtime)
  (text : jsString) :
  let r := Detection.detectLanguage toLowerCase rt text in
  (exists o, r = GeminiService.Fulfilled o)
  /\ (truthyOpt (GeminiService.API_KEY rt) = false ->
      r = GeminiService.Fulfilled None)
  /\ (forall e,
        GeminiService.generateContent rt (Detection.request text)
        = GeminiService.Rejected e ->
        r = GeminiService.Fulfilled None)
  /\ (forall resp,
        GeminiService.generateContent rt (Detection.request text)
        = GeminiService.Fulfilled resp ->
        GeminiService.text resp = None ->
        r = GeminiService.Fulfilled None)
  /\ (forall resp raw,
        GeminiService.generateContent rt (Detection.request text)
        = GeminiService.Fulfilled resp ->
        GeminiService.text resp = Some raw ->
        GeminiService.JSON_parse rt (GeminiService.cleanJson (trim raw))
        = None ->
        r = GeminiService.Fulfilled None)
  /\ (forall resp raw v,
        GeminiService.generateContent rt (Detection.request text)
        = GeminiService.Fulfilled resp ->
        GeminiService.text resp = Some raw ->
        GeminiService.JSON_parse rt (GeminiService.cleanJson (trim raw))
        = Some v ->
        (forall name, languageField v <> VString name) ->
        r = GeminiService.Fulfilled None).
Proof.
  intros r. subst r.
  split; [apply detectLanguage_catches|].
  unfold Detection.detectLanguage, Detection.detectLanguage_try,
    GeminiService.getGeminiClient.
  split.
  { intros Hk. rewrite Hk. reflexivity. }
  destruct (truthyOpt (GeminiService.API_KEY rt)); cbn [negb];
    [|repeat split; reflexivity].
  cbn [GeminiService.bind].
  split.
  { intros e He. rewrite He. reflexivity. }
  split.
  { intros resp Hr Ht. rewrite Hr. cbn [GeminiService.bind]. rewrite Ht.
    reflexivity. }
  split.
  { intros resp raw Hr Ht Hp. rewrite Hr. cbn [GeminiService.bind].
    rewrite Ht. cbn [GeminiService.bind]. rewrite Hp. reflexivity. }
  intros resp raw v Hr Ht Hp Hnot. rewrite Hr. cbn [GeminiService.bind].
  rewrite Ht. cbn [GeminiService.bind]. rewrite Hp. cbn [GeminiService.bind].
  destruct v as [| | b | n | s | items | props]; try reflexivity.
  cbn [Detection.languageOf GeminiService.bind].
  cbn [languageField] in Hnot.
  destruct (GeminiService.getProperty props (lit "language"))
    as [| | b | n | s | items | props']; try reflexivity.
  exfalso. apply (Hnot s). reflexivity.
Qed.

(** [detectLanguage_failures_give_null] on a provider that raises a
    network error. *)
Lemma detectLanguage_failures_give_null_witness :
  Detection.detectLanguage asciiToLowerCase
    (sampleRuntime (GeminiService.Rejected networkError) (audioResponse None))
    (lit "hola")
  = GeminiService.Fulfilled None.
Proof.
  pose proof (detectLanguage_failures_give_null asciiToLowerCase
                (sampleRuntime (GeminiService.Rejected networkError)
                   (audioResponse None))
                (lit "hola")) as (_ & _ & Hreject & _).
  apply (Hreject networkError). reflexivity.
Defined.

(** X12. [detectLanguage] recognises the thirteen languages of the enum
    and only them, whatever the case of the answer: when the parsed
    response has the string [name] as its [language], the result is the
    member [l] of the enum if and only if [name], lower-cased, is the name
    of [l] in lower case; so the provider's own spelling of each member is
    mapped back to that member. *)
Theorem detectLanguage_recognises_the_enum
  (toLowerCase : jsString -> jsString) (rt : GeminiService.Runtime)
  (text : jsString) (resp : GeminiService.GenerateContentResponse)
  (raw name : jsString) (v : JsValue) :
  truthyOpt (GeminiService.API_KEY rt) = true ->
  GeminiService.generateContent rt (Detection.request text)
  = GeminiService.Fulfilled resp ->
  GeminiService.text resp = Some raw ->
  GeminiService.JSON_parse rt (GeminiService.cleanJson (trim raw)) = Some v ->
  languageField v = VString name ->
  Detection.detectLanguage toLowerCase rt text
  = GeminiService.Fulfilled (Detection.lookupLanguage (toLowerCase name))
  /\ (forall l,
        Detection.detectLanguage toLowerCase rt text
        = GeminiService.Fulfilled (Some (Detection.OfEnum l))
        <-> toLowerCase name = asciiToLowerCase (languageValue l))
  /\ (forall l,
        name = languageValue l ->
        toLowerCase name = asciiToLowerCase name ->
        Detection.detectLanguage toLowerCase rt text
        = GeminiService.Fulfilled (Some (Detection.OfEnum l))).
Proof.
  intros Hk Hg Ht Hp Hname.
  pose proof (detectLanguage_parsed_name toLowerCase rt text resp raw name v
                Hk Hg Ht Hp Hname) as Hr.
  split; [exact Hr|].
  destruct (lookupLanguage_spec (toLowerCase name)) as [Henum _].
  assert (Hiff : forall l,
    Detection.detectLanguage toLowerCase rt text
    = GeminiService.Fulfilled (Some (Detection.OfEnum l))
    <-> toLowerCase name = asciiToLowerCase (languageValue l)).
  { intros l. rewrite Hr, <- Henum.
    split; intros H; [inversion H; reflexivity | rewrite H; reflexivity]. }
  split; [exact Hiff|].
  intros l Hl Hlow. apply Hiff. rewrite Hlow, Hl. reflexivity.
Qed.

(** [detectLanguage_recognises_the_enum] on the answer [Spanish]. *)
Lemma detectLanguage_recognises_the_enum_witness :
  Detection.detectLanguage asciiToLowerCase
    (detectionRuntime (lit "Spanish")) (lit "hola")
  = GeminiService.Fulfilled (Some (Detection.OfEnum SPANISH)).
Proof.
  refine (proj2 (proj2
            (detectLanguage_recognises_the_enum asciiToLowerCase
               (detectionRuntime (lit "Spanish")) (lit "hola")
               {| GeminiService.text := Some (languageJson (lit "Spanish"));
                  GeminiService.firstInlineData := None |}
               (languageJson (lit "Spanish")) (lit "Spanish")
               (VObject [(lit "language", VString (lit "Spanish"))])
               _ _ _ _ _)) SPANISH _ _);
    vm_compute; reflexivity.
Defined.

(** X13. The type of [detectLanguage] promises a language or [null],
    but the lookup in [languageMap] also finds what every object
    inherits: the result is something else than a language exactly when
    the lower-cased name is the name of a member of [Object.prototype] and
    no language; for a name without capital letters, as a lower-cased name
    is, these are [constructor] and [__proto__].  For every other name
    that is no language the result is [null]. *)
Theorem detectLanguage_finds_inherited_members
  (toLowerCase : jsString -> jsString) (rt : GeminiService.Runtime)
  (text : jsString) (resp : GeminiService.GenerateContentResponse)
  (raw name : jsString) (v : JsValue) :
  truthyOpt (GeminiService.API_KEY rt) = true ->
  GeminiService.generateContent rt (Detection.request text)
  = GeminiService.Fulfilled resp ->
  GeminiService.text resp = Some raw ->
  GeminiService.JSON_parse rt (GeminiService.cleanJson (trim raw)) = Some v ->
  languageField v = VString name ->
  (forall m,
     Detection.detectLanguage toLowerCase rt text
     = GeminiService.Fulfilled (Some (Detection.Inherited m))
     <-> m = toLowerCase name
         /\ In (toLowerCase name) Detection.objectPrototypeMembers)
  /\ (forall m,
        Detection.detectLanguage toLowerCase rt text
        = GeminiService.Fulfilled (Some (Detection.Inherited m)) ->
        Forall (fun c => isCapital c = false) (toLowerCase name) ->
        m = lit "constructor" \/ m = lit "__proto__")
  /\ ((forall l, toLowerCase name <> asciiToLowerCase (languageValue l)) ->
      ~ In (toLowerCase name) Detection.objectPrototypeMembers ->
      Detection.detectLanguage toLowerCase rt text
      = GeminiService.Fulfilled None).
Proof.
  intros Hk Hg Ht Hp Hname.
  pose proof (detectLanguage_parsed_name toLowerCase rt text resp raw name v
                Hk Hg Ht Hp Hname) as Hr.
  destruct (lookupLanguage_spec (toLowerCase name)) as [_ Hinh].
  assert (Hown : In (toLowerCase name) Detection.objectPrototypeMembers ->
                 Detection.ownLanguage Detection.languageMap
                   (toLowerCase name) = None).
  { intros Hin.
    destruct (Detection.ownLanguage Detection.languageMap (toLowerCase name))
      as [l|] eqn:E; [|reflexivity].
    apply ownLanguage_spec in E. rewrite E in Hin.
    exfalso. clear - Hin. destruct l; vm_compute in Hin;
      repeat (destruct Hin as [Hin|Hin]; [discriminate Hin|]); exact Hin. }
  assert (Hiff : forall m,
    Detection.detectLanguage toLowerCase rt text
    = GeminiService.Fulfilled (Some (Detection.Inherited m))
    <-> m = toLowerCase name
        /\ In (toLowerCase name) Detection.objectPrototypeMembers).
  { intros m. rewrite Hr. split.
    - intros H. inversion H as [H']. apply Hinh in H'. tauto.
    - intros [-> Hin]. f_equal. apply Hinh. auto. }
  split; [exact Hiff|]. split.
  - intros m Hm Hlower. apply Hiff in Hm as [-> Hin].
    apply lowercase_members; assumption.
  - intros Hno Hnot. rewrite Hr. f_equal.
    unfold Detection.lookupLanguage.
    destruct (Detection.ownLanguage Detection.languageMap (toLowerCase name))
      as [l|] eqn:E.
    + apply ownLanguage_spec in E. exfalso. apply (Hno l). exact E.
    + destruct (existsb (eqb (toLowerCase name))
                  Detection.objectPrototypeMembers) eqn:Ex; [|reflexivity].
      apply existsb_exists in Ex as (k & Hin & Heq).
      apply eqb_eq in Heq. subst k. contradiction.
Qed.

(** [detectLanguage_finds_inherited_members] on the answer
    [Constructor]. *)
Lemma detectLanguage_finds_inherited_members_witness :
  Detection.detectLanguage asciiToLowerCase
    (detectionRuntime (lit "Constructor")) (lit "hola")
  = GeminiService.Fulfilled (Some (Detection.Inherited (lit "constructor"))).
Proof.
  refine (proj2 (proj1
            (detectLanguage_finds_inherited_members asciiToLowerCase
               (detectionRuntime (lit "Constructor")) (lit "hola")
               {| GeminiService.text :=
                    Some (languageJson (lit "Constructor"));
                  GeminiService.firstInlineData := None |}
               (languageJson (lit "Constructor")) (lit "Constructor")
               (VObject [(lit "language", VString (lit "Constructor"))])
               _ _ _ _ _) (lit "constructor")) _);
    try (vm_compute; reflexivity).
  split; [vm_compute; reflexivity|].
  vm_compute. left. reflexivity.
Defined.

(* ===================================================================== *)
(** ** Further properties: the audio of a pronunciation *)
(* ===================================================================== *)

Lemma setAt_length {A} (l : list A) (i : nat) (x : A) :
  length (AudioUtils.setAt l i x) = length l.
Proof.
  revert i. induction l as [|y rest IH]; intros [|i]; cbn; auto.
Qed.

Lemma nth_error_setAt {A} (l : list A) (i j : nat) (x : A) :
  nth_error (AudioUtils.setAt l i x) j
  = if (Nat.eqb j i && Nat.ltb i (length l))%bool then Some x
    else nth_error l j.
Proof.
  revert i j. induction l as [|y rest IH]; intros i j.
  - destruct i, j; cbn; try reflexivity.
    rewrite andb_false_r. reflexivity.
  - destruct i as [|i], j as [|j]; cbn; try reflexivity.
    rewrite IH. reflexivity.
Qed.

Lemma nth_setAt_other {A} (l : list A) (i j : nat) (x d : A) :
  j <> i -> nth j (AudioUtils.setAt l i x) d = nth j l d.
Proof.
  revert i j. induction l as [|y rest IH]; intros i j Hne.
  - destruct i; reflexivity.
  - destruct i as [|i], j as [|j]; cbn; try reflexivity.
    + contradiction.
    + apply IH. intros ->. apply Hne. reflexivity.
Qed.

(** A loop that stores [f i] at each index [i] of a list of indices. *)
Lemma fold_setAt_length {A} (f : nat -> A) (indices : list nat) (l : list A) :
  length (fold_left (fun acc i => AudioUtils.setAt acc i (f i)) indices l)
  = length l.
Proof.
  revert l. induction indices as [|a rest IH]; intros l; cbn; [reflexivity|].
  rewrite IH. apply setAt_length.
Qed.

Lemma fold_setAt_nth {A} (f : nat -> A) (indices : list nat) (l : list A)
  (j : nat) :
  (j < length l)%nat ->
  nth_error (fold_left (fun acc i => AudioUtils.setAt acc i (f i)) indices l) j
  = if existsb (Nat.eqb j) indices then Some (f j) else nth_error l j.
Proof.
  revert l. induction indices as [|a rest IH]; intros l Hj; cbn;
    [reflexivity|].
  rewrite IH by (rewrite setAt_length; exact Hj).
  destruct (existsb (Nat.eqb j) rest); [rewrite orb_true_r; reflexivity|].
  rewrite orb_false_r, nth_error_setAt.
  destruct (Nat.eqb j a) eqn:E; [|reflexivity].
  apply Nat.eqb_eq in E. subst a.
  apply Nat.ltb_lt in Hj. rewrite Hj. reflexivity.
Qed.

(** The loop over the channels, each visited once. *)
Lemma fold_channels_length {A} (g : nat -> A -> A) (d : A)
  (channels : list nat) (buffer : list A) :
  length (fold_left
            (fun buffer channel =>
               AudioUtils.setAt buffer channel
                 (g channel (nth channel buffer d)))
            channels buffer)
  = length buffer.
Proof.
  revert buffer. induction channels as [|a rest IH]; intros buffer; cbn;
    [reflexivity|].
  rewrite IH. apply setAt_length.
Qed.

Lemma fold_channels_nth {A} (g : nat -> A -> A) (d : A)
  (channels : list nat) (buffer : list A) (c : nat) :
  NoDup channels -> (c < length buffer)%nat ->
  nth_error (fold_left
               (fun buffer channel =>
                  AudioUtils.setAt buffer channel
                    (g channel (nth channel buffer d)))
               channels buffer) c
  = if existsb (Nat.eqb c) channels then Some (g c (nth c buffer d))
    else nth_error buffer c.
Proof.
  intros Hnd. revert buffer.
  induction Hnd as [|a rest Hnotin Hnd IH]; intros buffer Hc; cbn;
    [reflexivity|].
  rewrite IH by (rewrite setAt_length; exact Hc).
  destruct (existsb (Nat.eqb c) rest) eqn:Ex.
  - rewrite orb_true_r. f_equal. f_equal. apply nth_setAt_other.
    intros ->. apply Hnotin.
    apply existsb_exists in Ex as (k & Hin & Hk).
    apply Nat.eqb_eq in Hk. subst k. exact Hin.
  - rewrite orb_false_r, nth_error_setAt.
    destruct (Nat.eqb c a) eqn:E; [|reflexivity].
    apply Nat.eqb_eq in E. subst a.
    apply Nat.ltb_lt in Hc. rewrite Hc. reflexivity.
Qed.

Lemma existsb_eqb_seq (c n : nat) :
  existsb (Nat.eqb c) (seq 0 n) = (c <? n)%nat.
Proof.
  destruct (c <? n)%nat eqn:E.
  - apply Nat.ltb_lt in E. apply existsb_exists. exists c.
    split; [apply in_seq; lia | apply Nat.eqb_refl].
  - apply Nat.ltb_ge in E.
    destruct (existsb (Nat.eqb c) (seq 0 n)) eqn:Ex; [|reflexivity].
    apply existsb_exists in Ex as (k & Hin & Hk).
    apply Nat.eqb_eq in Hk. subst k. apply in_seq in Hin. lia.
Qed.

(** The loop over the channels of a fresh buffer makes each channel from
    the zeros the buffer was created with. *)
Lemma channels_loop_is_map {A} (g : nat -> A -> A) (d z : A) (n : nat) :
  fold_left
    (fun buffer channel =>
       AudioUtils.setAt buffer channel (g channel (nth channel buffer d)))
    (seq 0 n) (repeat z n)
  = map (fun channel => g channel z) (seq 0 n).
Proof.
  apply nth_error_ext. intros c.
  destruct (Nat.lt_ge_cases c n) as [Hc|Hc].
  - rewrite fold_channels_nth
      by (try apply seq_NoDup; rewrite repeat_length; exact Hc).
    rewrite existsb_eqb_seq. apply Nat.ltb_lt in Hc as Hb. rewrite Hb.
    rewrite nth_error_map, nth_error_seq, Hb. cbn.
    rewrite nth_repeat_lt by exact Hc. reflexivity.
  - transitivity (@None A).
    + apply nth_error_None. rewrite fold_channels_length, repeat_length.
      exact Hc.
    + symmetry. apply nth_error_None. rewrite length_map, length_seq.
      exact Hc.
Qed.

Lemma bufferLength_le (length numChannels : nat) :
  (AudioUtils.bufferLength length numChannels <= length / numChannels)%nat.
Proof.
  destruct numChannels as [|n]; [cbn; lia|].
  unfold AudioUtils.bufferLength.
  pose proof (N.Div0.mod_le (N.of_nat (length / S n)) (2 ^ 32)%N) as H.
  lia.
Qed.

Lemma frame_in_range (length numChannels channel i : nat) :
  (channel < numChannels)%nat -> (i < length / numChannels)%nat ->
  (i * numChannels + channel < length)%nat.
Proof.
  intros Hc Hi.
  pose proof (Nat.Div0.mul_div_le length numChannels) as H.
  nia.
Qed.

Lemma fillChannel_length (dataInt16 : list Z) (numChannels channel : nat)
  (channelData : list AudioUtils.Float) :
  length (AudioUtils.fillChannel dataInt16 numChannels channel channelData)
  = length channelData.
Proof. apply fold_setAt_length. Qed.

(** A frame of a channel holds the sample of that frame and channel of the
    interleaved data. *)
Lemma fillChannel_nth (dataInt16 : list Z) (numChannels channel : nat)
  (channelData : list AudioUtils.Float) (i : nat) :
  (channel < numChannels)%nat ->
  (length channelData <= length dataInt16 / numChannels)%nat ->
  (i < length channelData)%nat ->
  exists n,
    nth_error dataInt16 (i * numChannels + channel) = Some n
    /\ nth_error
         (AudioUtils.fillChannel dataInt16 numChannels channel channelData) i
       = Some (AudioUtils.Finite n).
Proof.
  intros Hc Hlen Hi.
  assert (Hin : (i * numChannels + channel < length dataInt16)%nat)
    by (apply frame_in_range; lia).
  destruct (nth_error dataInt16 (i * numChannels + channel)) as [n|] eqn:E;
    [|apply nth_error_None in E; lia].
  exists n. split; [reflexivity|].
  unfold AudioUtils.fillChannel.
  rewrite (fold_setAt_nth
             (fun i => AudioUtils.sampleAt dataInt16
                         (i * numChannels + channel))) by exact Hi.
  assert (Hex : existsb (Nat.eqb i)
                  (AudioUtils.frameIndices (length dataInt16) numChannels)
                = true).
  { apply existsb_exists. exists i. split; [|apply Nat.eqb_refl].
    unfold AudioUtils.frameIndices. apply filter_In.
    split; [apply in_seq; nia | apply Nat.ltb_lt; lia]. }
  rewrite Hex. unfold AudioUtils.sampleAt. rewrite E. reflexivity.
Qed.

(** With an even number of bytes in the buffer and a host that makes
    the audio buffer, [decodeAudioData] resolves, to one channel per
    channel number. *)
Lemma decodeAudioData_fulfilled (host : AudioUtils.Host)
  (data : AudioUtils.Uint8Array) (sampleRate : Z) (numChannels : nat) :
  Nat.even (length (AudioUtils.buffer data)) = true ->
  AudioUtils.createBufferAccepts host numChannels
    (AudioUtils.bufferLength
       (length (AudioUtils.int16Elements (AudioUtils.buffer data)))
       numChannels) sampleRate = true ->
  AudioUtils.decodeAudioData host data sampleRate numChannels
  = GeminiService.Fulfilled
      (map (fun channel =>
              AudioUtils.fillChannel
                (AudioUtils.int16Elements (AudioUtils.buffer data))
                numChannels channel
                (repeat (AudioUtils.Finite 0)
                   (AudioUtils.bufferLength
                      (length
                         (AudioUtils.int16Elements (AudioUtils.buffer data)))
                      numChannels)))
         (seq 0 numChannels)).
Proof.
  intros Heven Hacc.
  unfold AudioUtils.decodeAudioData, AudioUtils.newInt16Array.
  rewrite Heven. cbn [GeminiService.bind]. rewrite Hacc.
  f_equal.
  apply (channels_loop_is_map
           (fun channel channelData =>
              AudioUtils.fillChannel
                (AudioUtils.int16Elements (AudioUtils.buffer data))
                numChannels channel channelData)).
Qed.

(** Whenever [decodeAudioData] resolves, the number of bytes of the
    buffer was even and the host made the audio buffer. *)
Lemma decodeAudioData_resolves (host : AudioUtils.Host)
  (data : AudioUtils.Uint8Array) (sampleRate : Z) (numChannels : nat)
  (buffer : list (list AudioUtils.Float)) :
  AudioUtils.decodeAudioData host data sampleRate numChannels
  = GeminiService.Fulfilled buffer ->
  Nat.even (length (AudioUtils.buffer data)) = true
  /\ AudioUtils.createBufferAccepts host numChannels
       (AudioUtils.bufferLength
          (length (AudioUtils.int16Elements (AudioUtils.buffer data)))
          numChannels) sampleRate = true.
Proof.
  unfold AudioUtils.decodeAudioData, AudioUtils.newInt16Array.
  destruct (Nat.even (length (AudioUtils.buffer data)));
    cbn [GeminiService.bind]; [|discriminate].
  destruct (AudioUtils.createBufferAccepts host numChannels _ sampleRate);
    [split; reflexivity | discriminate].
Qed.

Lemma int16Of_range (lo hi : Z) :
  0 <= lo < 256 -> 0 <= hi < 256 ->
  -32768 <= AudioUtils.int16Of lo hi < 32768.
Proof.
  intros Hlo Hhi. unfold AudioUtils.int16Of. cbv zeta.
  destruct (lo + 256 * hi <? 32768) eqn:E;
    [apply Z.ltb_lt in E | apply Z.ltb_ge in E]; lia.
Qed.

Lemma int16Elements_range (bytes : list Z) :
  Forall (fun b => 0 <= b < 256) bytes ->
  Forall (fun n => -32768 <= n < 32768) (AudioUtils.int16Elements bytes).
Proof.
  assert (H : forall k bytes, (length bytes <= k)%nat ->
            Forall (fun b => 0 <= b < 256) bytes ->
            Forall (fun n => -32768 <= n < 32768)
              (AudioUtils.int16Elements bytes)).
  { clear bytes. induction k as [|k IH]; intros bytes Hlen Hb.
    - destruct bytes; [constructor | cbn in Hlen; lia].
    - destruct bytes as [|lo [|hi rest]]; cbn; try constructor.
      + inversion Hb as [|? ? Hlo Hb']. inversion Hb' as [|? ? Hhi Hb''].
        apply int16Of_range; assumption.
      + destruct k as [|k']; [cbn in Hlen; lia|].
        apply IH; [cbn in Hlen; lia|].
        inversion Hb as [|? ? Hlo Hb']. inversion Hb' as [|? ? Hhi Hb''].
        exact Hb''. }
  apply (H (length bytes)). lia.
Qed.

Lemma int16Elements_length (bytes : list Z) :
  length (AudioUtils.int16Elements bytes) = (length bytes / 2)%nat.
Proof.
  assert (H : forall k bytes, (length bytes <= k)%nat ->
            length (AudioUtils.int16Elements bytes) = (length bytes / 2)%nat).
  { clear bytes. induction k as [|k IH]; intros bytes Hlen.
    - destruct bytes; [reflexivity | cbn in Hlen; lia].
    - destruct bytes as [|lo [|hi rest]]; try reflexivity.
      cbn [AudioUtils.int16Elements length].
      rewrite IH by (cbn in Hlen; lia).
      change (S (S (length rest))) with (1 * 2 + length rest)%nat.
      rewrite Nat.div_add_l by lia. lia. }
  apply (H (length bytes)). lia.
Qed.

(** A view that spans its buffer shows the bytes of the buffer. *)
Lemma spansBuffer_elements (data : AudioUtils.Uint8Array) :
  AudioUtils.spansBuffer data = true ->
  AudioUtils.elements data = AudioUtils.buffer data.
Proof.
  unfold AudioUtils.spansBuffer, AudioUtils.elements. intros H.
  apply andb_true_iff in H as [Hoff Hlen].
  apply Nat.eqb_eq in Hoff. apply Nat.eqb_eq in Hlen.
  rewrite Hoff, Hlen. cbn [skipn]. apply firstn_all.
Qed.

(** The array [decode] makes spans a buffer of its own, of bytes. *)
Lemma decode_bytes (host : AudioUtils.Host) (base64 : jsString)
  (bytes : AudioUtils.Uint8Array) :
  AudioUtils.decode host base64 = GeminiService.Fulfilled bytes ->
  AudioUtils.spansBuffer bytes = true
  /\ Forall (fun b => 0 <= b < 256) (AudioUtils.buffer bytes).
Proof.
  unfold AudioUtils.decode.
  destruct (AudioUtils.atob host base64) as [binaryString|e];
    cbn [GeminiService.bind]; [|discriminate].
  intros H. inversion H. subst bytes. split.
  - unfold AudioUtils.spansBuffer.
    cbn [AudioUtils.byteOffset AudioUtils.byteLength AudioUtils.buffer].
    rewrite length_map, !Nat.eqb_refl. reflexivity.
  - cbn [AudioUtils.buffer]. apply Forall_forall.
    intros b Hb. apply in_map_iff in Hb as (c & <- & _).
    apply Z.mod_pos_bound. lia.
Qed.

(** X14. [decodeAudioData] separates the channels of the buffer under
    [data].  The samples are the sixteen-bit numbers of [data.buffer], the
    whole buffer, whatever part of it the array [data] shows (they are the
    samples of the bytes of [data] when [data] spans its buffer).  When
    that buffer has an even number of bytes and the host makes the audio
    buffer, [decodeAudioData] resolves to one channel per channel number,
    each of [frameCount] frames (as [createBuffer] converts it); frame [i]
    of channel [c] is sample number [i * numChannels + c], divided by
    32768, and every frame stored reads a sample inside the buffer, also
    when the number of samples is no multiple of the number of
    channels. *)
Theorem decodeAudioData_deinterleaves (host : AudioUtils.Host)
  (data : AudioUtils.Uint8Array) (sampleRate : Z) (numChannels : nat) :
  let dataInt16 := AudioUtils.int16Elements (AudioUtils.buffer data) in
  let frames := AudioUtils.bufferLength (length dataInt16) numChannels in
  Nat.even (length (AudioUtils.buffer data)) = true ->
  AudioUtils.createBufferAccepts host numChannels frames sampleRate = true ->
  (AudioUtils.spansBuffer data = true ->
   dataInt16 = AudioUtils.int16Elements (AudioUtils.elements data))
  /\ exists buffer,
       AudioUtils.decodeAudioData host data sampleRate numChannels
       = GeminiService.Fulfilled buffer
       /\ length buffer = numChannels
       /\ forall channel, (channel < numChannels)%nat ->
          exists channelData,
            nth_error buffer channel = Some channelData
            /\ length channelData = frames
            /\ forall i, (i < frames)%nat ->
               exists n,
                 nth_error dataInt16 (i * numChannels + channel) = Some n
                 /\ nth_error channelData i = Some (AudioUtils.Finite n).
Proof.
  intros dataInt16 frames Heven Hacc.
  split.
  { intros Hspan. subst dataInt16.
    rewrite (spansBuffer_elements data Hspan). reflexivity. }
  eexists. split; [apply decodeAudioData_fulfilled; assumption|].
  split; [rewrite length_map, length_seq; reflexivity|].
  intros channel Hc.
  eexists. split.
  { rewrite nth_error_map, nth_error_seq.
    apply Nat.ltb_lt in Hc as Hb. rewrite Hb. reflexivity. }
  cbn [Nat.add].
  split; [rewrite fillChannel_length; apply repeat_length|].
  intros i Hi. apply fillChannel_nth.
  - exact Hc.
  - rewrite repeat_length. apply bufferLength_le.
  - rewrite repeat_length. exact Hi.
Qed.

(** [decodeAudioData_deinterleaves] on a view of the middle of a buffer,
    in two channels: the frames are the four samples of the buffer, not
    the two the view shows. *)
Lemma decodeAudioData_deinterleaves_witness :
  AudioUtils.elements sampleView = [1; 0; 2; 0]
  /\ exists buffer,
       AudioUtils.decodeAudioData sampleHost sampleView 24000 2
       = GeminiService.Fulfilled buffer
       /\ length buffer = 2%nat
       /\ forall channel, (channel < 2)%nat ->
          exists channelData,
            nth_error buffer channel = Some channelData
            /\ length channelData = 2%nat
            /\ forall i, (i < 2)%nat ->
               exists n,
                 nth_error [2313; 1; 2; 2313] (i * 2 + channel) = Some n
                 /\ nth_error channelData i = Some (AudioUtils.Finite n).
Proof.
  split; [reflexivity|].
  refine (proj2 (decodeAudioData_deinterleaves sampleHost sampleView 24000 2
                   _ _));
    vm_compute; reflexivity.
Defined.

(** X15. The bytes [decode] makes never give a sample outside the range
    of an audio buffer: every frame of every channel [decodeAudioData]
    makes from them is a number [n / 32768] with [-32768 <= n < 32768],
    so at least -1 and less than 1, and never [NaN]. *)
Theorem decoded_samples_lie_in_unit_range (host : AudioUtils.Host)
  (base64 : jsString) (sampleRate : Z) (numChannels : nat)
  (bytes : AudioUtils.Uint8Array) (buffer : list (list AudioUtils.Float)) :
  AudioUtils.decode host base64 = GeminiService.Fulfilled bytes ->
  AudioUtils.decodeAudioData host bytes sampleRate numChannels
  = GeminiService.Fulfilled buffer ->
  forall channelData x,
    In channelData buffer -> In x channelData ->
    exists n, x = AudioUtils.Finite n /\ -32768 <= n < 32768.
Proof.
  intros Hdec Hbuf channelData x Hch Hx.
  apply decode_bytes in Hdec as [_ Hdec].
  apply int16Elements_range in Hdec.
  destruct (decodeAudioData_resolves _ _ _ _ _ Hbuf) as [Heven Hacc].
  rewrite (decodeAudioData_fulfilled _ _ _ _ Heven Hacc) in Hbuf.
  inversion Hbuf as [Heq]. clear Hbuf. subst buffer.
  apply in_map_iff in Hch as (channel & <- & Hc). apply in_seq in Hc.
  apply In_nth_error in Hx as (i & Hi).
  remember (AudioUtils.int16Elements (AudioUtils.buffer bytes))
    as dataInt16 eqn:Ed.
  assert (Hlt : (i < AudioUtils.bufferLength (length dataInt16)
                       numChannels)%nat).
  { assert (Hlt : (i < length
                          (AudioUtils.fillChannel dataInt16 numChannels
                             channel
                             (repeat (AudioUtils.Finite 0)
                                (AudioUtils.bufferLength (length dataInt16)
                                   numChannels))))%nat)
      by (apply nth_error_Some; congruence).
    rewrite fillChannel_length, repeat_length in Hlt. exact Hlt. }
  destruct (fillChannel_nth dataInt16 numChannels channel
              (repeat (AudioUtils.Finite 0)
                 (AudioUtils.bufferLength (length dataInt16) numChannels))
              i) as (n & Hn & Hfill).
  - lia.
  - rewrite repeat_length. apply bufferLength_le.
  - rewrite repeat_length. exact Hlt.
  - exists n. split; [congruence|].
    rewrite Forall_forall in Hdec. apply Hdec.
    apply nth_error_In in Hn. exact Hn.
Qed.

(** [decoded_samples_lie_in_unit_range] on the extreme samples. *)
Lemma decoded_samples_lie_in_unit_range_witness :
  exists n,
    AudioUtils.Finite (-32768) = AudioUtils.Finite n /\ -32768 <= n < 32768.
Proof.
  refine (decoded_samples_lie_in_unit_range sampleHost sampleBase64 24000 2
            sampleArray
            [[AudioUtils.Finite (-32768); AudioUtils.Finite 1];
             [AudioUtils.Finite 32767; AudioUtils.Finite (-1)]]
            _ _
            [AudioUtils.Finite (-32768); AudioUtils.Finite 1]
            (AudioUtils.Finite (-32768)) _ _);
    [vm_compute; reflexivity | vm_compute; reflexivity
    | left; reflexivity | left; reflexivity].
Defined.

(** X16. With one channel, as the detail card asks for, the audio buffer
    is the stream of samples of the buffer under [data]: its one channel
    holds every sixteen-bit sample of [data.buffer], in order, each
    divided by 32768, one sample for every two bytes of that buffer.
    These are the samples of the bytes of [data] itself when [data] spans
    its buffer, which the arrays [decode] makes do. *)
Theorem mono_buffer_is_the_sample_stream (host : AudioUtils.Host)
  (data : AudioUtils.Uint8Array) (sampleRate : Z) :
  let dataInt16 := AudioUtils.int16Elements (AudioUtils.buffer data) in
  Nat.even (length (AudioUtils.buffer data)) = true ->
  (N.of_nat (length dataInt16) < 2 ^ 32)%N ->
  AudioUtils.createBufferAccepts host 1 (length dataInt16) sampleRate = true ->
  AudioUtils.decodeAudioData host data sampleRate 1
  = GeminiService.Fulfilled [map AudioUtils.Finite dataInt16]
  /\ length dataInt16 = (length (AudioUtils.buffer data) / 2)%nat
  /\ (AudioUtils.spansBuffer data = true ->
      dataInt16 = AudioUtils.int16Elements (AudioUtils.elements data))
  /\ (forall base64,
        AudioUtils.decode host base64 = GeminiService.Fulfilled data ->
        AudioUtils.spansBuffer data = true).
Proof.
  intros dataInt16 Heven Hsmall Hacc.
  split; [|split; [apply int16Elements_length|split]].
  2:{ intros Hspan. subst dataInt16.
      rewrite (spansBuffer_elements data Hspan). reflexivity. }
  2:{ intros base64 Hdec. apply (decode_bytes host base64). exact Hdec. }
  assert (Hframes : AudioUtils.bufferLength (length dataInt16) 1
                    = length dataInt16).
  { unfold AudioUtils.bufferLength. rewrite Nat.div_1_r.
    rewrite N.mod_small by exact Hsmall. lia. }
  rewrite (decodeAudioData_fulfilled host data sampleRate 1 Heven)
    by (fold dataInt16; rewrite Hframes; exact Hacc).
  fold dataInt16. rewrite Hframes. cbn [seq map]. do 2 f_equal.
  apply nth_error_ext. intros i.
  destruct (Nat.lt_ge_cases i (length dataInt16)) as [Hi|Hi].
  - destruct (fillChannel_nth dataInt16 1 0
                (repeat (AudioUtils.Finite 0) (length dataInt16)) i)
      as (n & Hn & Hfill).
    + lia.
    + rewrite repeat_length, Nat.div_1_r. lia.
    + rewrite repeat_length. exact Hi.
    + rewrite Hfill, nth_error_map.
      replace (i * 1 + 0)%nat with i in Hn by lia.
      rewrite Hn. reflexivity.
  - transitivity (@None AudioUtils.Float).
    + apply nth_error_None. rewrite fillChannel_length, repeat_length.
      exact Hi.
    + symmetry. apply nth_error_None. rewrite length_map. exact Hi.
Qed.

(** [mono_buffer_is_the_sample_stream] on a view of the middle of a
    buffer: the channel holds the four samples of the buffer. *)
Lemma mono_buffer_is_the_sample_stream_witness :
  AudioUtils.decodeAudioData sampleHost sampleView 24000 1
  = GeminiService.Fulfilled
      [[AudioUtils.Finite 2313; AudioUtils.Finite 1;
        AudioUtils.Finite 2; AudioUtils.Finite 2313]].
Proof.
  refine (proj1 (mono_buffer_is_the_sample_stream sampleHost sampleView 24000
                   _ _ _)); vm_compute; reflexivity.
Defined.

(* ===================================================================== *)
(** ** Further properties: the Save button *)
(* ===================================================================== *)

Lemma existsb_filter_eq {A} (f : A -> bool) (l l' : list A) :
  filter f l = filter f l' -> existsb f l = existsb f l'.
Proof.
  intros H.
  destruct (existsb f l) eqn:E, (existsb f l') eqn:E'; try reflexivity.
  - apply filter_nonempty_existsb in E. apply existsb_false_filter in E'.
    congruence.
  - apply filter_nonempty_existsb in E'. apply existsb_false_filter in E.
    congruence.
Qed.

(** X17. The Save button follows the list.  With a term selected: once
    its details are shown, a save leaves the term marked as saved, so the
    button is disabled; removing the entry of the term under the current
    source language marks it as not saved again; and removing any other
    entry does not change the mark. *)
Theorem save_button_follows_the_list (s : App.AppState) (t : jsString) :
  App.selectedTerm s = Some t -> truthy t = true ->
  (forall d now,
     App.wordDetails s = Some d -> App.isLoading s = false ->
     App.isCurrentTermSaved (App.handleSaveWord now s) = true)
  /\ App.isCurrentTermSaved
       (App.handleRemoveWord t (App.effectiveSourceLanguage s) s) = false
  /\ (forall t' l',
        (t, App.effectiveSourceLanguage s) <> (t', l') ->
        App.isCurrentTermSaved (App.handleRemoveWord t' l' s)
        = App.isCurrentTermSaved s).
Proof.
  intros Ht Htruthy. split; [|split].
  - intros d now Hd Hload.
    destruct (handleSaveWord_frame now s) as [Hsel Hlang].
    unfold App.isCurrentTermSaved. rewrite Hsel, Ht, Htruthy, Hlang.
    destruct (existsb (App.sameKey t (App.effectiveSourceLanguage s))
                (App.savedWords s)) eqn:E.
    + rewrite (handleSaveWord_present s t now Ht E). exact E.
    + rewrite (handleSaveWord_new s t d now Ht Htruthy Hd Hload E).
      rewrite existsb_app. cbn [existsb].
      replace (App.sameKey t (App.effectiveSourceLanguage s)
                 (mkSavedWord t (App.effectiveSourceLanguage s)
                    (App.targetLanguage s) d now)) with true
        by (symmetry; apply sameKey_new; split; reflexivity).
      rewrite orb_true_r. reflexivity.
  - unfold App.isCurrentTermSaved, App.handleRemoveWord.
    cbn [App.selectedTerm App.setSavedWords App.savedWords
         App.effectiveSourceLanguage App.detectedSourceLanguage].
    rewrite Ht, Htruthy.
    fold (App.effectiveSourceLanguage s).
    apply not_true_iff_false. intros E.
    apply filter_nonempty_existsb in E. apply E. apply filter_negb_none.
  - intros t' l' Hne.
    unfold App.isCurrentTermSaved, App.handleRemoveWord.
    cbn [App.selectedTerm App.setSavedWords App.savedWords
         App.effectiveSourceLanguage App.detectedSourceLanguage].
    rewrite Ht, Htruthy.
    fold (App.effectiveSourceLanguage s).
    apply existsb_filter_eq. apply filter_other_key. exact Hne.
Qed.

(** [save_button_follows_the_list] after a lookup of [hola]. *)
Lemma save_button_follows_the_list_witness :
  App.isCurrentTermSaved
    (App.handleSaveWord 1000
       (sampleRun dictionaryRuntime
          [App.TextAreaChange (lit "hola"); App.WordClick 0;
           App.GetTermDetailsSettled 0]))
  = true.
Proof.
  refine (proj1 (save_button_follows_the_list
                   (sampleRun dictionaryRuntime
                      [App.TextAreaChange (lit "hola"); App.WordClick 0;
                       App.GetTermDetailsSettled 0])
                   (lit "hola") _ _) (mergeAudio holaValue None) 1000 _ _);
    vm_compute; reflexivity.
Defined.
